(** * Transcript synchronisation and semantic search: a shallow embedding

    The development follows [src/claude_code_transcripts]:
    - [sync.py]: [needs_update], [extract_user_queries], [store_embeddings],
      [sync_local_sessions], [sync_web_sessions];
    - [search.py]: [search_transcripts];
    - [models.py]: the three tables;
    - [embeddings.py]: the encoder interface.

    Python integers are [Z]; Python text that is sliced or stripped is a list
    of code points ([pystr]); identifiers and paths, which are only compared
    and concatenated, are [string]; the numbers in a vector are idealised as
    real numbers, without rounding, overflow or underflow; a distance or a
    similarity is such a number or NaN. *)

From Stdlib Require Import String Ascii.
From Stdlib Require Import List ZArith NArith Bool Lia.
From Stdlib Require Import Reals Lra DecimalString Sorting.Sorted Permutation.
Import ListNotations.

Set Implicit Arguments.
Set Warnings "-register-all".
Open Scope Z_scope.

(* ================================================================= *)
(** ** Python values *)

(** A Python [str] is a sequence of Unicode code points. *)
Definition pychar := N.
Definition pystr := list pychar.

(** Reading of an ASCII literal, one code point per character. *)
Definition py (s : string) : pystr := map N_of_ascii (list_ascii_of_string s).

(** [str.isspace] on one code point: the characters [str.strip()] removes. *)
Definition isspace (c : pychar) : bool :=
  ((9 <=? c) && (c <=? 13) || (28 <=? c) && (c <=? 32)
   || (c =? 133) || (c =? 160) || (c =? 5760)
   || (8192 <=? c) && (c <=? 8202)
   || (c =? 8232) || (c =? 8233) || (c =? 8239) || (c =? 8287)
   || (c =? 12288))%N.

Fixpoint lstrip (s : pystr) : pystr :=
  match s with
  | [] => []
  | c :: rest => if isspace c then lstrip rest else s
  end.

Definition rstrip (s : pystr) : pystr := rev (lstrip (rev s)).

(** [s.strip()] *)
Definition strip (s : pystr) : pystr := rstrip (lstrip s).

(** Truthiness of a [str]: non-empty. *)
Definition str_truthy (s : pystr) : bool :=
  match s with [] => false | _ :: _ => true end.

(** [l[:n]] for any Python integer [n]: a negative bound counts from the end. *)
Definition slice_to {A} (n : Z) (l : list A) : list A :=
  if 0 <=? n then firstn (Z.to_nat n) l
  else firstn (Z.to_nat (Z.of_nat (length l) + n)) l.

(** JSON values, as they sit in the [content] field of a logline. *)
Inductive json : Type :=
| JNull
| JBool (b : bool)
| JNum (z : Z)
| JStr (s : pystr)
| JArr (items : list json)
| JObj (fields : list (string * json)).

(** A logline is a dict of which only the key ["content"] is read;
    [None] is the absent key ([logline.get("content")] is then [None]). *)
Record Logline := { content : option json }.

(** Parsed session data: a dict of which only ["loglines"] is read. *)
Record SessionData := { loglines : option (list Logline) }.

(** [session_data.get("loglines", [])] *)
Definition get_loglines (session_data : SessionData) : list Logline :=
  match loglines session_data with
  | Some l => l
  | None => []
  end.

(** Exceptions that travel through the code. *)
Inductive exn : Type :=
| ZeroDivisionError
| EncoderError
| ParseError
| RenderError
| FetchError
| IntegrityError
| PendingRollbackError
| DataError
| InternalError
| OperationalError.

Inductive outcome (A : Type) : Type :=
| Ok (a : A)
| Raise (e : exn).
Arguments Ok {A} a.
Arguments Raise {A} e.

(* ================================================================= *)
(** ** models.py *)

Definition vector := list R.

Record Conversation := {
  conv_id : Z;
  session_id : string;
  source : string;
  last_updated : Z;
  message_count : Z;
  html_path : string;
  first_message : option pystr
}.

Record ConversationEmbedding := {
  ce_id : Z;
  ce_conversation_id : Z;
  summary_text : pystr;
  ce_embedding : vector
}.

Record MessageEmbedding := {
  me_id : Z;
  me_conversation_id : Z;
  me_message_index : Z;
  message_text : pystr;
  me_embedding : vector;
  me_page_number : Z
}.

(* ================================================================= *)
(** ** sync.py: needs_update, extract_user_queries *)

Definition needs_update (existing : option Conversation)
                        (session_data : SessionData) : bool :=
  match existing with
  | None => true
  | Some existing =>
      let current_message_count :=
        Z.of_nat (length (get_loglines session_data)) in
      negb (current_message_count =? message_count existing)
  end.

(** (message_index, message_text, page_number) *)
Definition UserQuery : Type := Z * pystr * Z.

(** The [for] loop of [extract_user_queries], with its three local
    variables; [prompt_count // prompts_per_page] raises on a zero divisor. *)
Fixpoint extract_loop (prompts_per_page : Z) (lines : list Logline)
    (user_queries : list UserQuery) (message_index prompt_count : Z)
  : outcome (list UserQuery) :=
  match lines with
  | [] => Ok user_queries
  | logline :: rest =>
      match content logline with
      | Some (JStr c) =>
          if str_truthy (strip c) then
            if prompts_per_page =? 0 then Raise ZeroDivisionError
            else
              let page_number := prompt_count / prompts_per_page + 1 in
              extract_loop prompts_per_page rest
                (user_queries ++ [(message_index, firstn 1000 c, page_number)])
                (message_index + 1) (prompt_count + 1)
          else
            extract_loop prompts_per_page rest user_queries
              (message_index + 1) prompt_count
      | _ =>
          extract_loop prompts_per_page rest user_queries
            (message_index + 1) prompt_count
      end
  end.

Definition extract_user_queries (session_data : SessionData)
    (prompts_per_page : Z) : outcome (list UserQuery) :=
  extract_loop prompts_per_page (get_loglines session_data) [] 0 0.

(** The default [prompts_per_page=5]. *)
Definition default_prompts_per_page : Z := 5.

(** *** The wording of the specification, for comparison *)

(** "content is a plain string with non-whitespace content" *)
Definition eligible (logline : Logline) : bool :=
  match content logline with
  | Some (JStr c) => existsb (fun ch => negb (isspace ch)) c
  | _ => false
  end.

Definition logline_text (logline : Logline) : pystr :=
  match content logline with
  | Some (JStr c) => c
  | _ => []
  end.

(** The loglines with their position in the full sequence, from [start]. *)
Fixpoint enumerate_from {A} (start : Z) (l : list A) : list (Z * A) :=
  match l with
  | [] => []
  | x :: rest => (start, x) :: enumerate_from (start + 1) rest
  end.

(** The eligible loglines, each with its position in the full sequence. *)
Definition eligible_messages (lines : list Logline) : list (Z * Logline) :=
  filter (fun p => eligible (snd p)) (enumerate_from 0 lines).

(** The tuple of the [k]-th eligible message: its position in the full
    sequence, the text cut at 1000 characters, and the page
    (index-among-eligible / page size) + 1. *)
Definition spec_tuple (prompts_per_page : Z) (kp : Z * (Z * Logline))
  : UserQuery :=
  let '(k, (position, logline)) := kp in
  (position, firstn 1000 (logline_text logline), k / prompts_per_page + 1).

(** One tuple per eligible message, in order. *)
Definition spec_user_queries (prompts_per_page : Z) (lines : list Logline)
  : list UserQuery :=
  map (spec_tuple prompts_per_page)
      (enumerate_from 0 (eligible_messages lines)).

(** The count of eligible messages, which the specification's wording of
    [needs_update] compares with the stored count. *)
Definition eligible_count (session_data : SessionData) : Z :=
  Z.of_nat (length (filter eligible (get_loglines session_data))).

(* ================================================================= *)
(** ** The database session *)

Record Tables := {
  conversations : list Conversation;
  conversation_embeddings : list ConversationEmbedding;
  message_embeddings : list MessageEmbedding
}.

(** A SQLAlchemy [Session] bound to an engine.
    - [engine_accepts] is the engine's verdict on the rows a flush sends
      (keys, foreign keys, column sizes): a rejected flush raises;
    - [committed] is what other connections see;
    - [txn] is the open transaction as this session sees it: [committed]
      with the deletes, inserts and attribute updates made since;
    - [inactive] holds after a failed flush, until [rollback];
    - the three sequences feed the autoincrement keys and are not
      transactional. *)
Record DbSession := {
  engine_accepts : Tables -> bool;
  committed : Tables;
  txn : Tables;
  inactive : bool;
  next_conversation_id : Z;
  next_ce_id : Z;
  next_me_id : Z
}.

Definition with_txn (db : DbSession) (t : Tables) : DbSession :=
  {| engine_accepts := engine_accepts db; committed := committed db;
     txn := t; inactive := inactive db;
     next_conversation_id := next_conversation_id db;
     next_ce_id := next_ce_id db; next_me_id := next_me_id db |}.

Definition deactivate (db : DbSession) : DbSession :=
  {| engine_accepts := engine_accepts db; committed := committed db;
     txn := txn db; inactive := true;
     next_conversation_id := next_conversation_id db;
     next_ce_id := next_ce_id db; next_me_id := next_me_id db |}.

(** Code that works on the session and may raise: the session keeps the
    changes made before the exception. *)
Definition M (A : Type) : Type := DbSession -> DbSession * outcome A.

Definition ret {A} (a : A) : M A := fun db => (db, Ok a).

Definition bind {A B} (c : M A) (k : A -> M B) : M B :=
  fun db =>
    match c db with
    | (db', Ok a) => k a db'
    | (db', Raise e) => (db', Raise e)
    end.

(** A call that does not touch the session. *)
Definition lift {A} (o : outcome A) : M A := fun db => (db, o).

(** [try: body  except Exception as e: handler] *)
Definition try_except {A} (body : M A) (handler : exn -> M A) : M A :=
  fun db =>
    match body db with
    | (db', Ok a) => (db', Ok a)
    | (db', Raise e) => handler e db'
    end.

Notation "x <- c ;; k" := (bind c (fun x => k))
  (at level 61, c at next level, right associativity).
Notation "c ;;; k" := (bind c (fun _ => k))
  (at level 61, right associativity).

(** [db_session.query(Conversation).filter_by(session_id=...).first()] *)
Definition query_conversation (sid : string) : M (option Conversation) :=
  fun db =>
    if inactive db then (db, Raise PendingRollbackError)
    else (db, Ok (find (fun c => String.eqb (session_id c) sid)
                       (conversations (txn db)))).

(** The four attribute assignments on the row [existing]. *)
Definition update_conversation (id : Z) (now count : Z) (path : string)
    (preview : option pystr) : M unit :=
  fun db =>
    let t := txn db in
    let rows :=
      map (fun c =>
             if conv_id c =? id then
               {| conv_id := conv_id c; session_id := session_id c;
                  source := source c; last_updated := now;
                  message_count := count; html_path := path;
                  first_message := preview |}
             else c)
          (conversations t) in
    (with_txn db {| conversations := rows;
                    conversation_embeddings := conversation_embeddings t;
                    message_embeddings := message_embeddings t |}, Ok tt).

(** [db_session.add(conversation); db_session.flush()], giving the new id. *)
Definition add_flush_conversation (sid src : string) (now count : Z)
    (path : string) (preview : option pystr) : M Z :=
  fun db =>
    if inactive db then (db, Raise PendingRollbackError)
    else
      let id := next_conversation_id db in
      let t := txn db in
      let row := {| conv_id := id; session_id := sid; source := src;
                    last_updated := now; message_count := count;
                    html_path := path; first_message := preview |} in
      let t' := {| conversations := conversations t ++ [row];
                   conversation_embeddings := conversation_embeddings t;
                   message_embeddings := message_embeddings t |} in
      let db' := {| engine_accepts := engine_accepts db;
                    committed := committed db; txn := t';
                    inactive := false;
                    next_conversation_id := id + 1;
                    next_ce_id := next_ce_id db;
                    next_me_id := next_me_id db |} in
      if engine_accepts db t' then (db', Ok id)
      else (deactivate db', Raise IntegrityError).

(** [query(ConversationEmbedding).filter_by(conversation_id=...).delete()] *)
Definition delete_conversation_embeddings (cid : Z) : M unit :=
  fun db =>
    if inactive db then (db, Raise PendingRollbackError)
    else
      let t := txn db in
      (with_txn db
         {| conversations := conversations t;
            conversation_embeddings :=
              filter (fun e => negb (ce_conversation_id e =? cid))
                     (conversation_embeddings t);
            message_embeddings := message_embeddings t |}, Ok tt).

(** [query(MessageEmbedding).filter_by(conversation_id=...).delete()] *)
Definition delete_message_embeddings (cid : Z) : M unit :=
  fun db =>
    if inactive db then (db, Raise PendingRollbackError)
    else
      let t := txn db in
      (with_txn db
         {| conversations := conversations t;
            conversation_embeddings := conversation_embeddings t;
            message_embeddings :=
              filter (fun e => negb (me_conversation_id e =? cid))
                     (message_embeddings t) |}, Ok tt).

(** [db_session.add(ConversationEmbedding(...))] *)
Definition add_conversation_embedding (cid : Z) (text : pystr)
    (embedding : vector) : M unit :=
  fun db =>
    let t := txn db in
    let row := {| ce_id := next_ce_id db; ce_conversation_id := cid;
                  summary_text := text; ce_embedding := embedding |} in
    ({| engine_accepts := engine_accepts db; committed := committed db;
        txn := {| conversations := conversations t;
                  conversation_embeddings :=
                    conversation_embeddings t ++ [row];
                  message_embeddings := message_embeddings t |};
        inactive := inactive db;
        next_conversation_id := next_conversation_id db;
        next_ce_id := next_ce_id db + 1;
        next_me_id := next_me_id db |}, Ok tt).

(** [db_session.add(MessageEmbedding(...))] *)
Definition add_message_embedding (cid msg_idx : Z) (text : pystr)
    (embedding : vector) (page_num : Z) : M unit :=
  fun db =>
    let t := txn db in
    let row := {| me_id := next_me_id db; me_conversation_id := cid;
                  me_message_index := msg_idx; message_text := text;
                  me_embedding := embedding; me_page_number := page_num |} in
    ({| engine_accepts := engine_accepts db; committed := committed db;
        txn := {| conversations := conversations t;
                  conversation_embeddings := conversation_embeddings t;
                  message_embeddings := message_embeddings t ++ [row] |};
        inactive := inactive db;
        next_conversation_id := next_conversation_id db;
        next_ce_id := next_ce_id db;
        next_me_id := next_me_id db + 1 |}, Ok tt).

(** [db_session.commit()]: flush, then make the transaction visible. *)
Definition commit : M unit :=
  fun db =>
    if inactive db then (db, Raise PendingRollbackError)
    else if engine_accepts db (txn db) then
      ({| engine_accepts := engine_accepts db; committed := txn db;
          txn := txn db; inactive := false;
          next_conversation_id := next_conversation_id db;
          next_ce_id := next_ce_id db; next_me_id := next_me_id db |}, Ok tt)
    else (deactivate db, Raise IntegrityError).

(** [db_session.rollback()] *)
Definition rollback_session (db : DbSession) : DbSession :=
  {| engine_accepts := engine_accepts db; committed := committed db;
     txn := committed db; inactive := false;
     next_conversation_id := next_conversation_id db;
     next_ce_id := next_ce_id db; next_me_id := next_me_id db |}.

Definition rollback : M unit := fun db => (rollback_session db, Ok tt).

(* ================================================================= *)
(** ** embeddings.py *)

(** The encoder behind [get_embedding_service]; the sentence-transformers
    model is outside the repository, so both calls are taken as given. *)
Record EmbeddingService := {
  encode_single : pystr -> outcome vector;
  encode_batch : list pystr -> outcome (list vector)
}.

(* ================================================================= *)
(** ** sync.py: store_embeddings *)

(** [for (msg_idx, msg_text, page_num), embedding in zip(...)] *)
Fixpoint add_message_embeddings (cid : Z)
    (pairs : list (UserQuery * vector)) : M unit :=
  match pairs with
  | [] => ret tt
  | ((msg_idx, msg_text, page_num), embedding) :: rest =>
      add_message_embedding cid msg_idx (firstn 500 msg_text)
                            embedding page_num ;;;
      add_message_embeddings cid rest
  end.

Definition store_embeddings (embedding_service : EmbeddingService)
    (conversation_id : Z) (summary : pystr)
    (user_queries : list UserQuery) : M unit :=
  delete_conversation_embeddings conversation_id ;;;
  delete_message_embeddings conversation_id ;;;
  (if str_truthy summary then
     summary_embedding <- lift (encode_single embedding_service summary) ;;
     add_conversation_embedding conversation_id (firstn 500 summary)
                                summary_embedding
   else ret tt) ;;;
  (match user_queries with
   | [] => ret tt
   | _ :: _ =>
       let messages := map (fun q : UserQuery => snd (fst q)) user_queries in
       embeddings <- lift (encode_batch embedding_service messages) ;;
       add_message_embeddings conversation_id
                              (combine user_queries embeddings)
   end) ;;;
  commit.

(* ================================================================= *)
(** ** sync.py: the two sync loops *)

(** One entry of the list [fetch_sessions] returns: a dict of which only
    ["session_id"] is read. *)
Record SessionInfo := { info_session_id : option string }.

(** The collaborators imported from the package and the standard library.
    Each is a function of its arguments; [utcnow] is the clock reading taken
    while the session with the given id is processed. *)
Record Env := {
  expanduser : string -> string;
  find_local_sessions : string -> Z -> outcome (list (string * option pystr));
  parse_session_file : string -> outcome SessionData;
  path_stem : string -> string;
  path_join : string -> string -> string;
  makedirs : string -> outcome unit;
  generate_html : string -> string -> option string -> outcome unit;
  resolve_credentials :
    option string -> option string -> outcome (string * string);
  fetch_sessions : string -> string -> outcome (list SessionInfo);
  fetch_session : string -> string -> string -> outcome SessionData;
  generate_html_from_session_data :
    SessionData -> string -> option string -> outcome unit;
  utcnow : string -> Z
}.

(** [first_message or ""] *)
Definition or_empty (preview : option pystr) : pystr :=
  match preview with
  | Some s => if str_truthy s then s else []
  | None => []
  end.

(** [summary[:200] if summary else None] *)
Definition local_first_message (summary : option pystr) : option pystr :=
  match summary with
  | Some s => if str_truthy s then Some (firstn 200 s) else None
  | None => None
  end.

(** The [for line in session_data["loglines"]] search with its [break]. *)
Fixpoint first_string_content (lines : list Logline) : option pystr :=
  match lines with
  | [] => None
  | line :: rest =>
      match content line with
      | Some (JStr c) =>
          if str_truthy c then Some (firstn 200 c)
          else first_string_content rest
      | _ => first_string_content rest
      end
  end.

Definition web_first_message (session_data : SessionData) : option pystr :=
  match loglines session_data with
  | Some lines =>
      match lines with
      | [] => None
      | _ :: _ => first_string_content lines
      end
  | None => None
  end.

(** "Update or create database record", up to the id. *)
Definition upsert_conversation (existing : option Conversation)
    (sid src : string) (now count : Z) (output_dir : string)
    (preview : option pystr) : M Z :=
  match existing with
  | Some row =>
      update_conversation (conv_id row) now count output_dir preview ;;;
      ret (conv_id row)
  | None => add_flush_conversation sid src now count output_dir preview
  end.

(** What the first half of the loop body hands to the second. *)
Record Prepared := {
  prep_conversation_id : Z;
  prep_first_message : option pystr;
  prep_session_data : SessionData
}.

(** sync_local_sessions, lines 160-204: from the parse to the commit of the
    Conversation row. [None] is the [continue] of an up-to-date session. *)
Definition local_prepare (env : Env) (storage_path : string)
    (github_repo : option string) (item : string * option pystr)
  : M (option Prepared) :=
  let '(session_path, summary) := item in
  session_data <- lift (parse_session_file env session_path) ;;
  let sid := path_stem env session_path in
  existing <- query_conversation sid ;;
  if negb (needs_update existing session_data) then ret None
  else
    let output_dir := path_join env storage_path sid in
    lift (makedirs env output_dir) ;;;
    lift (generate_html env session_path output_dir github_repo) ;;;
    let count := Z.of_nat (length (get_loglines session_data)) in
    let preview := local_first_message summary in
    conversation_id <-
      upsert_conversation existing sid "local" (utcnow env sid) count
                          output_dir preview ;;
    commit ;;;
    ret (Some {| prep_conversation_id := conversation_id;
                 prep_first_message := preview;
                 prep_session_data := session_data |}).

(** Lines 206-216 (and 322-332): the inner [try] around the embeddings. *)
Definition embed_step (embedding_service : EmbeddingService)
    (p : Prepared) : M unit :=
  try_except
    (user_queries <-
       lift (extract_user_queries (prep_session_data p)
                                  default_prompts_per_page) ;;
     store_embeddings embedding_service (prep_conversation_id p)
                      (or_empty (prep_first_message p)) user_queries)
    (fun _ => ret tt).

(** The body of the outer [try]; the result is the new [updated_count]. *)
Definition local_body (env : Env) (embedding_service : EmbeddingService)
    (storage_path : string) (github_repo : option string)
    (updated_count : Z) (item : string * option pystr) : M Z :=
  prepared <- local_prepare env storage_path github_repo item ;;
  match prepared with
  | None => ret updated_count
  | Some p =>
      embed_step embedding_service p ;;;
      ret (updated_count + 1)
  end.

(** One turn of the [for] loop: the outer [try] with its handler. *)
Definition local_iteration (env : Env) (embedding_service : EmbeddingService)
    (storage_path : string) (github_repo : option string)
    (updated_count : Z) (item : string * option pystr) : M Z :=
  try_except
    (local_body env embedding_service storage_path github_repo
                updated_count item)
    (fun _ => rollback ;;; ret updated_count).

(** A [for] loop that carries [updated_count]. *)
Fixpoint for_each {A} (step : Z -> A -> M Z) (items : list A)
    (updated_count : Z) : M Z :=
  match items with
  | [] => ret updated_count
  | item :: rest =>
      updated_count' <- step updated_count item ;;
      for_each step rest updated_count'
  end.

Definition sync_local_sessions (env : Env)
    (embedding_service : EmbeddingService) (storage_path : string)
    (claude_projects_dir : option string) (limit : Z)
    (github_repo : option string) : M Z :=
  let dir :=
    match claude_projects_dir with
    | None => expanduser env "~/.claude/projects"
    | Some d => d
    end in
  match find_local_sessions env dir limit with
  | Raise _ => ret 0
  | Ok sessions =>
      for_each (local_iteration env embedding_service storage_path
                                github_repo) sessions 0
  end.

(** sync_web_sessions, lines 272-320. *)
Definition web_prepare (env : Env) (storage_path : string)
    (github_repo : option string) (token org_uuid sid : string)
  : M (option Prepared) :=
  session_data <- lift (fetch_session env token org_uuid sid) ;;
  existing <- query_conversation sid ;;
  if negb (needs_update existing session_data) then ret None
  else
    let output_dir := path_join env storage_path sid in
    lift (makedirs env output_dir) ;;;
    lift (generate_html_from_session_data env session_data output_dir
                                          github_repo) ;;;
    let count := Z.of_nat (length (get_loglines session_data)) in
    let preview := web_first_message session_data in
    conversation_id <-
      upsert_conversation existing sid "web" (utcnow env sid) count
                          output_dir preview ;;
    commit ;;;
    ret (Some {| prep_conversation_id := conversation_id;
                 prep_first_message := preview;
                 prep_session_data := session_data |}).

Definition web_body (env : Env) (embedding_service : EmbeddingService)
    (storage_path : string) (github_repo : option string)
    (token org_uuid : string) (updated_count : Z) (sid : string) : M Z :=
  prepared <- web_prepare env storage_path github_repo token org_uuid sid ;;
  match prepared with
  | None => ret updated_count
  | Some p =>
      embed_step embedding_service p ;;;
      ret (updated_count + 1)
  end.

Definition web_iteration (env : Env) (embedding_service : EmbeddingService)
    (storage_path : string) (github_repo : option string)
    (token org_uuid : string) (updated_count : Z)
    (session_info : SessionInfo) : M Z :=
  match info_session_id session_info with
  | None => ret updated_count
  | Some EmptyString => ret updated_count
  | Some sid =>
      try_except
        (web_body env embedding_service storage_path github_repo
                  token org_uuid updated_count sid)
        (fun _ => rollback ;;; ret updated_count)
  end.

Definition sync_web_sessions (env : Env)
    (embedding_service : EmbeddingService) (storage_path : string)
    (token org_uuid : option string) (limit : Z)
    (github_repo : option string) : M Z :=
  match resolve_credentials env token org_uuid with
  | Raise _ => ret 0
  | Ok (token', org_uuid') =>
      match fetch_sessions env token' org_uuid' with
      | Raise _ => ret 0
      | Ok sessions =>
          for_each (web_iteration env embedding_service storage_path
                                  github_repo token' org_uuid')
                   (slice_to limit sessions) 0
      end
  end.

(** The statistics [sync_all] returns. *)
Record SyncStats := {
  local_updated : Z;
  web_updated : Z;
  total_updated : Z
}.

Definition sync_all (env : Env) (embedding_service : EmbeddingService)
    (storage_path : string) (token org_uuid github_repo : option string)
  : M SyncStats :=
  local_count <-
    sync_local_sessions env embedding_service storage_path None 100
                        github_repo ;;
  web_count <-
    sync_web_sessions env embedding_service storage_path token org_uuid 100
                      github_repo ;;
  ret {| local_updated := local_count; web_updated := web_count;
         total_updated := local_count + web_count |}.

(* ================================================================= *)
(** ** search.py *)

Open Scope R_scope.

Fixpoint dot (a b : vector) : R :=
  match a, b with
  | x :: a', y :: b' => x * y + dot a' b'
  | _, _ => 0
  end.

(** A double precision number of the engine and of Python: a number, here a
    real, or NaN. *)
Inductive pyfloat : Type :=
| Number (x : R)
| NaN.

(** Modelled from the spec: the distance operator [<=>] of the storage
    extension, which is not part of the repository. The specification calls
    it cosine distance: one minus the cosine of the angle between the two
    vectors. The cosine is the dot product over the root of the product of
    the squared norms; with a zero vector that is zero over zero, which is
    NaN. *)
Definition cosine_distance (a b : vector) : pyfloat :=
  if Req_dec_T (dot a a * dot b b) 0 then NaN
  else Number (1 - dot a b / sqrt (dot a a * dot b b)).

(** [1 - d] on doubles. *)
Definition one_minus (d : pyfloat) : pyfloat :=
  match d with
  | Number x => Number (1 - x)
  | NaN => NaN
  end.

Close Scope R_scope.

Definition Rleb (x y : R) : bool := if Rle_dec x y then true else false.

(** [ORDER BY] on a double: NaN sorts after every number and with NaN. *)
Definition sql_leb (x y : pyfloat) : bool :=
  match x, y with
  | _, NaN => true
  | NaN, Number _ => false
  | Number a, Number b => Rleb a b
  end.

(** Python's [x <= y] on floats: false as soon as one side is NaN. *)
Definition float_leb (x y : pyfloat) : bool :=
  match x, y with
  | Number a, Number b => Rleb a b
  | _, _ => false
  end.

Definition float_le (x y : pyfloat) : Prop :=
  match x, y with
  | Number a, Number b => (a <= b)%R
  | _, _ => False
  end.

(** A stable sort: [before x y] says that [x] may stand in front of [y];
    an element goes in front of the first one it may stand in front of, so
    equal elements keep their order. *)
Fixpoint insert_by {A} (before : A -> A -> bool) (x : A) (l : list A)
  : list A :=
  match l with
  | [] => [x]
  | y :: rest =>
      if before x y then x :: y :: rest
      else y :: insert_by before x rest
  end.

Fixpoint sort_by {A} (before : A -> A -> bool) (l : list A) : list A :=
  match l with
  | [] => []
  | x :: rest => insert_by before x (sort_by before rest)
  end.

(** A row of either SELECT, columns 0 to 8. *)
Record Row := {
  row_conversation_id : Z;
  row_text : pystr;
  row_session_id : string;
  row_source : string;
  row_first_message : option pystr;
  row_similarity : pyfloat;
  row_match_type : string;
  row_page_number : option Z;
  row_message_index : option Z
}.

(** [FROM conversation_embeddings ce JOIN conversations c
     ON ce.conversation_id = c.id] *)
Definition join_conversation_embeddings (t : Tables)
  : list (ConversationEmbedding * Conversation) :=
  flat_map (fun ce =>
              map (fun c => (ce, c))
                  (filter (fun c => ce_conversation_id ce =? conv_id c)
                          (conversations t)))
           (conversation_embeddings t).

Definition join_message_embeddings (t : Tables)
  : list (MessageEmbedding * Conversation) :=
  flat_map (fun me =>
              map (fun c => (me, c))
                  (filter (fun c => me_conversation_id me =? conv_id c)
                          (conversations t)))
           (message_embeddings t).

Definition conv_row (q : vector) (p : ConversationEmbedding * Conversation)
  : Row :=
  let (ce, c) := p in
  {| row_conversation_id := ce_conversation_id ce;
     row_text := summary_text ce;
     row_session_id := session_id c;
     row_source := source c;
     row_first_message := first_message c;
     row_similarity := one_minus (cosine_distance (ce_embedding ce) q);
     row_match_type := "summary";
     row_page_number := None;
     row_message_index := None |}.

Definition msg_row (q : vector) (p : MessageEmbedding * Conversation)
  : Row :=
  let (me, c) := p in
  {| row_conversation_id := me_conversation_id me;
     row_text := message_text me;
     row_session_id := session_id c;
     row_source := source c;
     row_first_message := first_message c;
     row_similarity := one_minus (cosine_distance (me_embedding me) q);
     row_match_type := "message";
     row_page_number := Some (me_page_number me);
     row_message_index := Some (me_message_index me) |}.

(** [ORDER BY ce.embedding <=> :embedding LIMIT :limit] on the joined rows;
    rows at the same distance come in storage order. *)
Definition conv_rows (t : Tables) (q : vector) (limit : Z) : list Row :=
  map (conv_row q)
      (firstn (Z.to_nat limit)
         (sort_by (fun a b =>
                     sql_leb (cosine_distance (ce_embedding (fst a)) q)
                             (cosine_distance (ce_embedding (fst b)) q))
                  (join_conversation_embeddings t))).

Definition msg_rows (t : Tables) (q : vector) (limit : Z) : list Row :=
  map (msg_row q)
      (firstn (Z.to_nat limit)
         (sort_by (fun a b =>
                     sql_leb (cosine_distance (me_embedding (fst a)) q)
                             (cosine_distance (me_embedding (fst b)) q))
                  (join_message_embeddings t))).

(** The operator [<=>] is refused between vectors of different dimensions. *)
Definition same_dimension (a b : vector) : bool :=
  Nat.eqb (length a) (length b).

(** The two statements. The distance is taken on every joined row, unless
    the limit is zero, when no row is read at all. *)
Definition conv_query (t : Tables) (q : vector) (limit : Z)
  : outcome (list Row) :=
  if (0 <? limit)
     && negb (forallb (fun p => same_dimension (ce_embedding (fst p)) q)
                      (join_conversation_embeddings t))
  then Raise DataError
  else Ok (conv_rows t q limit).

Definition msg_query (t : Tables) (q : vector) (limit : Z)
  : outcome (list Row) :=
  if (0 <? limit)
     && negb (forallb (fun p => same_dimension (me_embedding (fst p)) q)
                      (join_message_embeddings t))
  then Raise DataError
  else Ok (msg_rows t q limit).

(** What [db_session.execute] works on. A [text()] statement goes to the
    database as it is, without a flush before it: it reads the rows the
    database transaction of the session holds, not what was only added to
    the session since the last flush.
    - [session] is the Session object;
    - [database] are the rows of its database transaction;
    - [aborted] holds once the engine has refused a statement: it then
      refuses every further one, until [rollback]. *)
Record Connection := {
  session : DbSession;
  database : Tables;
  aborted : bool
}.

(** A session with nothing left to flush, as [get_session], [commit] and
    [rollback] leave it: the database transaction holds what the session
    sees. *)
Definition connection (db : DbSession) : Connection :=
  {| session := db; database := txn db; aborted := false |}.

Definition abort (c : Connection) : Connection :=
  {| session := session c; database := database c; aborted := true |}.

(** [db_session.rollback()] *)
Definition rollback_connection (c : Connection) : Connection :=
  connection (rollback_session (session c)).

(** The text ["[" + ",".join(map(str, query_embedding)) + "]"] is a vector
    for the extension when it has between 1 and 16000 entries. Without an
    entry it is no vector; with more it exceeds a limit of the extension. *)
Definition valid_literal (q : vector) : bool :=
  (1 <=? Z.of_nat (length q)) && (Z.of_nat (length q) <=? 16000).

Definition literal_error (q : vector) : exn :=
  if Nat.eqb (length q) 0 then DataError else OperationalError.

(** [db_session.execute(query, {...}).fetchall()]. The engine refuses a
    text that is no vector, a LIMIT that is negative or does not fit a
    64-bit integer, and whatever the statement itself refuses. *)
Definition execute (select : Tables -> vector -> Z -> outcome (list Row))
    (q : vector) (limit : Z)
  : Connection -> Connection * outcome (list Row) :=
  fun c =>
    if inactive (session c) then (c, Raise PendingRollbackError)
    else if aborted c then (c, Raise InternalError)
    else if negb (valid_literal q) then (abort c, Raise (literal_error q))
    else if (limit <? 0) || (2 ^ 63 <=? limit)
    then (abort c, Raise DataError)
    else match select (database c) q limit with
         | Ok rows => (c, Ok rows)
         | Raise e => (abort c, Raise e)
         end.

(** [str(n)] for an integer. *)
Definition str_of_int (z : Z) : string :=
  ((if (z <? 0)%Z then "-" else "")
   ++ NilZero.string_of_uint (N.to_uint (Z.abs_N z)))%string.

(** [f"{n:03d}"]: zero padding to width three, after the sign. *)
Definition format_03d (z : Z) : string :=
  let digits := NilZero.string_of_uint (N.to_uint (Z.abs_N z)) in
  let sign : string := if z <? 0 then "-"%string else ""%string in
  let width := (String.length sign + String.length digits)%nat in
  (sign ++ string_of_list_ascii (repeat "0"%char (3 - width)) ++ digits)%string.

(** One entry of the returned list. *)
Record SearchResult := {
  conversation_id : Z;
  text : pystr;
  res_session_id : string;
  res_source : string;
  res_first_message : option pystr;
  similarity : pyfloat;
  match_type : string;
  page_number : option Z;
  message_index : option Z;
  url : string
}.

Definition conv_result (row : Row) : SearchResult :=
  {| conversation_id := row_conversation_id row;
     text := row_text row;
     res_session_id := row_session_id row;
     res_source := row_source row;
     res_first_message := row_first_message row;
     similarity := row_similarity row;
     match_type := row_match_type row;
     page_number := row_page_number row;
     message_index := row_message_index row;
     url := ("/transcript/" ++ row_session_id row)%string |}.

(** The page number decides the link: [if row[7]] is false for a null and
    for zero. *)
Definition msg_url (row : Row) : string :=
  match row_page_number row, row_message_index row with
  | Some p, Some i =>
      if p =? 0 then ("/transcript/" ++ row_session_id row)%string
      else ("/transcript/" ++ row_session_id row ++ "/page-"
            ++ format_03d p ++ ".html#msg-" ++ str_of_int i)%string
  | _, _ => ("/transcript/" ++ row_session_id row)%string
  end.

Definition msg_result (row : Row) : SearchResult :=
  {| conversation_id := row_conversation_id row;
     text := row_text row;
     res_session_id := row_session_id row;
     res_source := row_source row;
     res_first_message := row_first_message row;
     similarity := row_similarity row;
     match_type := row_match_type row;
     page_number := row_page_number row;
     message_index := row_message_index row;
     url := msg_url row |}.

(** The stable sort by non-increasing similarity. *)
Definition sort_by_similarity (results : list SearchResult)
  : list SearchResult :=
  sort_by (fun a b => float_leb (similarity b) (similarity a)) results.

(** [results.sort(key=lambda x: x["similarity"], reverse=True)]. The sort of
    the interpreter is stable and compares the keys with [<]. When every key
    is a number the outcome is the stable sort by non-increasing key. With a
    NaN among the keys the comparisons contradict each other and the outcome
    depends on the sorting algorithm of the interpreter; the list still
    holds the same entries. *)
Definition python_sort (list_sort : list SearchResult -> list SearchResult)
  : Prop :=
  (forall results, Permutation (list_sort results) results)
  /\ (forall results,
        Forall (fun r => similarity r <> NaN) results ->
        list_sort results = sort_by_similarity results).

Definition search_transcripts
    (list_sort : list SearchResult -> list SearchResult)
    (embedding_service : EmbeddingService) (query : pystr) (limit : Z)
  : Connection -> Connection * outcome (list SearchResult) :=
  fun c =>
    match encode_single embedding_service query with
    | Raise e => (c, Raise e)
    | Ok query_embedding =>
        match execute conv_query query_embedding limit c with
        | (c1, Raise e) => (c1, Raise e)
        | (c1, Ok conv_results) =>
            match execute msg_query query_embedding limit c1 with
            | (c2, Raise e) => (c2, Raise e)
            | (c2, Ok msg_results) =>
                let results :=
                  map conv_result conv_results
                  ++ map msg_result msg_results in
                (c2, Ok (slice_to limit (list_sort results)))
            end
        end
    end.

(* ================================================================= *)
(** ** Notions used in the statements *)

(** The embedding rows of one conversation. *)
Definition summary_rows (t : Tables) (cid : Z) : list ConversationEmbedding :=
  filter (fun e => ce_conversation_id e =? cid) (conversation_embeddings t).

Definition message_rows (t : Tables) (cid : Z) : list MessageEmbedding :=
  filter (fun e => me_conversation_id e =? cid) (message_embeddings t).

(** What is stored for a conversation, without keys and vectors. *)
Definition stored_summaries (t : Tables) (cid : Z) : list pystr :=
  map summary_text (summary_rows t cid).

Definition stored_messages (t : Tables) (cid : Z) : list UserQuery :=
  map (fun e => (me_message_index e, message_text e, me_page_number e))
      (message_rows t cid).

(** The rows of the other conversations. *)
Definition other_summary_rows (t : Tables) (cid : Z)
  : list ConversationEmbedding :=
  filter (fun e => negb (ce_conversation_id e =? cid))
         (conversation_embeddings t).

Definition other_message_rows (t : Tables) (cid : Z)
  : list MessageEmbedding :=
  filter (fun e => negb (me_conversation_id e =? cid))
         (message_embeddings t).

(** A tuple as it is stored: the text cut at 500 characters. *)
Definition stored_tuple (q : UserQuery) : UserQuery :=
  let '(msg_idx, msg_text, page_num) := q in
  (msg_idx, firstn 500 msg_text, page_num).

(** The message rows a run of [add_message_embeddings] appends. *)
Fixpoint new_message_rows (cid next_id : Z)
    (pairs : list (UserQuery * vector)) : list MessageEmbedding :=
  match pairs with
  | [] => []
  | ((msg_idx, msg_text, page_num), embedding) :: rest =>
      {| me_id := next_id; me_conversation_id := cid;
         me_message_index := msg_idx; message_text := firstn 500 msg_text;
         me_embedding := embedding; me_page_number := page_num |}
      :: new_message_rows cid (next_id + 1) rest
  end.

(** The tables after the rows of conversation [cid] have been replaced. *)
Definition replaced_tables (t : Tables) (cid : Z)
    (ce_new : list ConversationEmbedding) (me_new : list MessageEmbedding)
  : Tables :=
  {| conversations := conversations t;
     conversation_embeddings := other_summary_rows t cid ++ ce_new;
     message_embeddings := other_message_rows t cid ++ me_new |}.

(** The summary row [store_embeddings] adds, if any. *)
Definition new_summary_rows (cid next_id : Z) (summary : pystr)
    (embedding : vector) : list ConversationEmbedding :=
  if str_truthy summary then
    [{| ce_id := next_id; ce_conversation_id := cid;
        summary_text := firstn 500 summary; ce_embedding := embedding |}]
  else [].

(** The encoder answers a batch with one vector per text. *)
Definition batch_aligned (embedding_service : EmbeddingService)
    (user_queries : list UserQuery) : Prop :=
  forall embeddings,
    encode_batch embedding_service
                 (map (fun q : UserQuery => snd (fst q)) user_queries)
    = Ok embeddings ->
    length embeddings = length user_queries.

(** A triple for code on the session: from a session satisfying [P], a
    normal end with value [a] satisfies [Q a], an exception leaves [E]. *)
Definition hoare {A} (P : DbSession -> Prop) (c : M A)
    (Q : A -> DbSession -> Prop) (E : DbSession -> Prop) : Prop :=
  forall db, P db ->
    match c db with
    | (db', Ok a) => Q a db'
    | (db', Raise _) => E db'
    end.

(** The committed state is [T]. *)
Definition committed_is (T : Tables) (db : DbSession) : Prop :=
  committed db = T.

(** [x] may stand in front of [y]. *)
Definition ordered_by {A} (before : A -> A -> bool) (x y : A) : Prop :=
  before x y = true.

(** [c] keeps [P], whether it ends or raises. *)
Definition preserves {A} (P : DbSession -> Prop) (c : M A) : Prop :=
  hoare P c (fun _ => P) P.

(** The Conversation row with key [cid] is committed with [count]
    messages, and nothing of the session is pending. *)
Definition conversation_committed (cid count : Z) (db : DbSession) : Prop :=
  committed db = txn db
  /\ inactive db = false
  /\ exists row,
       In row (conversations (committed db))
       /\ conv_id row = cid /\ message_count row = count.

(** The row [existing], if any, is in the open transaction. *)
Definition existing_in (existing : option Conversation) (db : DbSession)
  : Prop :=
  match existing with
  | Some row => In row (conversations (txn db))
  | None => True
  end.

(** A logline whose content is a non-empty string. *)
Definition has_text (line : Logline) : bool :=
  match content line with
  | Some (JStr c) => str_truthy c
  | _ => false
  end.

(** What a prepared session hands over has a short preview. *)
Definition short_preview (r : option Prepared) : Prop :=
  match r with
  | Some p => (length (or_empty (prep_first_message p)) <= 200)%nat
  | None => True
  end.

(** Every stored summary has at most 200 characters, in the transaction and
    in the committed state. *)
Definition summaries_short (t : Tables) : Prop :=
  Forall (fun e => (length (summary_text e) <= 200)%nat)
         (conversation_embeddings t).

Definition short_summaries (db : DbSession) : Prop :=
  summaries_short (txn db) /\ summaries_short (committed db).

(** The candidates of both sub-queries, merged, before the sort. *)
Definition merged_candidates (t : Tables) (q : vector) (limit : Z)
  : list SearchResult :=
  map conv_result (conv_rows t q limit)
  ++ map msg_result (msg_rows t q limit).

(** Non-increasing similarity, as Python compares. *)
Definition by_similarity_desc (a b : SearchResult) : Prop :=
  float_le (similarity b) (similarity a).

(** The nullable columns agree with the kind of match. *)
Definition well_tagged (r : SearchResult) : Prop :=
  (match_type r = "message"%string ->
     page_number r <> None /\ message_index r <> None)
  /\ (match_type r = "summary"%string ->
        page_number r = None /\ message_index r = None)
  /\ (match_type r = "message"%string \/ match_type r = "summary"%string).

(* ================================================================= *)
(** ** Sample data *)

Definition text_line (s : string) : Logline :=
  {| content := Some (JStr (py s)) |}.

(** A logline with structured (tool call) content. *)
Definition tool_line : Logline :=
  {| content := Some (JArr [JObj [("type"%string, JStr (py "tool_use"))]]) |}.

Definition sample_conversation (id : Z) (sid : string) (count : Z)
  : Conversation :=
  {| conv_id := id; session_id := sid; source := "local";
     last_updated := 0; message_count := count;
     html_path := "/out"; first_message := None |}.

(** One stored message that is a tool call: nothing eligible in it. *)
Definition tool_only_session : SessionData :=
  {| loglines := Some [tool_line] |}.

Definition mixed_session : SessionData :=
  {| loglines := Some [text_line "fix the parser"; tool_line;
                       text_line "   "; text_line "now deploy"] |}.

(** An engine that accepts every flush. *)
Definition accept_all : Tables -> bool := fun _ => true.

Definition empty_tables : Tables :=
  {| conversations := []; conversation_embeddings := [];
     message_embeddings := [] |}.

(** A session right after [get_session] on tables [t]: nothing pending. *)
Definition open_session (t : Tables) (next : Z) : DbSession :=
  {| engine_accepts := accept_all; committed := t; txn := t;
     inactive := false; next_conversation_id := next;
     next_ce_id := next; next_me_id := next |}.

(** An encoder that always answers, with the same two-dimensional vector. *)
Definition steady_service : EmbeddingService :=
  {| encode_single := fun _ => Ok [1%R; 0%R];
     encode_batch := fun texts => Ok (map (fun _ => [1%R; 0%R]) texts) |}.

(** An encoder whose batch call fails. *)
Definition batch_failing_service : EmbeddingService :=
  {| encode_single := fun _ => Ok [1%R; 0%R];
     encode_batch := fun _ => Raise EncoderError |}.

(** Conversation 1 (session "s1") as an earlier sync left it: one logline,
    its summary and its message embedded. *)
Definition stale_tables : Tables :=
  {| conversations := [sample_conversation 1 "s1" 1];
     conversation_embeddings :=
       [{| ce_id := 1; ce_conversation_id := 1;
           summary_text := py "old summary"; ce_embedding := [1%R; 0%R] |}];
     message_embeddings :=
       [{| me_id := 1; me_conversation_id := 1; me_message_index := 0;
           message_text := py "old question"; me_embedding := [1%R; 0%R];
           me_page_number := 1 |}] |}.

Definition grown_session : SessionData :=
  {| loglines := Some [text_line "old question"; text_line "new question"] |}.

Definition second_session : SessionData :=
  {| loglines := Some [text_line "something else"] |}.

(** Two local session files: "s1", which has grown, and a new "s2".
    [render_fails] names a session whose rendering raises. *)
Definition two_sessions_env (render_fails : string) : Env :=
  {| expanduser := fun p => p;
     find_local_sessions := fun _ _ =>
       Ok [("s1"%string, Some (py "new summary"));
           ("s2"%string, Some (py "second summary"))];
     parse_session_file := fun path =>
       if String.eqb path "s1" then Ok grown_session
       else if String.eqb path "s2" then Ok second_session
       else Raise ParseError;
     path_stem := fun p => p;
     path_join := fun a b => (a ++ "/" ++ b)%string;
     makedirs := fun _ => Ok tt;
     generate_html := fun path _ _ =>
       if String.eqb path render_fails then Raise RenderError else Ok tt;
     resolve_credentials := fun _ _ => Ok ("token"%string, "org"%string);
     fetch_sessions := fun _ _ =>
       Ok [{| info_session_id := Some "s1"%string |};
           {| info_session_id := Some "s2"%string |}];
     fetch_session := fun _ _ sid =>
       if String.eqb sid "s1" then Ok grown_session
       else if String.eqb sid "s2" then Ok second_session
       else Raise FetchError;
     generate_html_from_session_data := fun _ dir _ =>
       if String.eqb dir ("/out/" ++ render_fails) then Raise RenderError
       else Ok tt;
     utcnow := fun _ => 100 |}.

(** An encoder that places every text opposite to the stored vectors. *)
Definition opposite_service : EmbeddingService :=
  {| encode_single := fun _ => Ok [(-1)%R; 0%R];
     encode_batch := fun texts => Ok (map (fun _ => [(-1)%R; 0%R]) texts) |}.

(** Conversation 1 with its summary embedded and no message. *)
Definition summary_only_tables : Tables :=
  {| conversations := [sample_conversation 1 "s1" 1];
     conversation_embeddings :=
       [{| ce_id := 1; ce_conversation_id := 1;
           summary_text := py "old summary"; ce_embedding := [1%R; 0%R] |}];
     message_embeddings := [] |}.

(** The one result of a search on [summary_only_tables] with
    [opposite_service]. *)
Definition opposite_result : SearchResult :=
  {| conversation_id := 1;
     text := py "old summary";
     res_session_id := "s1";
     res_source := "local";
     res_first_message := None;
     similarity := one_minus (cosine_distance [1%R; 0%R] [(-1)%R; 0%R]);
     match_type := "summary";
     page_number := None;
     message_index := None;
     url := "/transcript/s1" |}.

(** Conversation 1 with a summary along the first axis and a message whose
    stored vector is the zero vector. *)
Definition zero_vector_tables : Tables :=
  {| conversations := [sample_conversation 1 "s1" 1];
     conversation_embeddings :=
       [{| ce_id := 1; ce_conversation_id := 1;
           summary_text := py "old summary"; ce_embedding := [1%R; 0%R] |}];
     message_embeddings :=
       [{| me_id := 1; me_conversation_id := 1; me_message_index := 0;
           message_text := py "old question"; me_embedding := [0%R; 0%R];
           me_page_number := 1 |}] |}.

(** The result for the message of [zero_vector_tables], for a query along
    the first axis. *)
Definition zero_vector_result : SearchResult :=
  {| conversation_id := 1;
     text := py "old question";
     res_session_id := "s1";
     res_source := "local";
     res_first_message := None;
     similarity := one_minus (cosine_distance [0%R; 0%R] [1%R; 0%R]);
     match_type := "message";
     page_number := Some 1;
     message_index := Some 0;
     url := "/transcript/s1/page-001.html#msg-0" |}.

(** Conversation 1 with a summary along the first axis and a message along
    the second. *)
Definition two_candidate_tables : Tables :=
  {| conversations := [sample_conversation 1 "s1" 1];
     conversation_embeddings :=
       [{| ce_id := 1; ce_conversation_id := 1;
           summary_text := py "old summary"; ce_embedding := [1%R; 0%R] |}];
     message_embeddings :=
       [{| me_id := 1; me_conversation_id := 1; me_message_index := 0;
           message_text := py "old question"; me_embedding := [0%R; 1%R];
           me_page_number := 1 |}] |}.

(** Its two candidates for a query along the first axis. *)
Definition near_result : SearchResult :=
  {| conversation_id := 1;
     text := py "old summary";
     res_session_id := "s1";
     res_source := "local";
     res_first_message := None;
     similarity := one_minus (cosine_distance [1%R; 0%R] [1%R; 0%R]);
     match_type := "summary";
     page_number := None;
     message_index := None;
     url := "/transcript/s1" |}.

Definition far_result : SearchResult :=
  {| conversation_id := 1;
     text := py "old question";
     res_session_id := "s1";
     res_source := "local";
     res_first_message := None;
     similarity := one_minus (cosine_distance [0%R; 1%R] [1%R; 0%R]);
     match_type := "message";
     page_number := Some 1;
     message_index := Some 0;
     url := "/transcript/s1/page-001.html#msg-0" |}.

(* ================================================================= *)
(** ** embeddings.py: the service object and the global instance *)

(** The sentence-transformers library, which is outside the repository:
    the model type, its constructor [SentenceTransformer(name)], its
    [encode] on one text and on a list of texts, and
    [get_sentence_embedding_dimension]. *)
Record SentenceTransformers := {
  Model : Type;
  SentenceTransformer : string -> outcome Model;
  model_encode_text : Model -> pystr -> outcome vector;
  model_encode_texts : Model -> list pystr -> outcome (list vector);
  get_sentence_embedding_dimension : Model -> Z
}.

Unset Implicit Arguments.

(** An instance of the class [EmbeddingService]: its two attributes. *)
Record ServiceObject (lib : SentenceTransformers) := {
  model_name : string;
  _model : option (Model lib)
}.
Arguments model_name {lib} s.
Arguments _model {lib} s.

(** [EmbeddingService(model_name)] *)
Definition new_service (lib : SentenceTransformers) (name : string)
  : ServiceObject lib :=
  {| model_name := name; _model := None |}.

(** What a method call leaves: the object, the lines printed, the result. *)
Definition called (lib : SentenceTransformers) (A : Type) : Type :=
  ServiceObject lib * list string * outcome A.

(** The property [model]: load on first use, with its message. *)
Definition service_model (lib : SentenceTransformers)
    (self : ServiceObject lib) : called lib (Model lib) :=
  match _model self with
  | Some m => (self, [], Ok m)
  | None =>
      let line := ("Loading embedding model: " ++ model_name self)%string in
      match SentenceTransformer lib (model_name self) with
      | Ok m =>
          ({| model_name := model_name self; _model := Some m |},
           [line], Ok m)
      | Raise e => (self, [line], Raise e)
      end
  end.

(** [encode_single]: [self.encode(text).tolist()] *)
Definition service_encode_single (lib : SentenceTransformers)
    (self : ServiceObject lib) (text : pystr) : called lib vector :=
  match service_model lib self with
  | (self', out, Ok m) => (self', out, model_encode_text lib m text)
  | (self', out, Raise e) => (self', out, Raise e)
  end.

(** [encode_batch]: [[emb.tolist() for emb in self.encode(texts)]] *)
Definition service_encode_batch (lib : SentenceTransformers)
    (self : ServiceObject lib) (texts : list pystr)
  : called lib (list vector) :=
  match service_model lib self with
  | (self', out, Ok m) => (self', out, model_encode_texts lib m texts)
  | (self', out, Raise e) => (self', out, Raise e)
  end.

(** The property [embedding_dim]. *)
Definition service_embedding_dim (lib : SentenceTransformers)
    (self : ServiceObject lib) : called lib Z :=
  match service_model lib self with
  | (self', out, Ok m) =>
      (self', out, Ok (get_sentence_embedding_dimension lib m))
  | (self', out, Raise e) => (self', out, Raise e)
  end.

(** The module: the global [_embedding_service] and what was printed. *)
Record Process (lib : SentenceTransformers) := {
  _embedding_service : option (ServiceObject lib);
  stdout : list string
}.
Arguments _embedding_service {lib} p.
Arguments stdout {lib} p.

(** [get_embedding_service(model_name)]: the instance it returns is the
    global one afterwards. *)
Definition get_embedding_service (lib : SentenceTransformers)
    (p : Process lib) (name : string) : Process lib * ServiceObject lib :=
  match _embedding_service p with
  | Some s =>
      if String.eqb (model_name s) name then (p, s)
      else ({| _embedding_service := Some (new_service lib name);
               stdout := stdout p |}, new_service lib name)
  | None =>
      ({| _embedding_service := Some (new_service lib name);
          stdout := stdout p |}, new_service lib name)
  end.

(** [get_embedding_service(model_name).encode_single(text)], as
    [search_transcripts] and [store_embeddings] use the service: the call
    changes the instance the global holds. *)
Definition encode_single_with (lib : SentenceTransformers)
    (p : Process lib) (name : string) (text : pystr)
  : Process lib * outcome vector :=
  let '(p1, self) := get_embedding_service lib p name in
  let '(self', out, r) := service_encode_single lib self text in
  ({| _embedding_service := Some self'; stdout := stdout p1 ++ out |}, r).

(** [get_embedding_service(model_name).encode_batch(texts)] *)
Definition encode_batch_with (lib : SentenceTransformers)
    (p : Process lib) (name : string) (texts : list pystr)
  : Process lib * outcome (list vector) :=
  let '(p1, self) := get_embedding_service lib p name in
  let '(self', out, r) := service_encode_batch lib self texts in
  ({| _embedding_service := Some self'; stdout := stdout p1 ++ out |}, r).

(** A run of single-text requests, each naming its model. *)
Fixpoint encode_all (lib : SentenceTransformers) (p : Process lib)
    (requests : list (string * pystr))
  : Process lib * list (outcome vector) :=
  match requests with
  | [] => (p, [])
  | (name, text) :: rest =>
      let '(p1, r) := encode_single_with lib p name text in
      let '(p2, rs) := encode_all lib p1 rest in
      (p2, r :: rs)
  end.

(** The model [m] is loaded in the global instance under [name]. *)
Definition loaded (lib : SentenceTransformers) (p : Process lib)
    (name : string) (m : Model lib) : Prop :=
  exists s, _embedding_service p = Some s
            /\ model_name s = name /\ _model s = Some m.

(** A library for the examples: every name gives a model, except "missing",
    whose loading raises; a model answers every text. *)
Definition sample_library : SentenceTransformers :=
  {| Model := string;
     SentenceTransformer := fun name =>
       if String.eqb name "missing" then Raise EncoderError else Ok name;
     model_encode_text := fun _ _ => Ok [1%R; 0%R];
     model_encode_texts := fun _ texts =>
       Ok (map (fun _ => [1%R; 0%R]) texts);
     get_sentence_embedding_dimension := fun _ => 2 |}.

(** The module right after import. *)
Definition fresh_process : Process sample_library :=
  {| _embedding_service := None; stdout := [] |}.

(** The module once "all-MiniLM-L6-v2" has been loaded. *)
Definition warm_process : Process sample_library :=
  {| _embedding_service :=
       Some (Build_ServiceObject sample_library "all-MiniLM-L6-v2"
                                 (Some "all-MiniLM-L6-v2"%string));
     stdout := ["Loading embedding model: all-MiniLM-L6-v2"%string] |}.

Set Implicit Arguments.

(* ================================================================= *)
(** ** alembic/versions/add_vector_embeddings.py *)

(** The migration acts on the schema of the database, not on its rows. A
    schema: the installed extensions, the tables and the indexes.
    [Varchar n] is [sa.String(n)]. *)
Inductive ColumnType : Type :=
| Integer
| Text
| DateTime
| Varchar (length : Z)
| Vector (dim : Z).

Record Column := {
  col_name : string;
  col_type : ColumnType;
  col_autoincrement : bool;
  col_nullable : bool
}.

(** [sa.ForeignKeyConstraint(columns, refcolumns, ondelete=...)]; the
    referred columns "table.column" are kept as the table and its columns. *)
Record ForeignKeyConstraint := {
  fk_columns : list string;
  fk_reftable : string;
  fk_refcolumns : list string;
  fk_ondelete : string
}.

Record Table := {
  tbl_name : string;
  tbl_columns : list Column;
  tbl_foreign_keys : list ForeignKeyConstraint;
  tbl_primary_key : list string
}.

Record Index := {
  ix_name : string;
  ix_table : string;
  ix_columns : list string;
  ix_unique : bool
}.

Record Schema := {
  extensions : list string;
  tables : list Table;
  indexes : list Index
}.

(** What the engine answers to a statement it refuses. *)
Inductive ddl_error : Type :=
| DuplicateObject
| UndefinedObject
| InvalidForeignKey
| DependentObjectsStillExist.

Inductive ddl (A : Type) : Type :=
| Applied (a : A)
| Refused (e : ddl_error).
Arguments Applied {A} a.
Arguments Refused {A} e.

Definition and_then {A B} (r : ddl A) (k : A -> ddl B) : ddl B :=
  match r with
  | Applied a => k a
  | Refused e => Refused e
  end.

Definition has_extension (s : Schema) (name : string) : bool :=
  existsb (String.eqb name) (extensions s).

Definition named (name : string) (t : Table) : bool :=
  String.eqb (tbl_name t) name.

Definition index_named (name : string) (i : Index) : bool :=
  String.eqb (ix_name i) name.

Definition has_table (s : Schema) (name : string) : bool :=
  existsb (named name) (tables s).

Definition has_index (s : Schema) (name : string) : bool :=
  existsb (index_named name) (indexes s).

(** Tables and indexes share one name space. *)
Definition has_relation (s : Schema) (name : string) : bool :=
  has_table s name || has_index s name.

Definition has_column (t : Table) (column : string) : bool :=
  existsb (fun c => String.eqb (col_name c) column) (tbl_columns t).

Definition is_vector (ty : ColumnType) : bool :=
  match ty with
  | Vector _ => true
  | _ => false
  end.

Definition uses_vector (columns : list Column) : bool :=
  existsb (fun c => is_vector (col_type c)) columns.

(** The table is there and has the columns. *)
Definition has_columns (s : Schema) (table : string) (columns : list string)
  : bool :=
  match find (named table) (tables s) with
  | Some t => forallb (has_column t) columns
  | None => false
  end.

Fixpoint same_columns (a b : list string) : bool :=
  match a, b with
  | [], [] => true
  | x :: a', y :: b' => String.eqb x y && same_columns a' b'
  | _, _ => false
  end.

(** The columns are the primary key of the table. A foreign key has to
    refer to columns that are unique; here, as in the migration, to the
    primary key. *)
Definition is_key (s : Schema) (table : string) (columns : list string)
  : bool :=
  match find (named table) (tables s) with
  | Some t => same_columns (tbl_primary_key t) columns
  | None => false
  end.

Definition references_exist (s : Schema)
    (foreign_keys : list ForeignKeyConstraint) : bool :=
  forallb (fun fk => has_columns s (fk_reftable fk) (fk_refcolumns fk))
          foreign_keys.

Definition references_keys (s : Schema)
    (foreign_keys : list ForeignKeyConstraint) : bool :=
  forallb (fun fk => is_key s (fk_reftable fk) (fk_refcolumns fk))
          foreign_keys.

(** The table refers to the table [name] through a foreign key. *)
Definition refers_to (name : string) (t : Table) : bool :=
  existsb (fun fk => String.eqb (fk_reftable fk) name) (tbl_foreign_keys t).

(** [CREATE EXTENSION IF NOT EXISTS name] *)
Definition create_extension_if_not_exists (name : string) (s : Schema)
  : ddl Schema :=
  if has_extension s name then Applied s
  else Applied {| extensions := extensions s ++ [name];
                  tables := tables s;
                  indexes := indexes s |}.

(** [DROP EXTENSION IF EXISTS name]: refused while a column still has a type
    of the extension. *)
Definition drop_extension_if_exists (name : string) (s : Schema)
  : ddl Schema :=
  if has_extension s name then
    if String.eqb name "vector"
       && existsb (fun t => uses_vector (tbl_columns t)) (tables s)
    then Refused DependentObjectsStillExist
    else Applied {| extensions :=
                      filter (fun e => negb (String.eqb name e))
                             (extensions s);
                    tables := tables s;
                    indexes := indexes s |}
  else Applied s.

(** [op.create_table(name, *columns, *constraints)] *)
Definition create_table (name : string) (columns : list Column)
    (foreign_keys : list ForeignKeyConstraint) (primary_key : list string)
    (s : Schema) : ddl Schema :=
  if has_relation s name then Refused DuplicateObject
  else if uses_vector columns && negb (has_extension s "vector")
  then Refused UndefinedObject
  else if negb (references_exist s foreign_keys)
  then Refused UndefinedObject
  else if negb (references_keys s foreign_keys)
  then Refused InvalidForeignKey
  else
    Applied {| extensions := extensions s;
               tables := tables s
                         ++ [{| tbl_name := name;
                                tbl_columns := columns;
                                tbl_foreign_keys := foreign_keys;
                                tbl_primary_key := primary_key |}];
               indexes := indexes s |}.

(** [op.create_index(name, table, columns, unique=...)] *)
Definition create_index (name table : string) (columns : list string)
    (unique : bool) (s : Schema) : ddl Schema :=
  if has_relation s name then Refused DuplicateObject
  else if has_columns s table columns then
    Applied {| extensions := extensions s;
               tables := tables s;
               indexes := indexes s
                          ++ [{| ix_name := name;
                                 ix_table := table;
                                 ix_columns := columns;
                                 ix_unique := unique |}] |}
  else Refused UndefinedObject.

(** [op.drop_index(name, table_name=...)]: the engine looks the index up by
    its name alone. *)
Definition drop_index (name : string) (table_name : string) (s : Schema)
  : ddl Schema :=
  if has_index s name then
    Applied {| extensions := extensions s;
               tables := tables s;
               indexes := filter (fun i => negb (index_named name i))
                                 (indexes s) |}
  else Refused UndefinedObject.

(** [op.drop_table(name)]: the indexes of the table go with it; refused
    while another table refers to it. *)
Definition drop_table (name : string) (s : Schema) : ddl Schema :=
  if has_table s name then
    if existsb (fun t => negb (named name t) && refers_to name t) (tables s)
    then Refused DependentObjectsStillExist
    else Applied {| extensions := extensions s;
                    tables := filter (fun t => negb (named name t))
                                     (tables s);
                    indexes := filter (fun i => negb (String.eqb (ix_table i)
                                                                 name))
                                      (indexes s) |}
  else Refused UndefinedObject.

Definition upgrade (s : Schema) : ddl Schema :=
  and_then (create_extension_if_not_exists "vector" s) (fun s =>
  and_then
    (create_table "conversation_embeddings"
       [{| col_name := "id"; col_type := Integer;
           col_autoincrement := true; col_nullable := false |};
        {| col_name := "conversation_id"; col_type := Integer;
           col_autoincrement := false; col_nullable := false |};
        {| col_name := "summary_text"; col_type := Text;
           col_autoincrement := false; col_nullable := false |};
        {| col_name := "embedding"; col_type := Vector 384;
           col_autoincrement := false; col_nullable := false |};
        {| col_name := "created_at"; col_type := DateTime;
           col_autoincrement := false; col_nullable := false |}]
       [{| fk_columns := ["conversation_id"%string];
           fk_reftable := "conversations";
           fk_refcolumns := ["id"%string];
           fk_ondelete := "CASCADE" |}]
       ["id"%string] s) (fun s =>
  and_then
    (create_index "ix_conversation_embeddings_conversation_id"
       "conversation_embeddings" ["conversation_id"%string] true s) (fun s =>
  and_then
    (create_table "message_embeddings"
       [{| col_name := "id"; col_type := Integer;
           col_autoincrement := true; col_nullable := false |};
        {| col_name := "conversation_id"; col_type := Integer;
           col_autoincrement := false; col_nullable := false |};
        {| col_name := "message_index"; col_type := Integer;
           col_autoincrement := false; col_nullable := false |};
        {| col_name := "message_text"; col_type := Text;
           col_autoincrement := false; col_nullable := false |};
        {| col_name := "embedding"; col_type := Vector 384;
           col_autoincrement := false; col_nullable := false |};
        {| col_name := "page_number"; col_type := Integer;
           col_autoincrement := false; col_nullable := false |};
        {| col_name := "created_at"; col_type := DateTime;
           col_autoincrement := false; col_nullable := false |}]
       [{| fk_columns := ["conversation_id"%string];
           fk_reftable := "conversations";
           fk_refcolumns := ["id"%string];
           fk_ondelete := "CASCADE" |}]
       ["id"%string] s) (fun s =>
  create_index "ix_message_embeddings_conversation_id"
    "message_embeddings" ["conversation_id"%string] false s)))).

Definition downgrade (s : Schema) : ddl Schema :=
  and_then (drop_index "ix_message_embeddings_conversation_id"
                       "message_embeddings" s) (fun s =>
  and_then (drop_table "message_embeddings" s) (fun s =>
  and_then (drop_index "ix_conversation_embeddings_conversation_id"
                       "conversation_embeddings" s) (fun s =>
  and_then (drop_table "conversation_embeddings" s) (fun s =>
  drop_extension_if_exists "vector" s)))).

(** A schema the engine can hold: every foreign key refers to the primary
    key of a table, a column of type vector needs the extension, and every
    index belongs to a table. *)
Definition consistent (s : Schema) : bool :=
  forallb (fun t => references_exist s (tbl_foreign_keys t)
                    && references_keys s (tbl_foreign_keys t)
                    && (negb (uses_vector (tbl_columns t))
                        || has_extension s "vector"))
          (tables s)
  && forallb (fun i => has_table s (ix_table i)) (indexes s).

(** The names the migration creates. *)
Definition migration_names : list string :=
  ["conversation_embeddings"; "ix_conversation_embeddings_conversation_id";
   "message_embeddings"; "ix_message_embeddings_conversation_id"]%string.

(** The schema before the migration: none of its names is taken and the
    table conversations has id as its primary key. *)
Definition ready_for_upgrade (s : Schema) : bool :=
  consistent s
  && forallb (fun name => negb (has_relation s name)) migration_names
  && has_columns s "conversations" ["id"%string]
  && is_key s "conversations" ["id"%string].

(** The schema of the revision before: the table conversations alone. *)
Definition conversations_only : Schema :=
  {| extensions := [];
     tables :=
       [{| tbl_name := "conversations";
           tbl_columns :=
             [{| col_name := "id"; col_type := Integer;
                 col_autoincrement := true; col_nullable := false |};
              {| col_name := "session_id"; col_type := Varchar 255;
                 col_autoincrement := false; col_nullable := false |};
              {| col_name := "message_count"; col_type := Integer;
                 col_autoincrement := false; col_nullable := false |};
              {| col_name := "first_message"; col_type := Text;
                 col_autoincrement := false; col_nullable := true |}];
           tbl_foreign_keys := [];
           tbl_primary_key := ["id"%string] |}];
     indexes :=
       [{| ix_name := "ix_conversations_session_id";
           ix_table := "conversations";
           ix_columns := ["session_id"%string];
           ix_unique := true |}] |}.

(** The same with the extension installed beforehand, as [init_db] does. *)
Definition with_vector_installed : Schema :=
  {| extensions := ["vector"%string];
     tables := tables conversations_only;
     indexes := indexes conversations_only |}.

(** What the upgrade makes of [conversations_only]. *)
Definition upgraded_sample : Schema :=
  match upgrade conversations_only with
  | Applied s => s
  | Refused _ => conversations_only
  end.

(** A database without any table. *)
Definition empty_schema : Schema :=
  {| extensions := []; tables := []; indexes := [] |}.

(* ================================================================= *)
(** ** Further notions used in the statements *)

(** At most one summary row per conversation. *)
Definition one_summary_each (t : Tables) : Prop :=
  forall cid, (length (summary_rows t cid) <= 1)%nat.

Definition summaries_unique (db : DbSession) : Prop :=
  one_summary_each (txn db) /\ one_summary_each (committed db).

(** No two Conversation rows for one session id. *)
Definition unique_session_ids (t : Tables) : Prop :=
  NoDup (map session_id (conversations t)).

Definition sessions_unique (db : DbSession) : Prop :=
  unique_session_ids (txn db) /\ unique_session_ids (committed db).

(** The lookup the loops make for a session id. *)
Definition lookup_session (sid : string) (t : Tables) : option Conversation :=
  find (fun c => String.eqb (session_id c) sid) (conversations t).


(** The rows a sub-query keeps of its joined rows: the [n] nearest. *)
Definition nearest {B} (dist : B -> pyfloat) (n : nat) (joined : list B)
  : list B :=
  firstn n (sort_by (fun a b => sql_leb (dist a) (dist b)) joined).

(** Every candidate of the search, before any cut. *)
Definition all_candidates (t : Tables) (q : vector) : list SearchResult :=
  map (fun p => conv_result (conv_row q p)) (join_conversation_embeddings t)
  ++ map (fun p => msg_result (msg_row q p)) (join_message_embeddings t).

(** The link a result should carry, from its own fields. *)
Definition expected_url (r : SearchResult) : string :=
  match page_number r, message_index r with
  | Some p, Some i =>
      if p =? 0 then ("/transcript/" ++ res_session_id r)%string
      else ("/transcript/" ++ res_session_id r ++ "/page-"
            ++ format_03d p ++ ".html#msg-" ++ str_of_int i)%string
  | _, _ => ("/transcript/" ++ res_session_id r)%string
  end.

(** The result belongs to a Conversation row of [t]. *)
Definition of_conversation (t : Tables) (r : SearchResult) : Prop :=
  exists c, In c (conversations t)
            /\ conv_id c = conversation_id r
            /\ session_id c = res_session_id r
            /\ source c = res_source r
            /\ first_message c = res_first_message r.

(* ================================================================= *)
(** * Properties *)

(** ** Python strings *)

Lemma lstrip_truthy (s : pystr) :
  str_truthy (lstrip s) = existsb (fun ch => negb (isspace ch)) s.
Proof.
  induction s as [|c s IH]; simpl; [reflexivity|].
  destruct (isspace c); simpl; [exact IH | reflexivity].
Qed.

Lemma lstrip_keeps_text (s : pystr) :
  existsb (fun ch => negb (isspace ch)) (lstrip s)
  = existsb (fun ch => negb (isspace ch)) s.
Proof.
  induction s as [|c s IH]; simpl; [reflexivity|].
  destruct (isspace c) eqn:E; simpl; [exact IH | now rewrite E].
Qed.

Lemma existsb_reverse {A} (f : A -> bool) (l : list A) :
  existsb f (rev l) = existsb f l.
Proof.
  induction l as [|x l IH]; simpl; [reflexivity|].
  rewrite existsb_app, IH; simpl.
  rewrite orb_false_r. apply orb_comm.
Qed.

Lemma str_truthy_rev (s : pystr) : str_truthy (rev s) = str_truthy s.
Proof.
  destruct s as [|c s]; simpl; [reflexivity|].
  destruct (rev s); reflexivity.
Qed.

(** [content.strip()] is truthy exactly when some character is not
    whitespace. *)
Lemma strip_truthy (s : pystr) :
  str_truthy (strip s) = existsb (fun ch => negb (isspace ch)) s.
Proof.
  unfold strip, rstrip.
  rewrite str_truthy_rev, lstrip_truthy, existsb_reverse.
  apply lstrip_keeps_text.
Qed.

(** ** needs_update *)

(** C2, as amended: a new session always needs an update; an existing one
    needs it exactly when the number of loglines of the session, eligible or
    not, differs from the stored [message_count]; two sessions with the same
    number of loglines get the same answer whatever their content. *)
Theorem needs_update_counts_loglines (session_data : SessionData) :
  needs_update None session_data = true
  /\ (forall existing,
        needs_update (Some existing) session_data = true
        <-> Z.of_nat (length (get_loglines session_data))
            <> message_count existing)
  /\ (forall existing other,
        length (get_loglines other) = length (get_loglines session_data) ->
        needs_update (Some existing) other
        = needs_update (Some existing) session_data).
Proof.
  split; [reflexivity|]. split.
  - intros existing. unfold needs_update.
    rewrite negb_true_iff, Z.eqb_neq. tauto.
  - intros existing other Hlen. unfold needs_update. now rewrite Hlen.
Qed.

(** C2 as the specification words it fails: one tool-call logline against a
    stored count of one has no eligible message, so the eligible count (0)
    differs from the stored count (1), yet no update is asked for. *)
Lemma needs_update_not_eligible_count :
  ~ (forall existing session_data,
       needs_update (Some existing) session_data = true
       <-> eligible_count session_data <> message_count existing).
Proof.
  intros H.
  destruct (H (sample_conversation 1 "s1" 1) tool_only_session) as [_ Hback].
  assert (Hne : eligible_count tool_only_session
                <> message_count (sample_conversation 1 "s1" 1))
    by (vm_compute; discriminate).
  specialize (Hback Hne). vm_compute in Hback. discriminate.
Qed.

(** ** extract_user_queries *)

Lemma eligible_truthy (logline : Logline) :
  eligible logline
  = match content logline with
    | Some (JStr c) => str_truthy (strip c)
    | _ => false
    end.
Proof.
  unfold eligible. destruct (content logline) as [[| | |c| |]|]; trivial.
  symmetry; apply strip_truthy.
Qed.

(** The loop, started anywhere, appends the specified tuples. *)
Lemma extract_loop_spec (prompts_per_page : Z) (lines : list Logline) :
  prompts_per_page <> 0 ->
  forall user_queries message_index prompt_count,
    extract_loop prompts_per_page lines user_queries message_index
                 prompt_count
    = Ok (user_queries
          ++ map (spec_tuple prompts_per_page)
               (enumerate_from prompt_count
                  (filter (fun p => eligible (snd p))
                          (enumerate_from message_index lines)))).
Proof.
  intros Hpp. apply Z.eqb_neq in Hpp.
  induction lines as [|logline rest IH]; intros acc mi pc; simpl.
  - now rewrite app_nil_r.
  - rewrite (eligible_truthy logline).
    destruct (content logline) as [[| | |c| |]|] eqn:Hc; simpl;
      try apply IH.
    destruct (str_truthy (strip c)); simpl; [|apply IH].
    rewrite Hpp, IH, <- app_assoc. simpl.
    unfold logline_text. now rewrite Hc.
Qed.

Lemma enumerate_from_length {A} (l : list A) (start : Z) :
  length (enumerate_from start l) = length l.
Proof.
  revert start; induction l; intros; simpl; [reflexivity | now rewrite IHl].
Qed.

Lemma enumerate_from_nth {A} (l : list A) (start pos : Z) (x : A) :
  In (pos, x) (enumerate_from start l) ->
  start <= pos /\ nth_error l (Z.to_nat (pos - start)) = Some x.
Proof.
  revert start; induction l as [|y l IH]; intros start; simpl; [tauto|].
  intros [Heq | Hin].
  - inversion Heq; subst. split; [lia|]. now rewrite Z.sub_diag.
  - apply IH in Hin. destruct Hin as [Hle Hnth]. split; [lia|].
    replace (Z.to_nat (pos - start)) with (S (Z.to_nat (pos - (start + 1))))
      by lia.
    exact Hnth.
Qed.

Lemma enumerate_from_snd {A} (l : list A) (start : Z) :
  map snd (enumerate_from start l) = l.
Proof.
  revert start; induction l; intros; simpl; [reflexivity | now rewrite IHl].
Qed.

Lemma enumerate_from_lookup {A} (l : list A) (start : Z) (k : nat) (p : Z * A) :
  nth_error (enumerate_from start l) k = Some p ->
  fst p = start + Z.of_nat k.
Proof.
  revert start k; induction l as [|y l IH]; intros start k; simpl.
  - destruct k; discriminate.
  - destruct k as [|k]; simpl.
    + intros H; inversion H; subst; simpl; lia.
    + intros H. apply IH in H. lia.
Qed.

Lemma enumerate_from_sorted {A} (l : list A) (start : Z) :
  StronglySorted Z.lt (map fst (enumerate_from start l)).
Proof.
  revert start; induction l as [|y l IH]; intros start; simpl;
    constructor; [apply IH|].
  apply Forall_forall. intros pos Hin.
  apply in_map_iff in Hin. destruct Hin as [[pos' x] [Hfst Hin]].
  simpl in Hfst; subst. apply enumerate_from_nth in Hin. lia.
Qed.

Lemma filter_fst_sorted {A} (f : Z * A -> bool) (l : list (Z * A)) :
  StronglySorted Z.lt (map fst l) ->
  StronglySorted Z.lt (map fst (filter f l)).
Proof.
  induction l as [|p l IH]; simpl; intros H; [constructor|].
  inversion H as [|? ? Hs Hall]; subst.
  destruct (f p); simpl; [constructor|]; try now apply IH.
  rewrite Forall_forall in *. intros z Hz. apply Hall.
  apply in_map_iff in Hz. destruct Hz as [q [Hq Hin]].
  apply filter_In in Hin. apply in_map_iff. exists q. tauto.
Qed.

Lemma filter_snd_enumerate {A} (f : A -> bool) (l : list A) (start : Z) :
  map snd (filter (fun p => f (snd p)) (enumerate_from start l)) = filter f l.
Proof.
  revert start; induction l as [|y l IH]; intros start; simpl;
    [reflexivity|].
  destruct (f y); simpl; now rewrite IH.
Qed.

(** C4: for a non-zero page size [extract_user_queries] returns exactly the
    specified list: one tuple per logline whose content is a string with a
    non-whitespace character, in logline order, with the logline's position
    in the full sequence, the content cut at 1000 characters, and the page
    (index among the eligible // page size) + 1; with a page size of 5 the
    eligible messages 0-4 are on page 1 and 5-9 on page 2. *)
Theorem extract_user_queries_spec (session_data : SessionData)
    (prompts_per_page : Z) :
  prompts_per_page <> 0 ->
  let lines := get_loglines session_data in
  extract_user_queries session_data prompts_per_page
  = Ok (spec_user_queries prompts_per_page lines)
  /\ length (spec_user_queries prompts_per_page lines)
     = length (filter eligible lines)
  /\ map snd (eligible_messages lines) = filter eligible lines
  /\ (forall position logline,
        In (position, logline) (eligible_messages lines) ->
        0 <= position
        /\ nth_error lines (Z.to_nat position) = Some logline)
  /\ StronglySorted Z.lt (map fst (eligible_messages lines))
  /\ (forall k q,
        nth_error (spec_user_queries prompts_per_page lines) k = Some q ->
        exists position logline,
          nth_error (eligible_messages lines) k = Some (position, logline)
          /\ q = (position, firstn 1000 (logline_text logline),
                  Z.of_nat k / prompts_per_page + 1))
  /\ (forall result k q,
        extract_user_queries session_data 5 = Ok result ->
        nth_error result k = Some q ->
        ((k < 5)%nat -> snd q = 1) /\ ((5 <= k < 10)%nat -> snd q = 2)).
Proof.
  intros Hpp lines.
  assert (Hspec : forall ppp, ppp <> 0 ->
            extract_user_queries session_data ppp
            = Ok (spec_user_queries ppp lines)).
  { intros ppp Hp. unfold extract_user_queries.
    rewrite (extract_loop_spec lines Hp). reflexivity. }
  assert (Hnth : forall ppp k q,
            nth_error (spec_user_queries ppp lines) k = Some q ->
            exists position logline,
              nth_error (eligible_messages lines) k
              = Some (position, logline)
              /\ q = (position, firstn 1000 (logline_text logline),
                      Z.of_nat k / ppp + 1)).
  { intros ppp k q Hq. unfold spec_user_queries in Hq.
    rewrite nth_error_map in Hq.
    destruct (nth_error (enumerate_from 0 (eligible_messages lines)) k)
      as [[k' [position logline]]|] eqn:Hk; [|discriminate].
    simpl in Hq. inversion Hq; subst q.
    pose proof (enumerate_from_lookup _ _ _ Hk) as Hfst. simpl in Hfst.
    subst k'.
    assert (Hsnd : nth_error (map snd (enumerate_from 0
                                (eligible_messages lines))) k
                   = Some (position, logline))
      by (rewrite nth_error_map, Hk; reflexivity).
    rewrite enumerate_from_snd in Hsnd.
    exists position, logline. split; [exact Hsnd | reflexivity]. }
  split; [now apply Hspec|].
  split.
  { unfold spec_user_queries, eligible_messages.
    rewrite length_map, enumerate_from_length.
    rewrite <- (filter_snd_enumerate eligible lines 0).
    now rewrite length_map. }
  split; [apply filter_snd_enumerate|].
  split.
  { intros position logline Hin. unfold eligible_messages in Hin.
    apply filter_In in Hin. destruct Hin as [Hin _].
    apply enumerate_from_nth in Hin. now rewrite Z.sub_0_r in Hin. }
  split; [apply filter_fst_sorted, enumerate_from_sorted|].
  split; [apply Hnth|].
  intros result k q Hres Hq.
  rewrite Hspec in Hres by discriminate. inversion Hres; subst result.
  apply Hnth in Hq. destruct Hq as [position [logline [_ Hq]]]. subst q.
  simpl. split; intros Hk.
  - assert (H : Z.of_nat k / 5 = 0) by (apply Z.div_small; lia).
    now rewrite H.
  - assert (H : Z.of_nat k / 5 = 1)
      by (symmetry; apply (Z.div_unique _ 5 1 (Z.of_nat k - 5)); lia).
    now rewrite H.
Qed.

(** ** store_embeddings *)

Lemma add_message_embeddings_run (cid : Z) (pairs : list (UserQuery * vector)) :
  forall db,
    add_message_embeddings cid pairs db
    = ({| engine_accepts := engine_accepts db; committed := committed db;
          txn := {| conversations := conversations (txn db);
                    conversation_embeddings :=
                      conversation_embeddings (txn db);
                    message_embeddings :=
                      message_embeddings (txn db)
                      ++ new_message_rows cid (next_me_id db) pairs |};
          inactive := inactive db;
          next_conversation_id := next_conversation_id db;
          next_ce_id := next_ce_id db;
          next_me_id := next_me_id db + Z.of_nat (length pairs) |}, Ok tt).
Proof.
  induction pairs as [|[[[msg_idx msg_text] page_num] embedding] rest IH];
    intros db.
  - destruct db as [? ? [? ? ?] ? ? ? ?]; simpl.
    unfold ret. now rewrite app_nil_r, Z.add_0_r.
  - cbn [add_message_embeddings new_message_rows]. unfold bind at 1.
    unfold add_message_embedding at 1. rewrite IH. cbn.
    rewrite <- app_assoc. cbn.
    f_equal. f_equal. rewrite Zpos_P_of_succ_nat. lia.
Qed.

Lemma store_embeddings_ok (svc : EmbeddingService) (cid : Z) (summary : pystr)
    (queries : list UserQuery) (db db' : DbSession) :
  store_embeddings svc cid summary queries db = (db', Ok tt) ->
  inactive db = false
  /\ exists embedding embeddings,
       (str_truthy summary = true -> encode_single svc summary = Ok embedding)
       /\ match queries with
          | [] => embeddings = []
          | _ :: _ =>
              encode_batch svc (map (fun q : UserQuery => snd (fst q)) queries)
              = Ok embeddings
          end
       /\ committed db'
          = replaced_tables (txn db) cid
              (new_summary_rows cid (next_ce_id db) summary embedding)
              (new_message_rows cid (next_me_id db)
                                (combine queries embeddings))
       /\ txn db' = committed db'
       /\ inactive db' = false
       /\ engine_accepts db' = engine_accepts db.
Proof.
  unfold store_embeddings, bind, delete_conversation_embeddings,
    delete_message_embeddings, lift.
  destruct (inactive db) eqn:Hact; [discriminate|].
  cbn [with_txn inactive txn conversations conversation_embeddings
       message_embeddings].
  rewrite Hact.
  intros H. split; [reflexivity|].
  unfold new_summary_rows.
  destruct (str_truthy summary) eqn:Hs.
  - destruct (encode_single svc summary) as [embedding|] eqn:He;
      [|discriminate].
    exists embedding.
    destruct queries as [|q queries].
    + exists []. unfold add_conversation_embedding, ret, commit in H.
      cbn in H. rewrite Hact in H.
      match type of H with
      | (if ?c then _ else _) = _ => destruct c; [|discriminate]
      end.
      inversion H; subst db'; cbn.
      unfold replaced_tables, other_summary_rows, other_message_rows. cbn.
      rewrite app_nil_r. repeat split; auto.
    + destruct (encode_batch svc _) as [embeddings|] eqn:Hb; [|discriminate].
      exists embeddings.
      unfold add_conversation_embedding in H.
      rewrite add_message_embeddings_run in H.
      unfold commit in H. cbn in H. rewrite Hact in H.
      match type of H with
      | (if ?c then _ else _) = _ => destruct c; [|discriminate]
      end.
      inversion H; subst db'; cbn.
      repeat split; auto.
  - exists []. 
    destruct queries as [|q queries].
    + exists []. unfold ret, commit in H.
      cbn in H. rewrite Hact in H.
      match type of H with
      | (if ?c then _ else _) = _ => destruct c; [|discriminate]
      end.
      inversion H; subst db'; cbn.
      unfold replaced_tables, other_summary_rows, other_message_rows. cbn.
      rewrite !app_nil_r. repeat split; auto; discriminate.
    + destruct (encode_batch svc _) as [embeddings|] eqn:Hb; [|discriminate].
      exists embeddings.
      unfold ret in H.
      rewrite add_message_embeddings_run in H.
      unfold commit in H. cbn in H. rewrite Hact in H.
      match type of H with
      | (if ?c then _ else _) = _ => destruct c; [|discriminate]
      end.
      inversion H; subst db'; cbn.
      unfold replaced_tables, other_summary_rows, other_message_rows. cbn.
      rewrite !app_nil_r. repeat split; auto; discriminate.
Qed.

Lemma new_message_rows_cid (cid : Z) (pairs : list (UserQuery * vector)) :
  forall next_id,
    Forall (fun e => me_conversation_id e = cid)
           (new_message_rows cid next_id pairs).
Proof.
  induction pairs as [|[[[i t] p] e] rest IH]; intros next_id; simpl;
    constructor; [reflexivity | apply IH].
Qed.

Lemma new_message_rows_view (cid : Z) (pairs : list (UserQuery * vector)) :
  forall next_id,
    map (fun e => (me_message_index e, message_text e, me_page_number e))
        (new_message_rows cid next_id pairs)
    = map (fun p => stored_tuple (fst p)) pairs.
Proof.
  induction pairs as [|[[[i t] p] e] rest IH]; intros next_id; simpl;
    [reflexivity | now rewrite IH].
Qed.

Lemma new_summary_rows_cid (cid next_id : Z) (summary : pystr) (e : vector) :
  Forall (fun r => ce_conversation_id r = cid)
         (new_summary_rows cid next_id summary e).
Proof.
  unfold new_summary_rows. destruct (str_truthy summary); repeat constructor.
Qed.

Lemma new_summary_rows_view (cid next_id : Z) (summary : pystr) (e : vector) :
  map summary_text (new_summary_rows cid next_id summary e)
  = if str_truthy summary then [firstn 500 summary] else [].
Proof.
  unfold new_summary_rows. now destruct (str_truthy summary).
Qed.

Lemma filter_all {A} (f : A -> bool) (l : list A) :
  Forall (fun x => f x = true) l -> filter f l = l.
Proof.
  induction 1 as [|x l Hx _ IH]; simpl; [reflexivity|].
  now rewrite Hx, IH.
Qed.

Lemma filter_none {A} (f : A -> bool) (l : list A) :
  Forall (fun x => f x = false) l -> filter f l = [].
Proof.
  induction 1 as [|x l Hx _ IH]; simpl; [reflexivity|].
  now rewrite Hx, IH.
Qed.

Lemma filter_filter_negb {A} (f : A -> bool) (l : list A) :
  filter f (filter (fun x => negb (f x)) l) = [].
Proof.
  apply filter_none, Forall_forall. intros x Hin.
  apply filter_In in Hin. destruct Hin as [_ H].
  now apply negb_true_iff in H.
Qed.

Lemma filter_idem {A} (f : A -> bool) (l : list A) :
  filter f (filter f l) = filter f l.
Proof.
  apply filter_all, Forall_forall. intros x Hin.
  apply filter_In in Hin. tauto.
Qed.

Section Replaced.
Variables (t : Tables) (cid : Z).
Variables (ce_new : list ConversationEmbedding)
          (me_new : list MessageEmbedding).
Hypothesis ce_new_cid : Forall (fun r => ce_conversation_id r = cid) ce_new.
Hypothesis me_new_cid : Forall (fun r => me_conversation_id r = cid) me_new.

Lemma summary_rows_replaced :
  summary_rows (replaced_tables t cid ce_new me_new) cid = ce_new.
Proof.
  unfold summary_rows, replaced_tables, other_summary_rows; simpl.
  rewrite filter_app, filter_filter_negb. simpl.
  apply filter_all. eapply Forall_impl; [|exact ce_new_cid].
  intros r Hr; simpl in Hr. now apply Z.eqb_eq.
Qed.

Lemma message_rows_replaced :
  message_rows (replaced_tables t cid ce_new me_new) cid = me_new.
Proof.
  unfold message_rows, replaced_tables, other_message_rows; simpl.
  rewrite filter_app, filter_filter_negb. simpl.
  apply filter_all. eapply Forall_impl; [|exact me_new_cid].
  intros r Hr; simpl in Hr. now apply Z.eqb_eq.
Qed.

Lemma other_summary_rows_replaced :
  other_summary_rows (replaced_tables t cid ce_new me_new) cid
  = other_summary_rows t cid.
Proof.
  unfold replaced_tables, other_summary_rows; simpl.
  rewrite filter_app, filter_idem.
  rewrite (filter_none _ (l := ce_new)); [apply app_nil_r|].
  eapply Forall_impl; [|exact ce_new_cid].
  intros r Hr; simpl in Hr. apply negb_false_iff. now apply Z.eqb_eq.
Qed.

Lemma other_message_rows_replaced :
  other_message_rows (replaced_tables t cid ce_new me_new) cid
  = other_message_rows t cid.
Proof.
  unfold replaced_tables, other_message_rows; simpl.
  rewrite filter_app, filter_idem.
  rewrite (filter_none _ (l := me_new)); [apply app_nil_r|].
  eapply Forall_impl; [|exact me_new_cid].
  intros r Hr; simpl in Hr. apply negb_false_iff. now apply Z.eqb_eq.
Qed.
End Replaced.

Lemma map_fst_combine {A B} (l : list A) (l' : list B) :
  length l' = length l -> map fst (combine l l') = l.
Proof.
  revert l'; induction l as [|x l IH]; intros [|y l'] H; simpl in *;
    try discriminate; [reflexivity|].
  f_equal. apply IH. now inversion H.
Qed.

(** C3: after a successful [store_embeddings], with an encoder that answers
    a batch with one vector per text, the conversation has exactly as many
    message rows as the input list has tuples, and they are the input tuples
    (texts cut at 500 characters): nothing of an earlier run is left. With an
    empty summary and an empty list the conversation is left with no summary
    row and no message row. *)
Theorem store_embeddings_row_count (embedding_service : EmbeddingService)
    (cid : Z) (summary : pystr) (user_queries : list UserQuery)
    (db db' : DbSession) :
  store_embeddings embedding_service cid summary user_queries db
  = (db', Ok tt) ->
  batch_aligned embedding_service user_queries ->
  length (message_rows (committed db') cid) = length user_queries
  /\ stored_messages (committed db') cid = map stored_tuple user_queries
  /\ (summary = [] -> user_queries = [] ->
      summary_rows (committed db') cid = []
      /\ message_rows (committed db') cid = []).
Proof.
  intros Hrun Haligned.
  apply store_embeddings_ok in Hrun.
  destruct Hrun as [_ [e [es [_ [Hes [Hc _]]]]]].
  assert (Hlen : length es = length user_queries).
  { destruct user_queries as [|q qs]; [now subst es|].
    now apply Haligned. }
  assert (Hview : stored_messages (committed db') cid
                  = map stored_tuple user_queries).
  { unfold stored_messages. rewrite Hc.
    rewrite message_rows_replaced
      by (apply new_summary_rows_cid || apply new_message_rows_cid).
    rewrite new_message_rows_view, <- map_map.
    now rewrite map_fst_combine. }
  split; [|split].
  - apply (f_equal (@length _)) in Hview.
    unfold stored_messages in Hview. now rewrite !length_map in Hview.
  - exact Hview.
  - intros Hs Hq. subst summary user_queries. rewrite Hc.
    rewrite summary_rows_replaced, message_rows_replaced
      by (apply new_summary_rows_cid || apply new_message_rows_cid).
    split; reflexivity.
Qed.

(** C8: a second successful run of [store_embeddings] with the same inputs
    leaves what the first left: the same stored summary text, the same
    message tuples (index, text, page), the same row counts, and the rows of
    the other conversations and the Conversation table untouched. *)
Theorem store_embeddings_idempotent (embedding_service : EmbeddingService)
    (cid : Z) (summary : pystr) (user_queries : list UserQuery)
    (db db1 db2 : DbSession) :
  store_embeddings embedding_service cid summary user_queries db
  = (db1, Ok tt) ->
  store_embeddings embedding_service cid summary user_queries db1
  = (db2, Ok tt) ->
  stored_summaries (committed db2) cid = stored_summaries (committed db1) cid
  /\ stored_messages (committed db2) cid
     = stored_messages (committed db1) cid
  /\ length (summary_rows (committed db2) cid)
     = length (summary_rows (committed db1) cid)
  /\ length (message_rows (committed db2) cid)
     = length (message_rows (committed db1) cid)
  /\ other_summary_rows (committed db2) cid
     = other_summary_rows (committed db1) cid
  /\ other_message_rows (committed db2) cid
     = other_message_rows (committed db1) cid
  /\ conversations (committed db2) = conversations (committed db1).
Proof.
  intros Hfirst Hsecond.
  apply store_embeddings_ok in Hfirst, Hsecond.
  destruct Hfirst as [_ [e1 [es1 [_ [Hes1 [Hc1 [Ht1 _]]]]]]].
  destruct Hsecond as [_ [e2 [es2 [_ [Hes2 [Hc2 _]]]]]].
  assert (Hes : es2 = es1).
  { destruct user_queries; [congruence|].
    rewrite Hes1 in Hes2. now inversion Hes2. }
  subst es2.
  assert (Hsum : stored_summaries (committed db2) cid
                 = stored_summaries (committed db1) cid).
  { unfold stored_summaries. rewrite Hc2, Hc1.
    rewrite !summary_rows_replaced
      by (apply new_summary_rows_cid || apply new_message_rows_cid).
    now rewrite !new_summary_rows_view. }
  assert (Hmsg : stored_messages (committed db2) cid
                 = stored_messages (committed db1) cid).
  { unfold stored_messages. rewrite Hc2, Hc1.
    rewrite !message_rows_replaced
      by (apply new_summary_rows_cid || apply new_message_rows_cid).
    now rewrite !new_message_rows_view. }
  split; [exact Hsum|]. split; [exact Hmsg|].
  split.
  { apply (f_equal (@length _)) in Hsum. unfold stored_summaries in Hsum.
    now rewrite !length_map in Hsum. }
  split.
  { apply (f_equal (@length _)) in Hmsg. unfold stored_messages in Hmsg.
    now rewrite !length_map in Hmsg. }
  rewrite Hc2, Ht1.
  rewrite other_summary_rows_replaced, other_message_rows_replaced
    by (apply new_summary_rows_cid || apply new_message_rows_cid).
  repeat split.
Qed.


(** ** Rules for triples *)

Lemma hoare_ret {A} (P : DbSession -> Prop) (a : A) (E : DbSession -> Prop) :
  hoare P (ret a) (fun a' db => a' = a /\ P db) E.
Proof. intros db HP; simpl; auto. Qed.

Lemma hoare_lift {A} (P : DbSession -> Prop) (o : outcome A) :
  hoare P (lift o) (fun a db => o = Ok a /\ P db) P.
Proof. intros db HP; unfold lift; destruct o; auto. Qed.

Lemma hoare_bind {A B} (P : DbSession -> Prop) (c : M A) (k : A -> M B)
    (Q1 : A -> DbSession -> Prop) (Q : B -> DbSession -> Prop)
    (E : DbSession -> Prop) :
  hoare P c Q1 E ->
  (forall a, hoare (Q1 a) (k a) Q E) ->
  hoare P (bind c k) Q E.
Proof.
  intros Hc Hk db HP. unfold bind. specialize (Hc db HP).
  destruct (c db) as [db1 [a|e]]; [|exact Hc].
  exact (Hk a db1 Hc).
Qed.

Lemma hoare_try {A} (P : DbSession -> Prop) (body : M A)
    (handler : exn -> M A) (Q : A -> DbSession -> Prop)
    (E1 E : DbSession -> Prop) :
  hoare P body Q E1 ->
  (forall e, hoare E1 (handler e) Q E) ->
  hoare P (try_except body handler) Q E.
Proof.
  intros Hb Hh db HP. unfold try_except. specialize (Hb db HP).
  destruct (body db) as [db1 [a|e]]; [exact Hb|].
  exact (Hh e db1 Hb).
Qed.

Lemma hoare_weaken {A} (P P' : DbSession -> Prop) (c : M A)
    (Q Q' : A -> DbSession -> Prop) (E E' : DbSession -> Prop) :
  hoare P' c Q' E' ->
  (forall db, P db -> P' db) ->
  (forall a db, Q' a db -> Q a db) ->
  (forall db, E' db -> E db) ->
  hoare P c Q E.
Proof.
  intros Hc HP HQ HE db Hdb. specialize (Hc db (HP db Hdb)).
  destruct (c db) as [db1 [a|e]]; auto.
Qed.

(** A loop whose turns keep [P] and never raise keeps [P] and never
    raises. *)
Lemma hoare_for_each {A} (P : DbSession -> Prop) (step : Z -> A -> M Z)
    (items : list A) :
  (forall count item,
     hoare P (step count item) (fun _ db => P db) (fun _ => False)) ->
  forall count,
    hoare P (for_each step items count) (fun _ db => P db) (fun _ => False).
Proof.
  intros Hstep. induction items as [|item rest IH]; intros count; simpl.
  - intros db HP; simpl; exact HP.
  - eapply hoare_bind; [apply Hstep|]. intros count'. apply IH.
Qed.

Lemma hoare_total {A} (c : M A) (Q : A -> DbSession -> Prop) (db : DbSession) :
  hoare (fun _ => True) c Q (fun _ => False) ->
  exists db' a, c db = (db', Ok a).
Proof.
  intros H. specialize (H db I).
  destruct (c db) as [db' [a|e]]; [eauto | contradiction].
Qed.

Lemma hoare_trivial {A} (c : M A) :
  hoare (fun _ => True) c (fun _ _ => True) (fun _ => True).
Proof. intros db _. destruct (c db) as [db' [a|e]]; exact I. Qed.

Lemma hoare_run_ok {A} (P : DbSession -> Prop) (c : M A)
    (Q : A -> DbSession -> Prop) (E : DbSession -> Prop)
    (db db' : DbSession) (a : A) :
  hoare P c Q E -> P db -> c db = (db', Ok a) -> Q a db'.
Proof. intros H HP Hrun. specialize (H db HP). now rewrite Hrun in H. Qed.

Lemma hoare_run_raise {A} (P : DbSession -> Prop) (c : M A)
    (Q : A -> DbSession -> Prop) (E : DbSession -> Prop)
    (db db' : DbSession) (e : exn) :
  hoare P c Q E -> P db -> c db = (db', Raise e) -> E db'.
Proof. intros H HP Hrun. specialize (H db HP). now rewrite Hrun in H. Qed.

Lemma preserves_ret {A} (P : DbSession -> Prop) (a : A) :
  preserves P (ret a).
Proof. intros db HP; exact HP. Qed.

Lemma preserves_lift {A} (P : DbSession -> Prop) (o : outcome A) :
  preserves P (lift o).
Proof. intros db HP; unfold lift; destruct o; exact HP. Qed.

Lemma preserves_bind {A B} (P : DbSession -> Prop) (c : M A) (k : A -> M B) :
  preserves P c -> (forall a, preserves P (k a)) -> preserves P (bind c k).
Proof. intros Hc Hk. eapply hoare_bind; [exact Hc | exact Hk]. Qed.

Lemma preserves_try {A} (P : DbSession -> Prop) (body : M A)
    (handler : exn -> M A) :
  preserves P body -> (forall e, preserves P (handler e)) ->
  preserves P (try_except body handler).
Proof. intros Hb Hh. eapply hoare_try; [exact Hb | exact Hh]. Qed.

Lemma preserves_for_each {A} (P : DbSession -> Prop) (step : Z -> A -> M Z)
    (items : list A) :
  (forall count item, preserves P (step count item)) ->
  forall count, preserves P (for_each step items count).
Proof.
  intros Hstep. induction items as [|item rest IH]; intros count; simpl.
  - apply preserves_ret.
  - apply preserves_bind; [apply Hstep | exact IH].
Qed.

(** ** The committed state changes at [commit] only *)

Ltac session_op :=
  let db := fresh "db" in
  let H := fresh "H" in
  intros db H; hnf in H;
  cbv beta zeta delta [query_conversation update_conversation
    add_flush_conversation delete_conversation_embeddings
    delete_message_embeddings add_conversation_embedding
    add_message_embedding commit rollback rollback_session with_txn
    deactivate];
  repeat match goal with
         | |- context [if ?c then _ else _] => destruct c eqn:?
         end;
  hnf; simpl; auto.

Section Committed.
Variable T : Tables.

Lemma committed_query sid :
  preserves (committed_is T) (query_conversation sid).
Proof. session_op. Qed.

Lemma committed_update id now count path preview :
  preserves (committed_is T) (update_conversation id now count path preview).
Proof. session_op. Qed.

Lemma committed_add_flush sid src now count path preview :
  preserves (committed_is T)
            (add_flush_conversation sid src now count path preview).
Proof. session_op. Qed.

Lemma committed_delete_ce cid :
  preserves (committed_is T) (delete_conversation_embeddings cid).
Proof. session_op. Qed.

Lemma committed_delete_me cid :
  preserves (committed_is T) (delete_message_embeddings cid).
Proof. session_op. Qed.

Lemma committed_add_ce cid text embedding :
  preserves (committed_is T) (add_conversation_embedding cid text embedding).
Proof. session_op. Qed.

Lemma committed_add_me cid pairs :
  preserves (committed_is T) (add_message_embeddings cid pairs).
Proof.
  intros db H. rewrite add_message_embeddings_run. exact H.
Qed.

(** A commit that raises has committed nothing. *)
Lemma committed_commit :
  hoare (committed_is T) commit (fun _ _ => True) (committed_is T).
Proof. session_op. Qed.

Lemma committed_upsert existing sid src now count dir preview :
  preserves (committed_is T)
            (upsert_conversation existing sid src now count dir preview).
Proof.
  destruct existing as [row|]; simpl.
  - apply preserves_bind; [apply committed_update|].
    intros ?. apply preserves_ret.
  - apply committed_add_flush.
Qed.

(** [store_embeddings] that raises has committed nothing. *)
Lemma committed_store_embeddings svc cid summary user_queries :
  hoare (committed_is T) (store_embeddings svc cid summary user_queries)
        (fun _ _ => True) (committed_is T).
Proof.
  unfold store_embeddings.
  eapply hoare_bind; [apply committed_delete_ce|]. intros ?.
  eapply hoare_bind; [apply committed_delete_me|]. intros ?.
  eapply hoare_bind with (Q1 := fun _ => committed_is T).
  { destruct (str_truthy summary); [|apply preserves_ret].
    apply preserves_bind; [apply preserves_lift|].
    intros e. apply committed_add_ce. }
  intros ?.
  eapply hoare_bind with (Q1 := fun _ => committed_is T).
  { destruct user_queries; [apply preserves_ret|].
    apply preserves_bind; [apply preserves_lift|].
    intros es. apply committed_add_me. }
  intros ?. apply committed_commit.
Qed.

(** The tail both loops share: upsert, commit, hand over. *)
Lemma committed_upsert_commit existing sid src now count dir preview sd :
  hoare (committed_is T)
    (conversation_id <-
       upsert_conversation existing sid src now count dir preview ;;
     commit ;;;
     ret (Some {| prep_conversation_id := conversation_id;
                  prep_first_message := preview;
                  prep_session_data := sd |}))
    (fun _ _ => True) (committed_is T).
Proof.
  eapply hoare_bind; [apply committed_upsert|]. intros cid.
  eapply hoare_bind; [apply committed_commit|]. intros ?.
  intros db _. exact I.
Qed.

Lemma committed_local_prepare env storage_path github_repo item :
  hoare (committed_is T) (local_prepare env storage_path github_repo item)
        (fun _ _ => True) (committed_is T).
Proof.
  unfold local_prepare. destruct item as [session_path summary].
  eapply hoare_bind; [apply preserves_lift|]. intros sd.
  eapply hoare_bind; [apply committed_query|]. intros existing.
  destruct (negb (needs_update existing sd)).
  { intros db _. exact I. }
  eapply hoare_bind; [apply preserves_lift|]. intros ?.
  eapply hoare_bind; [apply preserves_lift|]. intros ?.
  apply committed_upsert_commit.
Qed.

Lemma committed_web_prepare env storage_path github_repo token org sid :
  hoare (committed_is T)
        (web_prepare env storage_path github_repo token org sid)
        (fun _ _ => True) (committed_is T).
Proof.
  unfold web_prepare.
  eapply hoare_bind; [apply preserves_lift|]. intros sd.
  eapply hoare_bind; [apply committed_query|]. intros existing.
  destruct (negb (needs_update existing sd)).
  { intros db _. exact I. }
  eapply hoare_bind; [apply preserves_lift|]. intros ?.
  eapply hoare_bind; [apply preserves_lift|]. intros ?.
  apply committed_upsert_commit.
Qed.
End Committed.

(** ** The loop bodies *)

Lemma extract_user_queries_ok (session_data : SessionData)
    (prompts_per_page : Z) :
  prompts_per_page <> 0 ->
  extract_user_queries session_data prompts_per_page
  = Ok (spec_user_queries prompts_per_page (get_loglines session_data)).
Proof.
  intros Hpp. unfold extract_user_queries.
  now rewrite (extract_loop_spec (get_loglines session_data) Hpp).
Qed.

(** With the default page size the extraction does not raise, so the inner
    [try] is [store_embeddings] with its exception dropped. *)
Lemma embed_step_run (svc : EmbeddingService) (p : Prepared) (db : DbSession) :
  embed_step svc p db
  = (fst (store_embeddings svc (prep_conversation_id p)
            (or_empty (prep_first_message p))
            (spec_user_queries default_prompts_per_page
               (get_loglines (prep_session_data p))) db),
     Ok tt).
Proof.
  unfold embed_step, try_except, bind, lift.
  rewrite extract_user_queries_ok by discriminate.
  destruct (store_embeddings _ _ _ _ db) as [db' [[]|e]]; reflexivity.
Qed.

Lemma embed_step_never_raises (svc : EmbeddingService) (p : Prepared) :
  hoare (fun _ => True) (embed_step svc p) (fun _ _ => True)
        (fun _ => False).
Proof. intros db _. rewrite embed_step_run. exact I. Qed.

(** A raising body has committed nothing. *)
Lemma committed_local_body (T : Tables) env svc storage_path github_repo
    count item :
  hoare (committed_is T)
        (local_body env svc storage_path github_repo count item)
        (fun _ _ => True) (committed_is T).
Proof.
  unfold local_body.
  eapply hoare_bind; [apply committed_local_prepare|].
  intros [p|]; [|intros db _; exact I].
  eapply hoare_bind with (Q1 := fun _ _ => True).
  - eapply hoare_weaken; [apply embed_step_never_raises | | |];
      simpl; auto; contradiction.
  - intros ? db _. exact I.
Qed.

Lemma committed_web_body (T : Tables) env svc storage_path github_repo
    token org count sid :
  hoare (committed_is T)
        (web_body env svc storage_path github_repo token org count sid)
        (fun _ _ => True) (committed_is T).
Proof.
  unfold web_body.
  eapply hoare_bind; [apply committed_web_prepare|].
  intros [p|]; [|intros db _; exact I].
  eapply hoare_bind with (Q1 := fun _ _ => True).
  - eapply hoare_weaken; [apply embed_step_never_raises | | |];
      simpl; auto; contradiction.
  - intros ? db _. exact I.
Qed.

(** One turn of either loop never raises. *)
Lemma guarded_turn_total (body : M Z) (count : Z) :
  hoare (fun _ => True)
        (try_except body (fun _ => rollback ;;; ret count))
        (fun _ _ => True) (fun _ => False).
Proof.
  eapply hoare_try; [apply hoare_trivial|].
  intros e db _. exact I.
Qed.

Lemma local_iteration_total env svc storage_path github_repo count item :
  hoare (fun _ => True)
        (local_iteration env svc storage_path github_repo count item)
        (fun _ _ => True) (fun _ => False).
Proof. apply guarded_turn_total. Qed.

Lemma web_iteration_total env svc storage_path github_repo token org
    count info :
  hoare (fun _ => True)
        (web_iteration env svc storage_path github_repo token org count info)
        (fun _ _ => True) (fun _ => False).
Proof.
  unfold web_iteration.
  destruct (info_session_id info) as [[|c sid]|];
    try (intros db _; exact I).
  apply guarded_turn_total.
Qed.

Lemma sync_local_sessions_total env svc storage_path dir limit github_repo
    db :
  exists db' n,
    sync_local_sessions env svc storage_path dir limit github_repo db
    = (db', Ok n).
Proof.
  unfold sync_local_sessions.
  destruct (find_local_sessions env _ limit) as [sessions|e];
    [|now exists db, 0].
  apply hoare_total with (Q := fun _ _ => True).
  apply hoare_for_each. intros. apply local_iteration_total.
Qed.

Lemma sync_web_sessions_total env svc storage_path token org limit
    github_repo db :
  exists db' n,
    sync_web_sessions env svc storage_path token org limit github_repo db
    = (db', Ok n).
Proof.
  unfold sync_web_sessions.
  destruct (resolve_credentials env token org) as [[token' org']|e];
    [|now exists db, 0].
  destruct (fetch_sessions env token' org') as [sessions|e];
    [|now exists db, 0].
  apply hoare_total with (Q := fun _ _ => True).
  apply hoare_for_each. intros. apply web_iteration_total.
Qed.

(** What the handler of the outer [try] leaves. *)
Lemma guarded_turn_raise (body : M Z) (count : Z) (db db1 : DbSession)
    (e : exn) :
  body db = (db1, Raise e) ->
  try_except body (fun _ => rollback ;;; ret count) db
  = (rollback_session db1, Ok count).
Proof. intros H. unfold try_except. now rewrite H. Qed.

Lemma guarded_turn_ok (body : M Z) (count count' : Z) (db db1 : DbSession) :
  body db = (db1, Ok count') ->
  try_except body (fun _ => rollback ;;; ret count) db = (db1, Ok count').
Proof. intros H. unfold try_except. now rewrite H. Qed.

Lemma for_each_cons {A} (step : Z -> A -> M Z) (item : A) (rest : list A)
    (count count' : Z) (db db1 : DbSession) :
  step count item db = (db1, Ok count') ->
  for_each step (item :: rest) count db = for_each step rest count' db1.
Proof. intros H. simpl. unfold bind. now rewrite H. Qed.

(** C6: when the body of the outer [try] raises for a session, nothing of
    that session was committed, the handler rolls the session back to the
    committed state (so the Conversation rows are as before), the count is
    not increased and the loop goes on with the remaining sessions; this
    holds in the local and in the web loop. A failing parse (or fetch), a
    failing render and a failing upsert or commit of the Conversation row
    each make the body raise. Neither [sync_local_sessions] nor
    [sync_web_sessions] ever raises. *)
Theorem session_failure_isolated (env : Env) (svc : EmbeddingService)
    (storage_path : string) (github_repo : option string) :
  (forall count item db db1 e,
     local_body env svc storage_path github_repo count item db
     = (db1, Raise e) ->
     committed db1 = committed db
     /\ local_iteration env svc storage_path github_repo count item db
        = (rollback_session db1, Ok count)
     /\ committed (rollback_session db1) = committed db
     /\ txn (rollback_session db1) = committed db
     /\ inactive (rollback_session db1) = false
     /\ forall rest,
          for_each (local_iteration env svc storage_path github_repo)
                   (item :: rest) count db
          = for_each (local_iteration env svc storage_path github_repo)
                     rest count (rollback_session db1))
  /\ (forall token org count c sid db db1 e,
        web_body env svc storage_path github_repo token org count
                 (String c sid) db
        = (db1, Raise e) ->
        let info := {| info_session_id := Some (String c sid) |} in
        committed db1 = committed db
        /\ web_iteration env svc storage_path github_repo token org count
                         info db
           = (rollback_session db1, Ok count)
        /\ committed (rollback_session db1) = committed db
        /\ txn (rollback_session db1) = committed db
        /\ inactive (rollback_session db1) = false
        /\ forall rest,
             for_each (web_iteration env svc storage_path github_repo
                                     token org)
                      (info :: rest) count db
             = for_each (web_iteration env svc storage_path github_repo
                                       token org)
                        rest count (rollback_session db1))
  /\ (forall count session_path summary db e,
        parse_session_file env session_path = Raise e ->
        local_body env svc storage_path github_repo count
                   (session_path, summary) db
        = (db, Raise e))
  /\ (forall count session_path summary db session_data e,
        parse_session_file env session_path = Ok session_data ->
        inactive db = false ->
        needs_update
          (find (fun c => String.eqb (session_id c)
                                     (path_stem env session_path))
                (conversations (txn db)))
          session_data = true ->
        makedirs env (path_join env storage_path
                                (path_stem env session_path)) = Ok tt ->
        generate_html env session_path
          (path_join env storage_path (path_stem env session_path))
          github_repo = Raise e ->
        local_body env svc storage_path github_repo count
                   (session_path, summary) db
        = (db, Raise e))
  /\ (forall count session_path summary db session_data db1 e,
        let sid := path_stem env session_path in
        let existing :=
          find (fun c => String.eqb (session_id c) sid)
               (conversations (txn db)) in
        parse_session_file env session_path = Ok session_data ->
        inactive db = false ->
        needs_update existing session_data = true ->
        makedirs env (path_join env storage_path sid) = Ok tt ->
        generate_html env session_path (path_join env storage_path sid)
                      github_repo = Ok tt ->
        (upsert_conversation existing sid "local" (utcnow env sid)
           (Z.of_nat (length (get_loglines session_data)))
           (path_join env storage_path sid) (local_first_message summary) ;;;
         commit) db = (db1, Raise e) ->
        local_body env svc storage_path github_repo count
                   (session_path, summary) db
        = (db1, Raise e))
  /\ (forall token org count sid db e,
        fetch_session env token org sid = Raise e ->
        web_body env svc storage_path github_repo token org count sid db
        = (db, Raise e))
  /\ (forall token org count sid db session_data e,
        fetch_session env token org sid = Ok session_data ->
        inactive db = false ->
        needs_update
          (find (fun c => String.eqb (session_id c) sid)
                (conversations (txn db)))
          session_data = true ->
        makedirs env (path_join env storage_path sid) = Ok tt ->
        generate_html_from_session_data env session_data
          (path_join env storage_path sid) github_repo = Raise e ->
        web_body env svc storage_path github_repo token org count sid db
        = (db, Raise e))
  /\ (forall token org count sid db session_data db1 e,
        let existing :=
          find (fun c => String.eqb (session_id c) sid)
               (conversations (txn db)) in
        fetch_session env token org sid = Ok session_data ->
        inactive db = false ->
        needs_update existing session_data = true ->
        makedirs env (path_join env storage_path sid) = Ok tt ->
        generate_html_from_session_data env session_data
          (path_join env storage_path sid) github_repo = Ok tt ->
        (upsert_conversation existing sid "web" (utcnow env sid)
           (Z.of_nat (length (get_loglines session_data)))
           (path_join env storage_path sid)
           (web_first_message session_data) ;;;
         commit) db = (db1, Raise e) ->
        web_body env svc storage_path github_repo token org count sid db
        = (db1, Raise e))
  /\ (forall dir limit db,
        exists db' n,
          sync_local_sessions env svc storage_path dir limit github_repo db
          = (db', Ok n))
  /\ (forall token org limit db,
        exists db' n,
          sync_web_sessions env svc storage_path token org limit
                            github_repo db
          = (db', Ok n)).
Proof.
  repeat match goal with |- _ /\ _ => split end.
  - intros count item db db1 e Hbody.
    pose proof (@hoare_run_raise _ _ _ _ _ db db1 e
                  (@committed_local_body (committed db) env svc
                     storage_path github_repo count item)
                  eq_refl Hbody) as Hc.
    pose proof (@guarded_turn_raise _ count db db1 e Hbody) as Hturn.
    simpl in Hc.
    repeat split; auto.
    intros rest. now apply for_each_cons.
  - intros token org count c sid db db1 e Hbody info.
    pose proof (@hoare_run_raise _ _ _ _ _ db db1 e
                  (@committed_web_body (committed db) env svc
                     storage_path github_repo token org count (String c sid))
                  eq_refl Hbody) as Hc.
    pose proof (@guarded_turn_raise _ count db db1 e Hbody) as Hturn.
    simpl in Hc.
    repeat split; auto.
    intros rest. now apply for_each_cons.
  - intros count session_path summary db e Hparse.
    unfold local_body, local_prepare, bind, lift. now rewrite Hparse.
  - intros count session_path summary db sd e Hparse Hact Hneeds Hmk Hgen.
    unfold local_body, local_prepare, bind, lift, query_conversation.
    rewrite Hparse, Hact, Hneeds. simpl. now rewrite Hmk, Hgen.
  - intros count session_path summary db sd db1 e sid existing
           Hparse Hact Hneeds Hmk Hgen Hdb.
    unfold local_body, local_prepare, bind at 1 2 3 4 5, lift,
      query_conversation.
    rewrite Hparse, Hact. fold sid. fold existing. rewrite Hneeds. simpl.
    rewrite Hmk, Hgen. revert Hdb. unfold bind.
    destruct (upsert_conversation _ _ _ _ _ _ _ db) as [db' [cid|e']];
      [|intros H; now inversion H].
    destruct (commit db') as [db'' [[]|e'']]; [discriminate|].
    intros H; now inversion H.
  - intros token org count sid db e Hfetch.
    unfold web_body, web_prepare, bind, lift. now rewrite Hfetch.
  - intros token org count sid db sd e Hfetch Hact Hneeds Hmk Hgen.
    unfold web_body, web_prepare, bind, lift, query_conversation.
    rewrite Hfetch, Hact, Hneeds. simpl. now rewrite Hmk, Hgen.
  - intros token org count sid db sd db1 e existing
           Hfetch Hact Hneeds Hmk Hgen Hdb.
    unfold web_body, web_prepare, bind at 1 2 3 4 5, lift,
      query_conversation.
    rewrite Hfetch, Hact. fold existing. rewrite Hneeds. simpl.
    rewrite Hmk, Hgen. revert Hdb. unfold bind.
    destruct (upsert_conversation _ _ _ _ _ _ _ db) as [db' [cid|e']];
      [|intros H; now inversion H].
    destruct (commit db') as [db'' [[]|e'']]; [discriminate|].
    intros H; now inversion H.
  - intros. apply sync_local_sessions_total.
  - intros. apply sync_web_sessions_total.
Qed.

(** ** The Conversation row is committed before the embeddings *)

Lemma preserves_relax {A} (P : DbSession -> Prop) (c : M A) :
  preserves P c -> hoare P c (fun _ => P) (fun _ => True).
Proof.
  intros H. eapply hoare_weaken; [exact H | | |]; simpl; auto.
Qed.

Lemma query_finds (sid : string) :
  hoare (fun _ => True) (query_conversation sid)
        (fun existing db => existing_in existing db) (fun _ => True).
Proof.
  intros db _. unfold query_conversation.
  destruct (inactive db); [exact I|].
  destruct (find _ _) as [row|] eqn:Hfind; simpl; [|exact I].
  now apply find_some in Hfind.
Qed.

Lemma upsert_row (existing : option Conversation) (sid src : string)
    (now count : Z) (dir : string) (preview : option pystr) :
  hoare (existing_in existing)
        (upsert_conversation existing sid src now count dir preview)
        (fun cid db =>
           exists row, In row (conversations (txn db))
                       /\ conv_id row = cid /\ message_count row = count)
        (fun _ => True).
Proof.
  intros db Hin. destruct existing as [row|]; simpl in *.
  - unfold bind, update_conversation, ret; simpl.
    eexists. split; [|split].
    + apply in_map_iff. exists row. split; [|exact Hin].
      rewrite Z.eqb_refl. reflexivity.
    + reflexivity.
    + reflexivity.
  - unfold add_flush_conversation.
    destruct (inactive db); [exact I|].
    destruct (engine_accepts db _); [|exact I]. simpl.
    eexists. split; [apply in_or_app; right; left; reflexivity|].
    split; reflexivity.
Qed.

Lemma commit_publishes (R : Tables -> Prop) :
  hoare (fun db => R (txn db)) commit
        (fun _ db => committed db = txn db /\ inactive db = false
                     /\ R (committed db))
        (fun _ => True).
Proof.
  intros db HR. unfold commit.
  destruct (inactive db); [exact I|].
  destruct (engine_accepts db (txn db)); [|exact I]. simpl. auto.
Qed.

Lemma upsert_commit_row existing sid src now count dir preview sd :
  hoare (existing_in existing)
    (conversation_id <-
       upsert_conversation existing sid src now count dir preview ;;
     commit ;;;
     ret (Some {| prep_conversation_id := conversation_id;
                  prep_first_message := preview;
                  prep_session_data := sd |}))
    (fun r db =>
       match r with
       | Some p =>
           conversation_committed (prep_conversation_id p) count db
           /\ prep_session_data p = sd /\ prep_first_message p = preview
       | None => True
       end)
    (fun _ => True).
Proof.
  eapply hoare_bind; [apply upsert_row|]. intros cid.
  eapply hoare_bind.
  { apply (commit_publishes
             (fun t => exists row, In row (conversations t)
                                   /\ conv_id row = cid
                                   /\ message_count row = count)). }
  intros ? db [Hc [Hact Hrow]]. simpl.
  unfold conversation_committed. auto.
Qed.

Lemma local_prepare_row env storage_path github_repo session_path summary :
  hoare (fun _ => True)
    (local_prepare env storage_path github_repo (session_path, summary))
    (fun r db =>
       match r with
       | Some p =>
           conversation_committed (prep_conversation_id p)
             (Z.of_nat (length (get_loglines (prep_session_data p)))) db
           /\ prep_first_message p = local_first_message summary
       | None => True
       end)
    (fun _ => True).
Proof.
  unfold local_prepare.
  eapply hoare_bind; [apply hoare_lift|]. intros sd.
  eapply hoare_bind with (Q1 := fun existing db => existing_in existing db).
  { eapply hoare_weaken; [apply query_finds | | |]; simpl; auto. }
  intros existing.
  destruct (negb (needs_update existing sd)).
  { intros db _. exact I. }
  eapply hoare_bind with (Q1 := fun _ => existing_in existing).
  { apply preserves_relax, preserves_lift. }
  intros ?.
  eapply hoare_bind with (Q1 := fun _ => existing_in existing).
  { apply preserves_relax, preserves_lift. }
  intros ?.
  eapply hoare_weaken; [apply upsert_commit_row | | |]; simpl; auto.
  intros [p|] db; [|auto]. intros [Hc [Hsd Hfm]]. rewrite Hsd. auto.
Qed.

Lemma web_prepare_row env storage_path github_repo token org sid :
  hoare (fun _ => True)
    (web_prepare env storage_path github_repo token org sid)
    (fun r db =>
       match r with
       | Some p =>
           conversation_committed (prep_conversation_id p)
             (Z.of_nat (length (get_loglines (prep_session_data p)))) db
           /\ prep_first_message p = web_first_message (prep_session_data p)
       | None => True
       end)
    (fun _ => True).
Proof.
  unfold web_prepare.
  eapply hoare_bind; [apply hoare_lift|]. intros sd.
  eapply hoare_bind with (Q1 := fun existing db => existing_in existing db).
  { eapply hoare_weaken; [apply query_finds | | |]; simpl; auto. }
  intros existing.
  destruct (negb (needs_update existing sd)).
  { intros db _. exact I. }
  eapply hoare_bind with (Q1 := fun _ => existing_in existing).
  { apply preserves_relax, preserves_lift. }
  intros ?.
  eapply hoare_bind with (Q1 := fun _ => existing_in existing).
  { apply preserves_relax, preserves_lift. }
  intros ?.
  eapply hoare_weaken; [apply upsert_commit_row | | |]; simpl; auto.
  intros [p|] db; [|auto]. intros [Hc [Hsd Hfm]]. rewrite Hsd, Hfm. auto.
Qed.

(** The rest of a turn once the Conversation row is committed and
    [store_embeddings] raises: the exception is dropped and the session is
    counted. *)
Lemma counted_despite_raise (svc : EmbeddingService)
    (prepare : M (option Prepared))
    (count : Z) (p : Prepared) (user_queries : list UserQuery)
    (db db1 db2 : DbSession) (e : exn) :
  prepare db = (db1, Ok (Some p)) ->
  extract_user_queries (prep_session_data p) default_prompts_per_page
  = Ok user_queries ->
  store_embeddings svc (prep_conversation_id p)
                   (or_empty (prep_first_message p)) user_queries db1
  = (db2, Raise e) ->
  try_except
    (prepared <- prepare ;;
     match prepared with
     | None => ret count
     | Some p => embed_step svc p ;;; ret (count + 1)
     end)
    (fun _ => rollback ;;; ret count) db
  = (db2, Ok (count + 1)).
Proof.
  intros Hprep Hextract Hstore.
  rewrite extract_user_queries_ok in Hextract by discriminate.
  inversion Hextract; subst user_queries.
  unfold try_except, bind at 1. rewrite Hprep.
  unfold bind. rewrite embed_step_run, Hstore. reflexivity.
Qed.

(** C7: once the Conversation row of a session is committed, a
    [store_embeddings] that raises is dropped by the inner handler: the
    committed state stays as the commit left it (the row is there with the
    new message count, no rollback), the session is counted, and the loop
    goes on from the session as [store_embeddings] left it; in the local and
    in the web loop. *)
Theorem embedding_failure_kept_apart (env : Env) (svc : EmbeddingService)
    (storage_path : string) (github_repo : option string) :
  (forall count session_path summary db db1 p user_queries db2 e,
     local_prepare env storage_path github_repo (session_path, summary) db
     = (db1, Ok (Some p)) ->
     extract_user_queries (prep_session_data p) default_prompts_per_page
     = Ok user_queries ->
     store_embeddings svc (prep_conversation_id p)
                      (or_empty (prep_first_message p)) user_queries db1
     = (db2, Raise e) ->
     conversation_committed (prep_conversation_id p)
       (Z.of_nat (length (get_loglines (prep_session_data p)))) db1
     /\ committed db2 = committed db1
     /\ local_iteration env svc storage_path github_repo count
                        (session_path, summary) db
        = (db2, Ok (count + 1))
     /\ forall rest,
          for_each (local_iteration env svc storage_path github_repo)
                   ((session_path, summary) :: rest) count db
          = for_each (local_iteration env svc storage_path github_repo)
                     rest (count + 1) db2)
  /\ (forall token org count c sid db db1 p user_queries db2 e,
        web_prepare env storage_path github_repo token org (String c sid) db
        = (db1, Ok (Some p)) ->
        extract_user_queries (prep_session_data p) default_prompts_per_page
        = Ok user_queries ->
        store_embeddings svc (prep_conversation_id p)
                         (or_empty (prep_first_message p)) user_queries db1
        = (db2, Raise e) ->
        let info := {| info_session_id := Some (String c sid) |} in
        conversation_committed (prep_conversation_id p)
          (Z.of_nat (length (get_loglines (prep_session_data p)))) db1
        /\ committed db2 = committed db1
        /\ web_iteration env svc storage_path github_repo token org count
                         info db
           = (db2, Ok (count + 1))
        /\ forall rest,
             for_each (web_iteration env svc storage_path github_repo
                                     token org)
                      (info :: rest) count db
             = for_each (web_iteration env svc storage_path github_repo
                                       token org)
                        rest (count + 1) db2).
Proof.
  split.
  - intros count session_path summary db db1 p uq db2 e Hprep Hext Hstore.
    pose proof (@hoare_run_ok _ _ _ _ _ db db1 _
                  (local_prepare_row env storage_path github_repo
                                     session_path summary) I Hprep)
      as [Hrow _].
    pose proof (@hoare_run_raise _ _ _ _ _ db1 db2 e
                  (@committed_store_embeddings (committed db1) svc _ _ _)
                  eq_refl Hstore) as Hc. simpl in Hc.
    pose proof (@counted_despite_raise svc _ count p uq db db1 db2 e
                  Hprep Hext Hstore) as Hturn.
    split; [exact Hrow|]. split; [exact Hc|]. split; [exact Hturn|].
    intros rest. now apply for_each_cons.
  - intros token org count c sid db db1 p uq db2 e Hprep Hext Hstore info.
    pose proof (@hoare_run_ok _ _ _ _ _ db db1 _
                  (web_prepare_row env storage_path github_repo token org
                                   (String c sid)) I Hprep)
      as [Hrow _].
    pose proof (@hoare_run_raise _ _ _ _ _ db1 db2 e
                  (@committed_store_embeddings (committed db1) svc _ _ _)
                  eq_refl Hstore) as Hc. simpl in Hc.
    pose proof (@counted_despite_raise svc _ count p uq db db1 db2 e
                  Hprep Hext Hstore) as Hturn.
    split; [exact Hrow|]. split; [exact Hc|]. split; [exact Hturn|].
    intros rest. now apply for_each_cons.
Qed.

(** ** Stored summaries stay within 200 characters *)

Lemma hoare_conj {A} (P P' : DbSession -> Prop) (c : M A)
    (Q Q' : A -> DbSession -> Prop) (E E' : DbSession -> Prop) :
  hoare P c Q E -> hoare P' c Q' E' ->
  hoare (fun db => P db /\ P' db) c
        (fun a db => Q a db /\ Q' a db) (fun db => E db /\ E' db).
Proof.
  intros H H' db [HP HP']. specialize (H db HP). specialize (H' db HP').
  destruct (c db) as [db1 [a|e]]; auto.
Qed.

Lemma or_empty_local_first_message (summary : option pystr) :
  or_empty (local_first_message summary) = []
  \/ exists full,
       summary = Some full
       /\ or_empty (local_first_message summary) = firstn 200 full.
Proof.
  destruct summary as [[|c s]|]; simpl; auto.
  right. exists (c :: s). auto.
Qed.

Lemma first_string_content_first (lines : list Logline) (s : pystr) :
  first_string_content lines = Some s ->
  exists before line c after,
    lines = before ++ line :: after
    /\ Forall (fun l => has_text l = false) before
    /\ content line = Some (JStr c) /\ c <> [] /\ s = firstn 200 c.
Proof.
  induction lines as [|line rest IH]; simpl; [discriminate|].
  intros H.
  assert (Hrest : has_text line = false ->
                  first_string_content rest = Some s ->
                  exists before line' c after,
                    line :: rest = before ++ line' :: after
                    /\ Forall (fun l => has_text l = false) before
                    /\ content line' = Some (JStr c) /\ c <> []
                    /\ s = firstn 200 c).
  { intros Hno Hs. destruct (IH Hs) as [before [l' [c [after [Heq [Hb Hc]]]]]].
    exists (line :: before), l', c, after. rewrite Heq.
    split; [reflexivity|]. split; [constructor; assumption | exact Hc]. }
  unfold has_text in Hrest.
  destruct (content line) as [[| | |c| |]|] eqn:Hc; auto.
  destruct (str_truthy c) eqn:Ht; auto.
  inversion H; subst s.
  exists [], line, c, rest. repeat split; auto.
  intros ->; discriminate.
Qed.

Lemma or_empty_web_first_message (session_data : SessionData) :
  or_empty (web_first_message session_data) = []
  \/ exists before line c after,
       get_loglines session_data = before ++ line :: after
       /\ Forall (fun l => has_text l = false) before
       /\ content line = Some (JStr c) /\ c <> []
       /\ or_empty (web_first_message session_data) = firstn 200 c.
Proof.
  assert (Hw : web_first_message session_data
               = first_string_content (get_loglines session_data)).
  { unfold web_first_message, get_loglines.
    destruct (loglines session_data) as [[|l ls]|]; reflexivity. }
  rewrite Hw.
  destruct (first_string_content (get_loglines session_data)) as [s|] eqn:Hs;
    [|left; reflexivity].
  apply first_string_content_first in Hs.
  destruct Hs as [before [line [c [after [Heq [Hb [Hc [Hne Hs]]]]]]]].
  unfold or_empty. destruct (str_truthy s); [|left; reflexivity].
  right. exists before, line, c, after. repeat split; assumption.
Qed.

Lemma short_text_kept (s : pystr) :
  (length s <= 200)%nat -> firstn 500 s = s.
Proof. intros H. apply firstn_all2. lia. Qed.

Lemma or_empty_local_short (summary : option pystr) :
  (length (or_empty (local_first_message summary)) <= 200)%nat.
Proof.
  destruct (or_empty_local_first_message summary) as [H | [full [_ H]]];
    rewrite H; [simpl; lia | apply firstn_le_length].
Qed.

Lemma or_empty_web_short (session_data : SessionData) :
  (length (or_empty (web_first_message session_data)) <= 200)%nat.
Proof.
  destruct (or_empty_web_first_message session_data)
    as [H | [b [l [c [a [_ [_ [_ [_ H]]]]]]]]];
    rewrite H; [simpl; lia | apply firstn_le_length].
Qed.

Lemma Forall_filter {A} (P : A -> Prop) (f : A -> bool) (l : list A) :
  Forall P l -> Forall P (filter f l).
Proof.
  intros H. apply Forall_forall. intros x Hin. apply filter_In in Hin.
  rewrite Forall_forall in H. apply H. tauto.
Qed.

Ltac short_op :=
  let db := fresh "db" in
  let H := fresh "H" in
  intros db H; destruct H;
  cbv beta zeta delta [query_conversation update_conversation
    add_flush_conversation delete_conversation_embeddings
    delete_message_embeddings add_conversation_embedding
    commit rollback rollback_session with_txn deactivate];
  repeat match goal with
         | |- context [if ?c then _ else _] => destruct c eqn:?
         end;
  unfold short_summaries, summaries_short in *; simpl;
  auto using Forall_filter.

Lemma short_query sid : preserves short_summaries (query_conversation sid).
Proof. short_op. Qed.

Lemma short_update id now count path preview :
  preserves short_summaries (update_conversation id now count path preview).
Proof. short_op. Qed.

Lemma short_add_flush sid src now count path preview :
  preserves short_summaries
            (add_flush_conversation sid src now count path preview).
Proof. short_op. Qed.

Lemma short_delete_ce cid :
  preserves short_summaries (delete_conversation_embeddings cid).
Proof. short_op. Qed.

Lemma short_delete_me cid :
  preserves short_summaries (delete_message_embeddings cid).
Proof. short_op. Qed.

Lemma short_commit : preserves short_summaries commit.
Proof. short_op. Qed.

Lemma short_rollback : preserves short_summaries rollback.
Proof. short_op. Qed.

Lemma short_add_ce cid text embedding :
  (length text <= 200)%nat ->
  preserves short_summaries (add_conversation_embedding cid text embedding).
Proof.
  intros Hlen. short_op. split; [|assumption].
  apply Forall_app. split; [assumption|].
  constructor; [exact Hlen | constructor].
Qed.

Lemma short_add_me cid pairs :
  preserves short_summaries (add_message_embeddings cid pairs).
Proof.
  intros db H. rewrite add_message_embeddings_run. exact H.
Qed.

Lemma short_upsert existing sid src now count dir preview :
  preserves short_summaries
            (upsert_conversation existing sid src now count dir preview).
Proof.
  destruct existing as [row|]; simpl.
  - apply preserves_bind; [apply short_update|].
    intros ?. apply preserves_ret.
  - apply short_add_flush.
Qed.

Lemma short_store_embeddings svc cid summary user_queries :
  (length summary <= 200)%nat ->
  preserves short_summaries (store_embeddings svc cid summary user_queries).
Proof.
  intros Hlen. unfold store_embeddings.
  apply preserves_bind; [apply short_delete_ce|]. intros ?.
  apply preserves_bind; [apply short_delete_me|]. intros ?.
  apply preserves_bind.
  { destruct (str_truthy summary); [|apply preserves_ret].
    apply preserves_bind; [apply preserves_lift|].
    intros e. apply short_add_ce.
    rewrite short_text_kept; assumption. }
  intros ?.
  apply preserves_bind.
  { destruct user_queries; [apply preserves_ret|].
    apply preserves_bind; [apply preserves_lift|].
    intros es. apply short_add_me. }
  intros ?. apply short_commit.
Qed.

Lemma short_embed_step svc p :
  (length (or_empty (prep_first_message p)) <= 200)%nat ->
  preserves short_summaries (embed_step svc p).
Proof.
  intros Hlen. unfold embed_step.
  apply preserves_try; [|intros e; apply preserves_ret].
  apply preserves_bind; [apply preserves_lift|].
  intros uq. now apply short_store_embeddings.
Qed.

Lemma short_local_prepare env storage_path github_repo item :
  preserves short_summaries
            (local_prepare env storage_path github_repo item).
Proof.
  unfold local_prepare. destruct item as [session_path summary].
  apply preserves_bind; [apply preserves_lift|]. intros sd.
  apply preserves_bind; [apply short_query|]. intros existing.
  destruct (negb (needs_update existing sd)); [apply preserves_ret|].
  apply preserves_bind; [apply preserves_lift|]. intros ?.
  apply preserves_bind; [apply preserves_lift|]. intros ?.
  apply preserves_bind; [apply short_upsert|]. intros cid.
  apply preserves_bind; [apply short_commit|]. intros ?.
  apply preserves_ret.
Qed.

Lemma short_web_prepare env storage_path github_repo token org sid :
  preserves short_summaries
            (web_prepare env storage_path github_repo token org sid).
Proof.
  unfold web_prepare.
  apply preserves_bind; [apply preserves_lift|]. intros sd.
  apply preserves_bind; [apply short_query|]. intros existing.
  destruct (negb (needs_update existing sd)); [apply preserves_ret|].
  apply preserves_bind; [apply preserves_lift|]. intros ?.
  apply preserves_bind; [apply preserves_lift|]. intros ?.
  apply preserves_bind; [apply short_upsert|]. intros cid.
  apply preserves_bind; [apply short_commit|]. intros ?.
  apply preserves_ret.
Qed.

Lemma short_turn (svc : EmbeddingService) (prepare : M (option Prepared))
    (count : Z) :
  hoare short_summaries prepare
        (fun r db => short_summaries db /\ short_preview r)
        short_summaries ->
  preserves short_summaries
    (try_except
       (prepared <- prepare ;;
        match prepared with
        | None => ret count
        | Some p => embed_step svc p ;;; ret (count + 1)
        end)
       (fun _ => rollback ;;; ret count)).
Proof.
  intros Hprep. apply preserves_try.
  2:{ intros e. apply preserves_bind; [apply short_rollback|].
      intros ?. apply preserves_ret. }
  eapply hoare_bind; [exact Hprep|].
  intros [p|].
  - intros db [Hdb Hp]. revert db Hdb.
    change (preserves short_summaries
              (embed_step svc p ;;; ret (count + 1))).
    apply preserves_bind; [now apply short_embed_step|].
    intros ?. apply preserves_ret.
  - intros db [Hdb _]. exact Hdb.
Qed.

Lemma short_local_prepare_preview env storage_path github_repo item :
  hoare short_summaries (local_prepare env storage_path github_repo item)
        (fun r db => short_summaries db /\ short_preview r)
        short_summaries.
Proof.
  destruct item as [session_path summary].
  eapply hoare_weaken.
  - apply (hoare_conj
             (short_local_prepare env storage_path github_repo
                                  (session_path, summary))
             (local_prepare_row env storage_path github_repo
                                session_path summary)).
  - intros db H; split; [exact H | exact I].
  - intros [p|] db [H Hrow]; (split; [exact H|]); [|exact I].
    destruct Hrow as [_ Hfm]. unfold short_preview. rewrite Hfm.
    apply or_empty_local_short.
  - intros db [H _]; exact H.
Qed.

Lemma short_web_prepare_preview env storage_path github_repo token org sid :
  hoare short_summaries
        (web_prepare env storage_path github_repo token org sid)
        (fun r db => short_summaries db /\ short_preview r)
        short_summaries.
Proof.
  eapply hoare_weaken.
  - apply (hoare_conj
             (short_web_prepare env storage_path github_repo token org sid)
             (web_prepare_row env storage_path github_repo token org sid)).
  - intros db H; split; [exact H | exact I].
  - intros [p|] db [H Hrow]; (split; [exact H|]); [|exact I].
    destruct Hrow as [_ Hfm]. unfold short_preview. rewrite Hfm.
    apply or_empty_web_short.
  - intros db [H _]; exact H.
Qed.

Lemma short_local_iteration env svc storage_path github_repo count item :
  preserves short_summaries
            (local_iteration env svc storage_path github_repo count item).
Proof. apply short_turn, short_local_prepare_preview. Qed.

Lemma short_web_iteration env svc storage_path github_repo token org
    count info :
  preserves short_summaries
    (web_iteration env svc storage_path github_repo token org count info).
Proof.
  unfold web_iteration.
  destruct (info_session_id info) as [[|c sid]|];
    try apply preserves_ret.
  apply short_turn, short_web_prepare_preview.
Qed.

Lemma short_sync_local env svc storage_path dir limit github_repo :
  preserves short_summaries
    (sync_local_sessions env svc storage_path dir limit github_repo).
Proof.
  unfold sync_local_sessions.
  destruct (find_local_sessions env _ limit) as [sessions|e];
    [|apply preserves_ret].
  apply preserves_for_each. intros. apply short_local_iteration.
Qed.

Lemma short_sync_web env svc storage_path token org limit github_repo :
  preserves short_summaries
    (sync_web_sessions env svc storage_path token org limit github_repo).
Proof.
  unfold sync_web_sessions.
  destruct (resolve_credentials env token org) as [[token' org']|e];
    [|apply preserves_ret].
  destruct (fetch_sessions env token' org') as [sessions|e];
    [|apply preserves_ret].
  apply preserves_for_each. intros. apply short_web_iteration.
Qed.

Lemma preserves_run {A} (P : DbSession -> Prop) (c : M A) (db : DbSession) :
  preserves P c -> P db -> P (fst (c db)).
Proof.
  intros H HP. specialize (H db HP).
  destruct (c db) as [db' [a|e]]; exact H.
Qed.

(** C10: the summary handed to [store_embeddings] is empty or the first 200
    characters of the local summary, respectively of the first logline whose
    content is a non-empty string (web); it has at most 200 characters, so
    cutting it at 500 changes nothing; and every run of either sync function
    keeps all stored summary texts within 200 characters. *)
Theorem summary_text_within_200 :
  (forall summary,
     let s := or_empty (local_first_message summary) in
     (s = [] \/ exists full, summary = Some full /\ s = firstn 200 full)
     /\ (length s <= 200)%nat
     /\ firstn 500 s = s)
  /\ (forall session_data,
        let s := or_empty (web_first_message session_data) in
        (s = []
         \/ exists before line c after,
              get_loglines session_data = before ++ line :: after
              /\ Forall (fun l => has_text l = false) before
              /\ content line = Some (JStr c) /\ c <> []
              /\ s = firstn 200 c)
        /\ (length s <= 200)%nat
        /\ firstn 500 s = s)
  /\ (forall env storage_path github_repo session_path summary db db1 p,
        local_prepare env storage_path github_repo (session_path, summary) db
        = (db1, Ok (Some p)) ->
        prep_first_message p = local_first_message summary)
  /\ (forall env storage_path github_repo token org sid db db1 p,
        web_prepare env storage_path github_repo token org sid db
        = (db1, Ok (Some p)) ->
        prep_first_message p = web_first_message (prep_session_data p))
  /\ (forall env svc storage_path dir limit github_repo db,
        short_summaries db ->
        short_summaries
          (fst (sync_local_sessions env svc storage_path dir limit
                                    github_repo db)))
  /\ (forall env svc storage_path token org limit github_repo db,
        short_summaries db ->
        short_summaries
          (fst (sync_web_sessions env svc storage_path token org limit
                                  github_repo db))).
Proof.
  split; [|split; [|split; [|split; [|split]]]].
  - intros summary s. subst s.
    split; [apply or_empty_local_first_message|].
    split; [apply or_empty_local_short|].
    apply short_text_kept, or_empty_local_short.
  - intros session_data s. subst s.
    split; [apply or_empty_web_first_message|].
    split; [apply or_empty_web_short|].
    apply short_text_kept, or_empty_web_short.
  - intros env sp gr path summary db db1 p Hprep.
    now destruct (@hoare_run_ok _ _ _ _ _ db db1 _
                    (local_prepare_row env sp gr path summary) I Hprep).
  - intros env sp gr token org sid db db1 p Hprep.
    now destruct (@hoare_run_ok _ _ _ _ _ db db1 _
                    (web_prepare_row env sp gr token org sid) I Hprep).
  - intros env svc sp dir limit gr db Hdb.
    exact (@preserves_run _ _ _ db
             (short_sync_local env svc sp dir limit gr) Hdb).
  - intros env svc sp token org limit gr db Hdb.
    exact (@preserves_run _ _ _ db
             (short_sync_web env svc sp token org limit gr) Hdb).
Qed.


(** ** Sorting *)

Lemma insert_by_perm {A} (before : A -> A -> bool) (x : A) (l : list A) :
  Permutation (insert_by before x l) (x :: l).
Proof.
  induction l as [|y l IH]; simpl; [reflexivity|].
  destruct (before x y); [reflexivity|].
  rewrite IH. apply perm_swap.
Qed.

Lemma sort_by_perm {A} (before : A -> A -> bool) (l : list A) :
  Permutation (sort_by before l) l.
Proof.
  induction l as [|x l IH]; simpl; [reflexivity|].
  rewrite insert_by_perm. now constructor.
Qed.

Section Sorting.
Variables (A : Type) (before : A -> A -> bool).
Hypothesis before_total :
  forall x y, before x y = false -> before y x = true.
Hypothesis before_trans :
  forall x y z, before x y = true -> before y z = true ->
                before x z = true.

Lemma insert_by_sorted (x : A) (l : list A) :
  StronglySorted (ordered_by before) l ->
  StronglySorted (ordered_by before) (insert_by before x l).
Proof.
  induction 1 as [|y l Hs IH Hall]; simpl.
  - repeat constructor.
  - destruct (before x y) eqn:Hxy.
    + constructor; [now constructor|].
      constructor; [exact Hxy|].
      eapply Forall_impl; [|exact Hall].
      intros z Hz. exact (before_trans Hxy Hz).
    + constructor; [exact IH|].
      apply Forall_forall. intros z Hz.
      apply (Permutation_in _ (insert_by_perm before x l)) in Hz.
      destruct Hz as [<- | Hz]; [now apply before_total|].
      rewrite Forall_forall in Hall. now apply Hall.
Qed.

Lemma sort_by_sorted (l : list A) :
  StronglySorted (ordered_by before) (sort_by before l).
Proof.
  induction l as [|x l IH]; simpl; [constructor|].
  now apply insert_by_sorted.
Qed.
End Sorting.

Lemma firstn_in {A} (n : nat) (l : list A) (x : A) :
  In x (firstn n l) -> In x l.
Proof.
  revert n; induction l as [|y l IH]; intros [|n]; simpl; try tauto.
  intros [H | H]; [now left | right; now apply (IH n)].
Qed.

Lemma firstn_sorted {A} (R : A -> A -> Prop) (n : nat) (l : list A) :
  StronglySorted R l -> StronglySorted R (firstn n l).
Proof.
  intros H. revert n. induction H as [|x l Hs IH Hall]; intros [|n]; simpl;
    try constructor; [apply IH|].
  apply Forall_forall. intros y Hy. rewrite Forall_forall in Hall.
  apply Hall. now apply firstn_in in Hy.
Qed.

(** A slice is a prefix. *)
Lemma slice_to_prefix {A} (n : Z) (l : list A) :
  exists k, slice_to n l = firstn k l.
Proof. unfold slice_to. destruct (0 <=? n); eauto. Qed.

Lemma slice_to_length {A} (n : Z) (l : list A) :
  0 <= n -> Z.of_nat (length (slice_to n l)) <= n.
Proof.
  intros Hn. unfold slice_to.
  destruct (0 <=? n) eqn:E; [|apply Z.leb_gt in E; lia].
  pose proof (firstn_le_length (Z.to_nat n) l). lia.
Qed.

(** ** search_transcripts *)

Lemma Rleb_total (x y : R) : Rleb x y = false -> Rleb y x = true.
Proof.
  unfold Rleb. destruct (Rle_dec x y); [discriminate|].
  intros _. destruct (Rle_dec y x); [reflexivity | lra].
Qed.

Lemma Rleb_trans (x y z : R) :
  Rleb x y = true -> Rleb y z = true -> Rleb x z = true.
Proof.
  unfold Rleb.
  destruct (Rle_dec x y); [|discriminate].
  destruct (Rle_dec y z); [|discriminate].
  destruct (Rle_dec x z); [reflexivity | lra].
Qed.

Lemma Rleb_le (x y : R) : Rleb x y = true -> (x <= y)%R.
Proof. unfold Rleb. destruct (Rle_dec x y); [auto | discriminate]. Qed.

Lemma le_Rleb (x y : R) : (x <= y)%R -> Rleb x y = true.
Proof. unfold Rleb. destruct (Rle_dec x y); [reflexivity | contradiction]. Qed.

(** The order of [ORDER BY] is total on doubles, NaN included. *)
Lemma sql_leb_total (x y : pyfloat) : sql_leb x y = false -> sql_leb y x = true.
Proof.
  destruct x as [a|], y as [b|]; simpl; try discriminate; try reflexivity.
  apply Rleb_total.
Qed.

Lemma sql_leb_trans (x y z : pyfloat) :
  sql_leb x y = true -> sql_leb y z = true -> sql_leb x z = true.
Proof.
  destruct x as [a|], y as [b|], z as [c|]; simpl;
    try discriminate; try reflexivity.
  apply Rleb_trans.
Qed.

(** On numbers Python's comparison is that of the reals. *)
Lemma float_leb_le (x y : pyfloat) : float_leb x y = true <-> float_le x y.
Proof.
  destruct x as [a|], y as [b|]; simpl; split;
    try discriminate; try contradiction.
  - apply Rleb_le.
  - apply le_Rleb.
Qed.

Lemma float_le_number (x y : pyfloat) :
  float_le x y -> x <> NaN /\ y <> NaN.
Proof.
  destruct x, y; simpl; try contradiction. intros _. split; discriminate.
Qed.

Lemma strongly_sorted_weaken {A} (R R' : A -> A -> Prop) (l : list A) :
  (forall x y, R x y -> R' x y) ->
  StronglySorted R l -> StronglySorted R' l.
Proof.
  intros HR. induction 1 as [|x l Hs IH Hall]; constructor; [exact IH|].
  eapply Forall_impl; [|exact Hall]. intros y; apply HR.
Qed.

Lemma strongly_sorted_weaken_in {A} (R R' : A -> A -> Prop) (l : list A) :
  (forall x y, In x l -> In y l -> R x y -> R' x y) ->
  StronglySorted R l -> StronglySorted R' l.
Proof.
  intros HR Hs. induction Hs as [|x l Hs IH Hall]; constructor.
  - apply IH. intros a b Ha Hb. apply HR; now right.
  - rewrite Forall_forall in *. intros y Hy.
    apply HR; [now left | now right | now apply Hall].
Qed.

(** Two orders that agree on the entries of a list sort it alike. *)
Lemma insert_by_agree {A} (before before' : A -> A -> bool) (x : A)
    (l : list A) :
  (forall y, In y l -> before x y = before' x y) ->
  insert_by before x l = insert_by before' x l.
Proof.
  induction l as [|y l IH]; simpl; intros H; [reflexivity|].
  rewrite (H y (or_introl eq_refl)).
  destruct (before' x y); [reflexivity|].
  f_equal. apply IH. intros z Hz. apply H. now right.
Qed.

Lemma sort_by_agree {A} (before before' : A -> A -> bool) (l : list A) :
  (forall x y, In x l -> In y l -> before x y = before' x y) ->
  sort_by before l = sort_by before' l.
Proof.
  induction l as [|x l IH]; simpl; intros H; [reflexivity|].
  rewrite IH by (intros a b Ha Hb; apply H; now right).
  apply insert_by_agree. intros y Hy.
  apply H; [now left | right].
  exact (Permutation_in _ (sort_by_perm before' l) Hy).
Qed.

(** On a list whose similarities are all numbers the stable sort gives a
    list with non-increasing similarity. *)
Lemma sort_by_similarity_sorted (results : list SearchResult) :
  Forall (fun r => similarity r <> NaN) results ->
  StronglySorted by_similarity_desc (sort_by_similarity results).
Proof.
  intros Hnum. rewrite Forall_forall in Hnum.
  unfold sort_by_similarity.
  rewrite (sort_by_agree _
             (fun a b => sql_leb (similarity b) (similarity a))).
  2:{ intros x y Hx Hy.
      destruct (similarity x) eqn:Ex; [|now apply Hnum in Hx].
      destruct (similarity y) eqn:Ey; [|now apply Hnum in Hy].
      reflexivity. }
  eapply strongly_sorted_weaken_in; cycle 1.
  - apply sort_by_sorted.
    + intros x y. apply sql_leb_total.
    + intros x y z Hxy Hyz. eapply sql_leb_trans; eassumption.
  - intros x y Hx Hy H. unfold ordered_by in H.
    apply (Permutation_in _ (sort_by_perm _ results)) in Hx, Hy.
    unfold by_similarity_desc.
    destruct (similarity x) eqn:Ex; [|now apply Hnum in Hx].
    destruct (similarity y) eqn:Ey; [|now apply Hnum in Hy].
    simpl in *. now apply Rleb_le.
Qed.

(** A list of at least two entries with a NaN among the similarities is not
    sorted, in whatever order its entries come. *)
Lemma nan_not_sorted (l : list SearchResult) (r : SearchResult) :
  In r l -> similarity r = NaN -> (2 <= length l)%nat ->
  ~ StronglySorted by_similarity_desc l.
Proof.
  intros Hr Hnan Hlen Hs.
  destruct l as [|a [|b l]]; simpl in Hlen; try lia.
  inversion Hs as [|? ? Hs' Hall]; subst.
  destruct Hr as [<- | Hr].
  - inversion Hall as [|? ? Hab _]; subst.
    unfold by_similarity_desc in Hab. rewrite Hnan in Hab.
    destruct (similarity b); exact Hab.
  - rewrite Forall_forall in Hall. specialize (Hall r Hr).
    unfold by_similarity_desc in Hall. rewrite Hnan in Hall. exact Hall.
Qed.

Lemma execute_ok (select : Tables -> vector -> Z -> outcome (list Row))
    (q : vector) (limit : Z) (c c' : Connection) (rows : list Row) :
  execute select q limit c = (c', Ok rows) ->
  c' = c
  /\ inactive (session c) = false /\ aborted c = false
  /\ 0 <= limit < 2 ^ 63 /\ valid_literal q = true
  /\ select (database c) q limit = Ok rows.
Proof.
  unfold execute.
  destruct (inactive (session c)); [discriminate|].
  destruct (aborted c); [discriminate|].
  destruct (valid_literal q); [|discriminate].
  destruct (limit <? 0) eqn:Hneg; [discriminate|].
  destruct (2 ^ 63 <=? limit) eqn:Hbig; [discriminate|].
  cbn [orb negb].
  destruct (select (database c) q limit) as [rows'|e]; [|discriminate].
  intros H. inversion H; subst.
  apply Z.ltb_ge in Hneg. apply Z.leb_gt in Hbig.
  repeat split; auto.
Qed.

Lemma conv_query_ok (t : Tables) (q : vector) (limit : Z)
    (rows : list Row) :
  conv_query t q limit = Ok rows -> rows = conv_rows t q limit.
Proof.
  unfold conv_query. destruct (_ && _); [discriminate|].
  intros H. now inversion H.
Qed.

Lemma msg_query_ok (t : Tables) (q : vector) (limit : Z)
    (rows : list Row) :
  msg_query t q limit = Ok rows -> rows = msg_rows t q limit.
Proof.
  unfold msg_query. destruct (_ && _); [discriminate|].
  intros H. now inversion H.
Qed.

(** What a search that returns has gone through. *)
Lemma search_transcripts_ok
    (list_sort : list SearchResult -> list SearchResult)
    (svc : EmbeddingService) (query : pystr)
    (limit : Z) (c c' : Connection) (rs : list SearchResult) :
  search_transcripts list_sort svc query limit c = (c', Ok rs) ->
  exists q,
    encode_single svc query = Ok q
    /\ inactive (session c) = false /\ aborted c = false
    /\ 0 <= limit < 2 ^ 63 /\ valid_literal q = true /\ c' = c
    /\ rs = slice_to limit
              (list_sort (merged_candidates (database c) q limit)).
Proof.
  unfold search_transcripts.
  destruct (encode_single svc query) as [q|e]; [|discriminate].
  destruct (execute conv_query q limit c) as [c1 [conv_results|e]] eqn:E1;
    [|discriminate].
  destruct (execute msg_query q limit c1) as [c2 [msg_results|e]] eqn:E2;
    [|discriminate].
  apply execute_ok in E1. destruct E1 as [-> [Hact [Hab [Hl [Hv H1]]]]].
  apply execute_ok in E2. destruct E2 as [-> [_ [_ [_ [_ H2]]]]].
  apply conv_query_ok in H1. apply msg_query_ok in H2. subst.
  intros H. inversion H; subst.
  exists q. repeat split; auto; lia.
Qed.

(** All stored vectors that are joined have the dimension of the query. *)
Lemma search_transcripts_runs
    (list_sort : list SearchResult -> list SearchResult)
    (svc : EmbeddingService) (query : pystr)
    (limit : Z) (c : Connection) (q : vector) :
  encode_single svc query = Ok q ->
  inactive (session c) = false -> aborted c = false ->
  0 <= limit < 2 ^ 63 -> valid_literal q = true ->
  forallb (fun p => same_dimension (ce_embedding (fst p)) q)
          (join_conversation_embeddings (database c)) = true ->
  forallb (fun p => same_dimension (me_embedding (fst p)) q)
          (join_message_embeddings (database c)) = true ->
  search_transcripts list_sort svc query limit c
  = (c, Ok (slice_to limit
              (list_sort (merged_candidates (database c) q limit)))).
Proof.
  intros Hq Hact Hab Hl Hv Hce Hme.
  assert (Hexec : forall select rows,
             select (database c) q limit = Ok rows ->
             execute select q limit c = (c, Ok rows)).
  { intros select rows Hrows. unfold execute.
    rewrite Hact, Hab, Hv, Hrows.
    destruct (limit <? 0) eqn:E1; [apply Z.ltb_lt in E1; lia|].
    destruct (2 ^ 63 <=? limit) eqn:E2; [apply Z.leb_le in E2; lia|].
    reflexivity. }
  assert (H1 : conv_query (database c) q limit
               = Ok (conv_rows (database c) q limit)).
  { unfold conv_query. now rewrite Hce, andb_false_r. }
  assert (H2 : msg_query (database c) q limit
               = Ok (msg_rows (database c) q limit)).
  { unfold msg_query. now rewrite Hme, andb_false_r. }
  unfold search_transcripts.
  rewrite Hq, (Hexec _ _ H1), (Hexec _ _ H2). reflexivity.
Qed.

Lemma conv_rows_bounded (t : Tables) (q : vector) (limit : Z) :
  0 <= limit -> Z.of_nat (length (conv_rows t q limit)) <= limit.
Proof.
  intros Hl. unfold conv_rows. rewrite length_map.
  pose proof (firstn_le_length (Z.to_nat limit)
                (sort_by (fun a b =>
                   sql_leb (cosine_distance (ce_embedding (fst a)) q)
                           (cosine_distance (ce_embedding (fst b)) q))
                   (join_conversation_embeddings t))).
  lia.
Qed.

Lemma msg_rows_bounded (t : Tables) (q : vector) (limit : Z) :
  0 <= limit -> Z.of_nat (length (msg_rows t q limit)) <= limit.
Proof.
  intros Hl. unfold msg_rows. rewrite length_map.
  pose proof (firstn_le_length (Z.to_nat limit)
                (sort_by (fun a b =>
                   sql_leb (cosine_distance (me_embedding (fst a)) q)
                           (cosine_distance (me_embedding (fst b)) q))
                   (join_message_embeddings t))).
  lia.
Qed.

Lemma conv_result_tagged (q : vector)
    (p : ConversationEmbedding * Conversation) :
  well_tagged (conv_result (conv_row q p)).
Proof.
  destruct p as [ce c]. unfold well_tagged; simpl.
  split; [discriminate|]. split; [auto | now right].
Qed.

Lemma msg_result_tagged (q : vector) (p : MessageEmbedding * Conversation) :
  well_tagged (msg_result (msg_row q p)).
Proof.
  destruct p as [me c]. unfold well_tagged; simpl.
  split; [split; discriminate|]. split; [discriminate | now left].
Qed.

Lemma merged_candidates_tagged (t : Tables) (q : vector) (limit : Z) :
  Forall well_tagged (merged_candidates t q limit).
Proof.
  unfold merged_candidates.
  apply Forall_forall. intros r Hr.
  apply in_app_or in Hr. destruct Hr as [Hr | Hr];
    apply in_map_iff in Hr; destruct Hr as [row [<- Hrow]].
  - unfold conv_rows in Hrow. apply in_map_iff in Hrow.
    destruct Hrow as [p [<- _]]. apply conv_result_tagged.
  - unfold msg_rows in Hrow. apply in_map_iff in Hrow.
    destruct Hrow as [p [<- _]]. apply msg_result_tagged.
Qed.

(** What is returned is among the merged candidates. *)
Lemma returned_in_merged
    (list_sort : list SearchResult -> list SearchResult)
    (limit : Z) (merged : list SearchResult) (r : SearchResult) :
  python_sort list_sort ->
  In r (slice_to limit (list_sort merged)) -> In r merged.
Proof.
  intros [Hperm _] Hr.
  destruct (slice_to_prefix limit (list_sort merged)) as [k Hk].
  rewrite Hk in Hr. apply firstn_in in Hr.
  exact (Permutation_in _ (Hperm merged) Hr).
Qed.

(** C5, as amended: whatever [search_transcripts] returns for a limit N has
    at most N entries; it is the merged candidates of the two sub-queries,
    each of at most N rows, sorted and cut at N; every entry is tagged
    "message" or "summary", a "message" entry has a page number and a
    message index, a "summary" entry has neither. The entries come with
    non-increasing similarity provided that no similarity among the merged
    candidates is NaN. A search that returns had a limit from 0 to below
    2^63. *)
Theorem search_transcripts_bounded_sorted
    (list_sort : list SearchResult -> list SearchResult)
    (svc : EmbeddingService) (query : pystr) (limit : Z)
    (c c' : Connection) (rs : list SearchResult) :
  python_sort list_sort ->
  search_transcripts list_sort svc query limit c = (c', Ok rs) ->
  0 <= limit < 2 ^ 63
  /\ Z.of_nat (length rs) <= limit
  /\ Forall well_tagged rs
  /\ exists q,
       encode_single svc query = Ok q
       /\ Z.of_nat (length (conv_rows (database c) q limit)) <= limit
       /\ Z.of_nat (length (msg_rows (database c) q limit)) <= limit
       /\ rs = slice_to limit
                 (list_sort (merged_candidates (database c) q limit))
       /\ (Forall (fun r => similarity r <> NaN)
                  (merged_candidates (database c) q limit) ->
           StronglySorted by_similarity_desc rs).
Proof.
  intros Hsort Hrun.
  apply search_transcripts_ok in Hrun.
  destruct Hrun as [q [Hq [_ [_ [Hl [_ [_ Hrs]]]]]]].
  split; [exact Hl|].
  split; [subst rs; apply slice_to_length; lia|].
  split.
  { subst rs. apply Forall_forall. intros r Hr.
    apply (returned_in_merged _ _ _ Hsort) in Hr.
    pose proof (merged_candidates_tagged (database c) q limit) as Hall.
    rewrite Forall_forall in Hall. now apply Hall. }
  exists q. split; [exact Hq|].
  split; [apply conv_rows_bounded; lia|].
  split; [apply msg_rows_bounded; lia|].
  split; [exact Hrs|].
  intros Hnum. subst rs.
  destruct (slice_to_prefix limit
              (list_sort (merged_candidates (database c) q limit)))
    as [k Hk].
  rewrite Hk. apply firstn_sorted.
  destruct Hsort as [_ Hstable]. rewrite (Hstable _ Hnum).
  now apply sort_by_similarity_sorted.
Qed.

(** ** The range of the similarity *)

Open Scope R_scope.

Lemma dot_self_nonneg (a : vector) : 0 <= dot a a.
Proof. induction a as [|x a IH]; simpl; [lra | nra]. Qed.

Lemma cauchy_schwarz (a : vector) :
  forall b, dot a b * dot a b <= dot a a * dot b b.
Proof.
  induction a as [|x a IH]; intros [|y b]; simpl; try lra.
  specialize (IH b).
  pose proof (dot_self_nonneg a) as HA.
  pose proof (dot_self_nonneg b) as HB.
  set (d := dot a b) in *. set (A := dot a a) in *.
  set (B := dot b b) in *.
  assert (Hcross : 2 * (x * y * d) <= x * x * B + A * (y * y)).
  { destruct (Req_dec A 0) as [HA0 | HA0].
    - assert (Hd : d = 0) by nra. rewrite Hd, HA0.
      pose proof (Rle_0_sqr x). unfold Rsqr in *. nra.
    - assert (HApos : 0 < A) by lra.
      pose proof (Rle_0_sqr (x * d - A * y)) as Hsq. unfold Rsqr in Hsq.
      assert (HAS : 0 <= A * (x * x * B + A * (y * y) - 2 * (x * y * d))).
      { pose proof (Rle_0_sqr x) as Hx. unfold Rsqr in Hx. nra. }
      nra. }
  nra.
Qed.

(** The cosine of two vectors that are not zero. *)
Lemma cosine_in_range (a b : vector) :
  dot a a * dot b b <> 0 ->
  -1 <= dot a b / sqrt (dot a a * dot b b) <= 1.
Proof.
  intros Hnz.
  pose proof (cauchy_schwarz a b) as Hcs.
  pose proof (dot_self_nonneg a) as HA.
  pose proof (dot_self_nonneg b) as HB.
  assert (HAB : 0 < dot a a * dot b b) by nra.
  pose proof (sqrt_lt_R0 _ HAB) as HN.
  pose proof (sqrt_sqrt _ (Rlt_le _ _ HAB)) as HNN.
  set (N := sqrt (dot a a * dot b b)) in *. set (d := dot a b) in *.
  assert (Hd : - N <= d <= N) by nra.
  assert (Hq : d / N * N = d) by (field; lra).
  set (k := d / N) in *. nra.
Qed.

Lemma cosine_distance_number (a b : vector) :
  dot a a * dot b b <> 0 ->
  cosine_distance a b
  = Number (1 - dot a b / sqrt (dot a a * dot b b)).
Proof.
  intros H. unfold cosine_distance.
  destruct (Req_dec_T (dot a a * dot b b) 0); [contradiction | reflexivity].
Qed.

Lemma cosine_distance_nan (a b : vector) :
  dot a a = 0 \/ dot b b = 0 -> cosine_distance a b = NaN.
Proof.
  intros H. unfold cosine_distance.
  destruct (Req_dec_T (dot a a * dot b b) 0) as [_ | Hnz]; [reflexivity|].
  exfalso. apply Hnz. destruct H as [-> | ->]; ring.
Qed.

(** One minus the distance is NaN or a number from -1 to 1. *)
Lemma similarity_in_range (a b : vector) :
  one_minus (cosine_distance a b) = NaN
  \/ exists x, one_minus (cosine_distance a b) = Number x /\ -1 <= x <= 1.
Proof.
  destruct (Req_dec_T (dot a a * dot b b) 0) as [Hz | Hnz].
  - left. unfold cosine_distance.
    destruct (Req_dec_T (dot a a * dot b b) 0); [reflexivity | contradiction].
  - right. rewrite (cosine_distance_number _ _ Hnz). cbn [one_minus].
    eexists. split; [reflexivity|].
    pose proof (cosine_in_range _ _ Hnz). lra.
Qed.

Close Scope R_scope.

Lemma sort_by_in {A} (before : A -> A -> bool) (l : list A) (x : A) :
  In x (sort_by before l) -> In x l.
Proof. apply Permutation_in, sort_by_perm. Qed.

(** Where a candidate comes from. *)
Lemma merged_candidates_origin (t : Tables) (q : vector) (limit : Z)
    (r : SearchResult) :
  In r (merged_candidates t q limit) ->
  (exists ce, In ce (conversation_embeddings t)
              /\ similarity r
                 = one_minus (cosine_distance (ce_embedding ce) q))
  \/ (exists me, In me (message_embeddings t)
                 /\ similarity r
                    = one_minus (cosine_distance (me_embedding me) q)).
Proof.
  unfold merged_candidates. intros Hr.
  apply in_app_or in Hr. destruct Hr as [Hr | Hr];
    apply in_map_iff in Hr; destruct Hr as [row [<- Hrow]].
  - left. unfold conv_rows in Hrow. apply in_map_iff in Hrow.
    destruct Hrow as [[ce c] [<- Hin]]. apply firstn_in, sort_by_in in Hin.
    unfold join_conversation_embeddings in Hin.
    apply in_flat_map in Hin. destruct Hin as [ce' [Hce Hin]].
    apply in_map_iff in Hin. destruct Hin as [c' [Heq _]].
    inversion Heq; subst. exists ce. split; [exact Hce | reflexivity].
  - right. unfold msg_rows in Hrow. apply in_map_iff in Hrow.
    destruct Hrow as [[me c] [<- Hin]]. apply firstn_in, sort_by_in in Hin.
    unfold join_message_embeddings in Hin.
    apply in_flat_map in Hin. destruct Hin as [me' [Hme Hin]].
    apply in_map_iff in Hin. destruct Hin as [c' [Heq _]].
    inversion Heq; subst. exists me. split; [exact Hme | reflexivity].
Qed.

(** C9, as amended: the similarity of every result of [search_transcripts]
    is one minus the cosine distance between the vector of a stored summary
    or message row and the query vector; it is NaN or a number between -1
    and 1, and it is NaN when the stored vector or the query vector is the
    zero vector. *)
Theorem similarity_between_minus_one_and_one
    (list_sort : list SearchResult -> list SearchResult)
    (svc : EmbeddingService) (query : pystr) (limit : Z)
    (c c' : Connection) (rs : list SearchResult) (r : SearchResult) :
  python_sort list_sort ->
  search_transcripts list_sort svc query limit c = (c', Ok rs) ->
  In r rs ->
  exists q e,
    encode_single svc query = Ok q
    /\ ((exists ce, In ce (conversation_embeddings (database c))
                    /\ ce_embedding ce = e)
        \/ (exists me, In me (message_embeddings (database c))
                       /\ me_embedding me = e))
    /\ similarity r = one_minus (cosine_distance e q)
    /\ (similarity r = NaN
        \/ exists x, similarity r = Number x /\ (-1 <= x <= 1)%R)
    /\ (dot e e = 0%R \/ dot q q = 0%R -> similarity r = NaN).
Proof.
  intros Hsort Hrun Hr.
  apply search_transcripts_ok in Hrun.
  destruct Hrun as [q [Hq [_ [_ [_ [_ [_ Hrs]]]]]]]. subst rs.
  apply (returned_in_merged _ _ _ Hsort) in Hr.
  apply merged_candidates_origin in Hr.
  exists q.
  destruct Hr as [[ce [Hce Hsim]] | [me [Hme Hsim]]].
  - exists (ce_embedding ce). split; [exact Hq|].
    split; [left; now exists ce|].
    split; [exact Hsim|]. rewrite Hsim.
    split; [apply similarity_in_range|].
    intros Hz. now rewrite (cosine_distance_nan _ _ Hz).
  - exists (me_embedding me). split; [exact Hq|].
    split; [right; now exists me|].
    split; [exact Hsim|]. rewrite Hsim.
    split; [apply similarity_in_range|].
    intros Hz. now rewrite (cosine_distance_nan _ _ Hz).
Qed.

(** The stable sort is a sort of the interpreter. *)
Lemma stable_sort_is_python_sort : python_sort sort_by_similarity.
Proof.
  split; [|reflexivity].
  intros results. apply sort_by_perm.
Qed.

(** C9 as worded fails: a stored vector opposite to the query vector is at
    cosine distance 2, so the result has similarity -1, below 0. *)
Lemma similarity_can_be_negative :
  ~ (forall list_sort svc query limit c c' rs r,
       python_sort list_sort ->
       search_transcripts list_sort svc query limit c = (c', Ok rs) ->
       In r rs ->
       float_le (Number 0) (similarity r)
       /\ float_le (similarity r) (Number 1)).
Proof.
  intros H.
  specialize (H sort_by_similarity opposite_service (py "deploy") 1
                (connection (open_session summary_only_tables 2))
                (connection (open_session summary_only_tables 2))
                [opposite_result] opposite_result
                stable_sort_is_python_sort eq_refl
                (or_introl eq_refl)).
  destruct H as [H _].
  unfold opposite_result in H. cbn [similarity] in H.
  rewrite cosine_distance_number in H.
  2:{ cbn [dot]. lra. }
  cbn [dot one_minus float_le] in H.
  replace (1 * 1 + (0 * 0 + 0))%R with 1%R in H by ring.
  replace (-1 * -1 + (0 * 0 + 0))%R with 1%R in H by ring.
  replace (1 * 1)%R with 1%R in H by ring.
  rewrite sqrt_1 in H. lra.
Qed.

(** C5 as worded fails: with a stored zero vector one similarity is NaN,
    and a result list of two entries that holds a NaN is not sorted by
    similarity, in whatever order the interpreter leaves it. *)
Lemma search_not_sorted_with_zero_vector :
  ~ (forall list_sort svc query limit c c' rs,
       python_sort list_sort ->
       search_transcripts list_sort svc query limit c = (c', Ok rs) ->
       Z.of_nat (length rs) <= limit
       /\ StronglySorted by_similarity_desc rs
       /\ Forall well_tagged rs).
Proof.
  intros H.
  set (c := connection (open_session zero_vector_tables 2)).
  pose proof (@search_transcripts_runs sort_by_similarity steady_service
                (py "parser bug") 2 c [1%R; 0%R] eq_refl eq_refl eq_refl
                ltac:(lia) eq_refl eq_refl eq_refl) as Hrun.
  destruct (H _ _ _ _ _ _ _ stable_sort_is_python_sort Hrun)
    as [_ [Hsorted _]].
  pose proof (sort_by_perm
                (fun a b => float_leb (similarity b) (similarity a))
                (merged_candidates (database c) [1%R; 0%R] 2)) as Hperm.
  fold (sort_by_similarity (merged_candidates (database c) [1%R; 0%R] 2))
    in Hperm.
  assert (Hlen : length (sort_by_similarity
                           (merged_candidates (database c) [1%R; 0%R] 2))
                 = 2%nat)
    by (rewrite (Permutation_length Hperm); reflexivity).
  unfold slice_to in Hsorted. cbn [Z.leb Z.compare Z.to_nat Pos.to_nat
                                   Pos.iter_op Nat.add] in Hsorted.
  rewrite firstn_all2 in Hsorted by (rewrite Hlen; constructor).
  revert Hsorted.
  apply (@nan_not_sorted _ zero_vector_result).
  - apply (Permutation_in _ (Permutation_sym Hperm)).
    right. left. reflexivity.
  - unfold zero_vector_result. cbn [similarity].
    rewrite cosine_distance_nan; [reflexivity|].
    left. cbn [dot]. ring.
  - rewrite Hlen. constructor.
Qed.

(** The two candidates of [two_candidate_tables]: similarity 1 and 0. *)
Lemma near_similarity : similarity near_result = Number 1.
Proof.
  unfold near_result. cbn [similarity].
  rewrite cosine_distance_number by (cbn [dot]; lra).
  cbn [dot one_minus]. f_equal.
  replace ((1 * 1 + (0 * 0 + 0)) * (1 * 1 + (0 * 0 + 0)))%R with 1%R by ring.
  rewrite sqrt_1. field.
Qed.

Lemma far_similarity : similarity far_result = Number 0.
Proof.
  unfold far_result. cbn [similarity].
  rewrite cosine_distance_number by (cbn [dot]; lra).
  cbn [dot one_minus]. f_equal.
  replace ((0 * 0 + (1 * 1 + 0)) * (1 * 1 + (0 * 0 + 0)))%R with 1%R by ring.
  rewrite sqrt_1. field.
Qed.

Lemma sample_candidates_sorted :
  sort_by_similarity [near_result; far_result] = [near_result; far_result].
Proof.
  unfold sort_by_similarity. cbn [sort_by insert_by].
  rewrite near_similarity, far_similarity. cbn [float_leb].
  rewrite le_Rleb by lra. reflexivity.
Qed.

(** ** The claims on the sample data *)

(** C1 fails on the code. Session "s1" has grown; its Conversation row is
    committed and [store_embeddings] then raises in the batch encoding, after
    the deletes and the new summary row. Nothing is committed at that moment,
    but the inner handler does not roll back: the commit of the next session
    ("s2") publishes the new summary of conversation 1 without any message
    row, in place of the old summary and its message. *)
Theorem embedding_failure_leaks_partial_state :
  let env := two_sessions_env "none" in
  let db := open_session stale_tables 2 in
  let db1 := fst (local_prepare env "/out" None
                                ("s1"%string, Some (py "new summary")) db) in
  let failed :=
    store_embeddings batch_failing_service 1 (py "new summary")
      (spec_user_queries default_prompts_per_page
                         (get_loglines grown_session)) db1 in
  let run :=
    sync_local_sessions env batch_failing_service "/out" None 100 None db in
  stored_summaries (committed db) 1 = [py "old summary"]
  /\ stored_messages (committed db) 1 = [(0, py "old question", 1)]
  /\ snd failed = Raise EncoderError
  /\ committed (fst failed) = committed db1
  /\ stored_summaries (txn (fst failed)) 1 = [py "new summary"]
  /\ stored_messages (txn (fst failed)) 1 = []
  /\ snd run = Ok 2
  /\ stored_summaries (committed (fst run)) 1 = [py "new summary"]
  /\ stored_messages (committed (fst run)) 1 = [].
Proof. vm_compute. repeat split. Qed.

Lemma needs_update_counts_loglines_witness :
  length (get_loglines tool_only_session)
  = length (get_loglines second_session)
  /\ needs_update (Some (sample_conversation 1 "s1" 1)) tool_only_session
     = needs_update (Some (sample_conversation 1 "s1" 1)) second_session.
Proof.
  split; [reflexivity|].
  apply (proj2 (proj2 (needs_update_counts_loglines second_session))).
  reflexivity.
Defined.

Lemma extract_user_queries_spec_witness :
  5 <> 0
  /\ extract_user_queries mixed_session 5
     = Ok [(0, py "fix the parser", 1); (3, py "now deploy", 1)].
Proof.
  split; [discriminate|].
  destruct (@extract_user_queries_spec mixed_session 5) as [H _];
    [discriminate|].
  rewrite H. reflexivity.
Defined.

Lemma store_embeddings_row_count_witness :
  let queries := [(0, py "old question", 1); (1, py "new question", 1)] in
  let run := store_embeddings steady_service 1 (py "new summary") queries
                              (open_session stale_tables 2) in
  run = (fst run, Ok tt)
  /\ batch_aligned steady_service queries
  /\ length (message_rows (committed (fst run)) 1) = length queries.
Proof.
  intros queries run.
  assert (Hrun : run = (fst run, Ok tt)) by (vm_compute; reflexivity).
  assert (Hal : batch_aligned steady_service queries).
  { intros es Hes. inversion Hes. reflexivity. }
  split; [exact Hrun|]. split; [exact Hal|].
  exact (proj1 (@store_embeddings_row_count steady_service 1
                  (py "new summary") queries _ _ Hrun Hal)).
Defined.

Lemma store_embeddings_idempotent_witness :
  let queries := [(0, py "old question", 1); (1, py "new question", 1)] in
  let once := store_embeddings steady_service 1 (py "new summary") queries
                               (open_session stale_tables 2) in
  let twice := store_embeddings steady_service 1 (py "new summary") queries
                                (fst once) in
  once = (fst once, Ok tt)
  /\ twice = (fst twice, Ok tt)
  /\ stored_summaries (committed (fst twice)) 1
     = stored_summaries (committed (fst once)) 1
  /\ stored_messages (committed (fst twice)) 1
     = stored_messages (committed (fst once)) 1.
Proof.
  intros queries once twice.
  assert (H1 : once = (fst once, Ok tt)) by (vm_compute; reflexivity).
  assert (H2 : twice = (fst twice, Ok tt)) by (vm_compute; reflexivity).
  split; [exact H1|]. split; [exact H2|].
  destruct (@store_embeddings_idempotent steady_service 1
              (py "new summary") queries _ _ _ H1 H2) as [Hs [Hm _]].
  split; assumption.
Defined.

Lemma search_transcripts_bounded_sorted_witness :
  let c := connection (open_session stale_tables 2) in
  python_sort sort_by_similarity
  /\ exists rs,
       search_transcripts sort_by_similarity steady_service
                          (py "parser bug") 1 c
       = (c, Ok rs)
       /\ Z.of_nat (length rs) <= 1
       /\ Forall well_tagged rs
       /\ StronglySorted by_similarity_desc rs.
Proof.
  intros c.
  pose proof stable_sort_is_python_sort as Hsort.
  pose proof (@search_transcripts_runs sort_by_similarity steady_service
                (py "parser bug") 1 c [1%R; 0%R] eq_refl eq_refl eq_refl
                ltac:(lia) eq_refl eq_refl eq_refl) as Hrun.
  destruct (@search_transcripts_bounded_sorted _ _ _ _ _ _ _ Hsort Hrun)
    as [_ [Hlen [Htag [q [Hq [_ [_ [_ Hsorted]]]]]]]].
  split; [exact Hsort|]. eexists.
  split; [exact Hrun|]. split; [exact Hlen|]. split; [exact Htag|].
  apply Hsorted. inversion Hq; subst q.
  apply Forall_forall. intros r Hr.
  apply merged_candidates_origin in Hr.
  destruct Hr as [[ce [[<- | []] ->]] | [me [[<- | []] ->]]];
    cbn [ce_embedding me_embedding];
    (rewrite cosine_distance_number by (cbn [dot]; lra));
    discriminate.
Defined.

Lemma similarity_between_minus_one_and_one_witness :
  let c := connection (open_session summary_only_tables 2) in
  python_sort sort_by_similarity
  /\ search_transcripts sort_by_similarity opposite_service
                        (py "deploy") 1 c
     = (c, Ok [opposite_result])
  /\ In opposite_result [opposite_result]
  /\ (similarity opposite_result = NaN
      \/ exists x, similarity opposite_result = Number x
                   /\ (-1 <= x <= 1)%R).
Proof.
  intros c.
  pose proof stable_sort_is_python_sort as Hsort.
  assert (Hrun : search_transcripts sort_by_similarity opposite_service
                                    (py "deploy") 1 c
                 = (c, Ok [opposite_result])) by reflexivity.
  assert (Hin : In opposite_result [opposite_result]) by (left; reflexivity).
  split; [exact Hsort|]. split; [exact Hrun|]. split; [exact Hin|].
  destruct (@similarity_between_minus_one_and_one _ _ _ _ _ _ _ _
              Hsort Hrun Hin)
    as [q [e [_ [_ [_ [Hrange _]]]]]].
  exact Hrange.
Defined.

Lemma session_failure_isolated_witness :
  let env := two_sessions_env "s1" in
  let db := open_session stale_tables 2 in
  let item := ("s1"%string, Some (py "new summary")) in
  local_body env steady_service "/out" None 0 item db
  = (db, Raise RenderError)
  /\ local_iteration env steady_service "/out" None 0 item db
     = (rollback_session db, Ok 0)
  /\ committed (rollback_session db) = committed db
  /\ snd (sync_local_sessions env steady_service "/out" None 100 None db)
     = Ok 1.
Proof.
  intros env db item.
  assert (Hbody : local_body env steady_service "/out" None 0 item db
                  = (db, Raise RenderError)) by (vm_compute; reflexivity).
  destruct (session_failure_isolated env steady_service "/out" None)
    as [Hlocal _].
  destruct (Hlocal 0 item db db RenderError Hbody)
    as [_ [Hturn [Hcommitted _]]].
  split; [exact Hbody|]. split; [exact Hturn|]. split; [exact Hcommitted|].
  vm_compute. reflexivity.
Defined.

Lemma embedding_failure_kept_apart_witness :
  let env := two_sessions_env "none" in
  let db := open_session stale_tables 2 in
  let prepared := local_prepare env "/out" None
                    ("s1"%string, Some (py "new summary")) db in
  let p := {| prep_conversation_id := 1;
              prep_first_message := Some (py "new summary");
              prep_session_data := grown_session |} in
  let queries := [(0, py "old question", 1); (1, py "new question", 1)] in
  let failed := store_embeddings batch_failing_service 1 (py "new summary")
                                 queries (fst prepared) in
  prepared = (fst prepared, Ok (Some p))
  /\ extract_user_queries grown_session default_prompts_per_page = Ok queries
  /\ failed = (fst failed, Raise EncoderError)
  /\ committed (fst failed) = committed (fst prepared)
  /\ local_iteration env batch_failing_service "/out" None 0
                     ("s1"%string, Some (py "new summary")) db
     = (fst failed, Ok 1).
Proof.
  intros env db prepared p queries failed.
  assert (Hprep : prepared = (fst prepared, Ok (Some p)))
    by (vm_compute; reflexivity).
  assert (Hext : extract_user_queries (prep_session_data p)
                                      default_prompts_per_page = Ok queries)
    by (vm_compute; reflexivity).
  assert (Hfail : store_embeddings batch_failing_service
                    (prep_conversation_id p)
                    (or_empty (prep_first_message p)) queries (fst prepared)
                  = (fst failed, Raise EncoderError))
    by (vm_compute; reflexivity).
  destruct (embedding_failure_kept_apart env batch_failing_service "/out" None)
    as [Hlocal _].
  destruct (Hlocal 0 "s1"%string (Some (py "new summary")) db (fst prepared)
                   p queries (fst failed) EncoderError Hprep Hext Hfail)
    as [_ [Hc [Hturn _]]].
  split; [exact Hprep|]. split; [exact Hext|]. split; [exact Hfail|].
  split; [exact Hc | exact Hturn].
Defined.

Lemma summary_text_within_200_witness :
  let db := open_session stale_tables 2 in
  short_summaries db
  /\ short_summaries
       (fst (sync_local_sessions (two_sessions_env "none") steady_service
                                 "/out" None 100 None db))
  /\ short_summaries
       (fst (sync_web_sessions (two_sessions_env "none") steady_service
                               "/out" None None 100 None db)).
Proof.
  intros db.
  assert (Hdb : short_summaries db).
  { split; (constructor; [cbn; lia | constructor]). }
  destruct summary_text_within_200 as [_ [_ [_ [_ [Hlocal Hweb]]]]].
  split; [exact Hdb|]. split; [now apply Hlocal | now apply Hweb].
Defined.

(* ================================================================= *)
(** * Further properties *)

(** ** extract_user_queries: page size and tuples *)

Lemma extract_loop_zero (lines : list Logline) :
  forall user_queries message_index prompt_count,
    extract_loop 0 lines user_queries message_index prompt_count
    = if existsb eligible lines then Raise ZeroDivisionError
      else Ok user_queries.
Proof.
  induction lines as [|logline rest IH]; intros acc mi pc; simpl;
    [reflexivity|].
  rewrite (eligible_truthy logline).
  destruct (content logline) as [[| | |c| |]|]; simpl; try apply IH.
  destruct (str_truthy (strip c)); simpl; [reflexivity | apply IH].
Qed.

(** X1: with a page size of zero the extraction raises ZeroDivisionError
    exactly when some logline is eligible; without an eligible logline it
    returns the empty list. *)
Theorem extract_user_queries_zero_page_size (session_data : SessionData) :
  extract_user_queries session_data 0
  = if existsb eligible (get_loglines session_data)
    then Raise ZeroDivisionError
    else Ok [].
Proof. unfold extract_user_queries. apply extract_loop_zero. Qed.

Lemma floor_div_page (k p page : Z) :
  0 < p ->
  (k / p + 1 = page <-> (page - 1) * p <= k < page * p).
Proof.
  intros Hp. pose proof (Z.div_mod k p ltac:(lia)) as Hdm.
  pose proof (Z.mod_pos_bound k p Hp) as Hm.
  split.
  - intros <-. nia.
  - intros [Hlo Hhi].
    assert (H : k / p = page - 1); [|lia].
    symmetry. apply (Z.div_unique k p (page - 1) (k - (page - 1) * p)); lia.
Qed.

(** The positions from [start] on that fall on one page are at most a page
    size many. *)
Lemma page_population {A} (p page : Z) (l : list A) :
  0 < p ->
  forall start,
    Z.of_nat (length (filter (fun kp : Z * A => fst kp / p + 1 =? page)
                             (enumerate_from start l)))
    <= Z.max 0 (page * p - Z.max start ((page - 1) * p)).
Proof.
  intros Hp. induction l as [|x l IH]; intros start; simpl; [lia|].
  specialize (IH (start + 1)).
  destruct (start / p + 1 =? page) eqn:E; simpl.
  - apply Z.eqb_eq in E. apply floor_div_page in E; [|exact Hp]. lia.
  - lia.
Qed.

Lemma filter_map_length {A B} (f : A -> B) (g : B -> bool) (l : list A) :
  length (filter g (map f l)) = length (filter (fun x => g (f x)) l).
Proof.
  induction l as [|x l IH]; simpl; [reflexivity|].
  destruct (g (f x)); simpl; now rewrite IH.
Qed.

(** X2: for a positive page size every page number is at least 1 and no page
    holds more than [prompts_per_page] of the returned tuples. *)
Theorem at_most_page_size_per_page (session_data : SessionData)
    (prompts_per_page page : Z) (result : list UserQuery) :
  0 < prompts_per_page ->
  extract_user_queries session_data prompts_per_page = Ok result ->
  Forall (fun q : UserQuery => 1 <= snd q) result
  /\ Z.of_nat (length (filter (fun q : UserQuery => snd q =? page) result))
     <= prompts_per_page.
Proof.
  intros Hpp Hrun.
  rewrite extract_user_queries_ok in Hrun by lia.
  inversion Hrun; subst result; clear Hrun.
  unfold spec_user_queries. split.
  - apply Forall_forall. intros q Hq. apply in_map_iff in Hq.
    destruct Hq as [[k [pos logline]] [<- Hin]]. simpl.
    apply enumerate_from_nth in Hin. destruct Hin as [Hk _].
    pose proof (Z.div_pos k prompts_per_page Hk Hpp). lia.
  - rewrite filter_map_length.
    pose proof (page_population page
                  (eligible_messages (get_loglines session_data)) Hpp 0)
      as Hpop.
    rewrite (filter_ext
               (fun x => snd (spec_tuple prompts_per_page x) =? page)
               (fun kp => fst kp / prompts_per_page + 1 =? page))
      by (intros [k [pos logline]]; reflexivity).
    lia.
Qed.

Lemma eligible_has_text (logline : Logline) :
  eligible logline = true ->
  exists c, content logline = Some (JStr c) /\ c <> [].
Proof.
  unfold eligible.
  destruct (content logline) as [[| | |c| |]|]; try discriminate.
  intros H. exists c. split; [reflexivity|]. intros ->. discriminate.
Qed.

(** X3: every returned tuple carries a non-empty text of at most 1000
    characters and a message index that is a position of the logline
    sequence. *)
Theorem extracted_tuples_well_formed (session_data : SessionData)
    (prompts_per_page : Z) (result : list UserQuery) :
  extract_user_queries session_data prompts_per_page = Ok result ->
  Forall (fun q : UserQuery =>
            snd (fst q) <> []
            /\ (length (snd (fst q)) <= 1000)%nat
            /\ 0 <= fst (fst q)
               < Z.of_nat (length (get_loglines session_data)))
         result.
Proof.
  intros Hrun.
  destruct (Z.eq_dec prompts_per_page 0) as [-> | Hpp].
  - unfold extract_user_queries in Hrun. rewrite extract_loop_zero in Hrun.
    destruct (existsb eligible _); [discriminate|].
    inversion Hrun. constructor.
  - rewrite extract_user_queries_ok in Hrun by exact Hpp.
    inversion Hrun; subst result; clear Hrun.
    apply Forall_forall. intros q Hq. unfold spec_user_queries in Hq.
    apply in_map_iff in Hq.
    destruct Hq as [[k [pos logline]] [<- Hin]]. cbn [spec_tuple fst snd].
    apply enumerate_from_nth in Hin. destruct Hin as [_ Hnth].
    apply nth_error_In in Hnth. unfold eligible_messages in Hnth.
    apply filter_In in Hnth. destruct Hnth as [Hin Hel]. simpl in Hel.
    apply enumerate_from_nth in Hin. destruct Hin as [Hpos Hline].
    rewrite Z.sub_0_r in Hline.
    apply eligible_has_text in Hel. destruct Hel as [c [Hc Hne]].
    unfold logline_text. rewrite Hc.
    split; [|split; [apply firstn_le_length|]].
    + destruct c; [contradiction | discriminate].
    + assert (Hsome : nth_error (get_loglines session_data) (Z.to_nat pos)
                      <> None) by congruence.
      apply nth_error_Some in Hsome. lia.
Qed.

(** ** store_embeddings: what it replaces and what it leaves *)

(** X4: a successful [store_embeddings] leaves the conversation with exactly
    one summary row holding the first 500 characters of the summary when the
    summary is non-empty and with none otherwise; the embedding rows of the
    other conversations and the Conversation table are as the open
    transaction had them, and nothing is left pending. *)
Theorem store_embeddings_replaces_one_conversation
    (svc : EmbeddingService) (cid : Z) (summary : pystr)
    (user_queries : list UserQuery) (db db' : DbSession) :
  store_embeddings svc cid summary user_queries db = (db', Ok tt) ->
  stored_summaries (committed db') cid
  = (if str_truthy summary then [firstn 500 summary] else [])
  /\ other_summary_rows (committed db') cid = other_summary_rows (txn db) cid
  /\ other_message_rows (committed db') cid = other_message_rows (txn db) cid
  /\ conversations (committed db') = conversations (txn db)
  /\ txn db' = committed db'.
Proof.
  intros Hrun. apply store_embeddings_ok in Hrun.
  destruct Hrun as [_ [e [es [_ [_ [Hc [Ht _]]]]]]].
  unfold stored_summaries. rewrite Ht, Hc.
  rewrite summary_rows_replaced, other_summary_rows_replaced,
    other_message_rows_replaced
    by (apply new_summary_rows_cid || apply new_message_rows_cid).
  rewrite new_summary_rows_view. repeat split; reflexivity.
Qed.

Lemma conversations_kept_by_store (svc : EmbeddingService) (cid : Z)
    (summary : pystr) (user_queries : list UserQuery) (l : list Conversation) :
  preserves (fun db => conversations (txn db) = l)
            (store_embeddings svc cid summary user_queries).
Proof.
  assert (Hcommit : preserves (fun db => conversations (txn db) = l) commit).
  { intros db H. unfold commit. destruct (inactive db); [exact H|].
    destruct (engine_accepts db (txn db)); exact H. }
  unfold store_embeddings.
  apply preserves_bind.
  { intros db H. unfold delete_conversation_embeddings.
    destruct (inactive db); exact H. }
  intros ?. apply preserves_bind.
  { intros db H. unfold delete_message_embeddings.
    destruct (inactive db); exact H. }
  intros ?. apply preserves_bind.
  { destruct (str_truthy summary); [|apply preserves_ret].
    apply preserves_bind; [apply preserves_lift|].
    intros e db H. exact H. }
  intros ?. apply preserves_bind; [|intros ?; exact Hcommit].
  destruct user_queries; [apply preserves_ret|].
  apply preserves_bind; [apply preserves_lift|].
  intros es db H. rewrite add_message_embeddings_run. exact H.
Qed.

(** X5: a [store_embeddings] that raises has committed nothing and has not
    touched the Conversation rows of the open transaction; a rollback then
    brings the session back to the committed state. *)
Theorem store_embeddings_raise_commits_nothing
    (svc : EmbeddingService) (cid : Z) (summary : pystr)
    (user_queries : list UserQuery) (db db' : DbSession) (e : exn) :
  store_embeddings svc cid summary user_queries db = (db', Raise e) ->
  committed db' = committed db
  /\ conversations (txn db') = conversations (txn db)
  /\ txn (rollback_session db') = committed db
  /\ committed (rollback_session db') = committed db
  /\ inactive (rollback_session db') = false.
Proof.
  intros Hrun.
  pose proof (@hoare_run_raise _ _ _ _ _ db db' e
                (@committed_store_embeddings (committed db) svc cid summary
                                             user_queries)
                eq_refl Hrun) as Hc.
  pose proof (@hoare_run_raise _ _ _ _ _ db db' e
                (@conversations_kept_by_store svc cid summary user_queries
                                              (conversations (txn db)))
                eq_refl Hrun) as Hl.
  unfold committed_is in Hc. simpl in Hl. simpl.
  repeat split; assumption.
Qed.

(** ** Invariants of the sync functions *)


(** A call outside the session keeps what held, also when it raises. *)
Lemma lift_keeps {A} (P E : DbSession -> Prop) (o : outcome A) :
  (forall db, P db -> E db) ->
  hoare P (lift o) (fun _ => P) E.
Proof. intros HE db HP. unfold lift. destruct o; auto. Qed.

(** The query leaves the session as it is and answers with the lookup. *)
Lemma query_lookup (P : DbSession -> Prop) (sid : string) :
  hoare P (query_conversation sid)
        (fun existing db =>
           P db /\ inactive db = false
           /\ existing = lookup_session sid (txn db))
        P.
Proof.
  intros db HP. unfold query_conversation.
  destruct (inactive db) eqn:Hact; [exact HP|].
  repeat split; auto.
Qed.

Section LoopInvariant.
Variable P : DbSession -> Prop.
Hypothesis upsert_keeps :
  forall existing sid src now count dir preview,
    hoare (fun db => P db /\ inactive db = false
                     /\ existing = lookup_session sid (txn db))
          (upsert_conversation existing sid src now count dir preview)
          (fun _ => P) P.
Hypothesis commit_keeps : preserves P commit.
Hypothesis rollback_keeps : preserves P rollback.
Hypothesis store_keeps :
  forall svc cid summary user_queries,
    preserves P (store_embeddings svc cid summary user_queries).

Lemma upsert_commit_keeps existing sid src now count dir preview sd :
  hoare (fun db => P db /\ inactive db = false
                   /\ existing = lookup_session sid (txn db))
    (conversation_id <-
       upsert_conversation existing sid src now count dir preview ;;
     commit ;;;
     ret (Some {| prep_conversation_id := conversation_id;
                  prep_first_message := preview;
                  prep_session_data := sd |}))
    (fun _ => P) P.
Proof.
  eapply hoare_bind; [apply upsert_keeps|]. intros cid.
  apply preserves_bind; [apply commit_keeps|]. intros ?.
  apply preserves_ret.
Qed.

Lemma local_prepare_keeps env storage_path github_repo item :
  preserves P (local_prepare env storage_path github_repo item).
Proof.
  unfold local_prepare. destruct item as [session_path summary].
  apply preserves_bind; [apply preserves_lift|]. intros sd.
  eapply hoare_bind; [apply query_lookup|]. intros existing.
  destruct (negb (needs_update existing sd)).
  { intros db [H _]. exact H. }
  eapply hoare_bind; [apply lift_keeps; tauto|]. intros ?.
  eapply hoare_bind; [apply lift_keeps; tauto|]. intros ?.
  apply upsert_commit_keeps.
Qed.

Lemma web_prepare_keeps env storage_path github_repo token org sid :
  preserves P (web_prepare env storage_path github_repo token org sid).
Proof.
  unfold web_prepare.
  apply preserves_bind; [apply preserves_lift|]. intros sd.
  eapply hoare_bind; [apply query_lookup|]. intros existing.
  destruct (negb (needs_update existing sd)).
  { intros db [H _]. exact H. }
  eapply hoare_bind; [apply lift_keeps; tauto|]. intros ?.
  eapply hoare_bind; [apply lift_keeps; tauto|]. intros ?.
  apply upsert_commit_keeps.
Qed.

Lemma embed_step_keeps svc p : preserves P (embed_step svc p).
Proof.
  unfold embed_step.
  apply preserves_try; [|intros e; apply preserves_ret].
  apply preserves_bind; [apply preserves_lift|].
  intros uq. apply store_keeps.
Qed.

Lemma turn_keeps svc (prepare : M (option Prepared)) (count : Z) :
  preserves P prepare ->
  preserves P
    (try_except
       (prepared <- prepare ;;
        match prepared with
        | None => ret count
        | Some p => embed_step svc p ;;; ret (count + 1)
        end)
       (fun _ => rollback ;;; ret count)).
Proof.
  intros Hprep. apply preserves_try.
  - apply preserves_bind; [exact Hprep|].
    intros [p|]; [|apply preserves_ret].
    apply preserves_bind; [apply embed_step_keeps|].
    intros ?. apply preserves_ret.
  - intros e. apply preserves_bind; [apply rollback_keeps|].
    intros ?. apply preserves_ret.
Qed.

Lemma sync_local_keeps env svc storage_path dir limit github_repo :
  preserves P
    (sync_local_sessions env svc storage_path dir limit github_repo).
Proof.
  unfold sync_local_sessions.
  destruct (find_local_sessions env _ limit) as [sessions|e];
    [|apply preserves_ret].
  apply preserves_for_each. intros count item.
  apply turn_keeps, local_prepare_keeps.
Qed.

Lemma sync_web_keeps env svc storage_path token org limit github_repo :
  preserves P
    (sync_web_sessions env svc storage_path token org limit github_repo).
Proof.
  unfold sync_web_sessions.
  destruct (resolve_credentials env token org) as [[token' org']|e];
    [|apply preserves_ret].
  destruct (fetch_sessions env token' org') as [sessions|e];
    [|apply preserves_ret].
  apply preserves_for_each. intros count info.
  unfold web_iteration.
  destruct (info_session_id info) as [[|c sid]|];
    try apply preserves_ret.
  apply turn_keeps, web_prepare_keeps.
Qed.

Lemma sync_all_keeps env svc storage_path token org github_repo :
  preserves P (sync_all env svc storage_path token org github_repo).
Proof.
  unfold sync_all.
  apply preserves_bind; [apply sync_local_keeps|]. intros local_count.
  apply preserves_bind; [apply sync_web_keeps|]. intros web_count.
  apply preserves_ret.
Qed.
End LoopInvariant.

(** *** At most one summary row per conversation *)

Lemma filter_filter_length {A} (f g : A -> bool) (l : list A) :
  (length (filter f (filter g l)) <= length (filter f l))%nat.
Proof.
  induction l as [|x l IH]; simpl; [lia|].
  destruct (g x), (f x) eqn:Ef; simpl; rewrite ?Ef; simpl; lia.
Qed.

Ltac table_op :=
  let db := fresh "db" in
  let H := fresh "H" in
  intros db H;
  cbv beta zeta delta [query_conversation update_conversation
    add_flush_conversation delete_conversation_embeddings
    delete_message_embeddings add_conversation_embedding
    commit rollback rollback_session with_txn deactivate];
  repeat match goal with
         | |- context [if ?c then _ else _] => destruct c eqn:?
         end;
  cbv beta iota.

Lemma summaries_unique_upsert existing sid src now count dir preview :
  hoare (fun db => summaries_unique db /\ inactive db = false
                   /\ existing = lookup_session sid (txn db))
        (upsert_conversation existing sid src now count dir preview)
        (fun _ => summaries_unique) summaries_unique.
Proof.
  destruct existing as [row|]; simpl.
  - intros db [H _]. exact H.
  - table_op; destruct H as [[Ht Hc] _]; split; assumption.
Qed.

Lemma summaries_unique_commit : preserves summaries_unique commit.
Proof. table_op; destruct H as [Ht Hc]; split; assumption. Qed.

Lemma summaries_unique_rollback : preserves summaries_unique rollback.
Proof. table_op; destruct H as [Ht Hc]; split; assumption. Qed.

Lemma summaries_unique_store svc cid summary user_queries :
  preserves summaries_unique (store_embeddings svc cid summary user_queries).
Proof.
  unfold store_embeddings.
  eapply hoare_bind with
    (Q1 := fun _ db => summaries_unique db /\ summary_rows (txn db) cid = []).
  { table_op; [exact H|]. destruct H as [Ht Hc].
    split; [split; [|exact Hc]|].
    - intros c. unfold summary_rows. simpl. etransitivity;
        [apply filter_filter_length | apply Ht].
    - unfold summary_rows. simpl. apply filter_filter_negb. }
  intros ?.
  eapply hoare_bind with
    (Q1 := fun _ db => summaries_unique db /\ summary_rows (txn db) cid = []).
  { table_op; [exact (proj1 H) | exact H]. }
  intros ?.
  eapply hoare_bind with (Q1 := fun _ => summaries_unique).
  { destruct (str_truthy summary).
    - eapply hoare_bind; [apply lift_keeps; tauto|].
      intros e. table_op. destruct H as [[Ht Hc] Hnone].
      split; [|exact Hc]. intros c. unfold summary_rows in *. simpl.
      rewrite filter_app, length_app. simpl.
      destruct (cid =? c) eqn:E; simpl.
      + apply Z.eqb_eq in E. subst c. rewrite Hnone. simpl. lia.
      + specialize (Ht c). unfold summary_rows in Ht. lia.
    - intros db H. exact (proj1 H). }
  intros ?.
  apply preserves_bind; [|intros ?; apply summaries_unique_commit].
  destruct user_queries; [apply preserves_ret|].
  apply preserves_bind; [apply preserves_lift|].
  intros es db H. rewrite add_message_embeddings_run. exact H.
Qed.

(** X6: if every conversation has at most one summary row, in the open
    transaction and in the committed state, then it is so after
    [store_embeddings], after each sync function and after [sync_all],
    whether they end normally or not. *)
Theorem one_summary_row_per_conversation (db : DbSession) :
  summaries_unique db ->
  (forall svc cid summary user_queries,
     summaries_unique
       (fst (store_embeddings svc cid summary user_queries db)))
  /\ (forall env svc storage_path dir limit github_repo,
        summaries_unique
          (fst (sync_local_sessions env svc storage_path dir limit
                                    github_repo db)))
  /\ (forall env svc storage_path token org limit github_repo,
        summaries_unique
          (fst (sync_web_sessions env svc storage_path token org limit
                                  github_repo db)))
  /\ (forall env svc storage_path token org github_repo,
        summaries_unique
          (fst (sync_all env svc storage_path token org github_repo db))).
Proof.
  intros Hdb.
  split; [|split; [|split]]; intros; apply preserves_run; try exact Hdb.
  - apply summaries_unique_store.
  - apply sync_local_keeps; auto using summaries_unique_upsert,
      summaries_unique_commit, summaries_unique_rollback,
      summaries_unique_store.
  - apply sync_web_keeps; auto using summaries_unique_upsert,
      summaries_unique_commit, summaries_unique_rollback,
      summaries_unique_store.
  - apply sync_all_keeps; auto using summaries_unique_upsert,
      summaries_unique_commit, summaries_unique_rollback,
      summaries_unique_store.
Qed.

(** *** One Conversation row per session id *)

Lemma lookup_none_fresh (sid : string) (l : list Conversation) :
  find (fun c => String.eqb (session_id c) sid) l = None ->
  ~ In sid (map session_id l).
Proof.
  intros Hnone Hin. apply in_map_iff in Hin.
  destruct Hin as [c [Hsid Hc]].
  pose proof (find_none _ _ Hnone c Hc) as Hf. simpl in Hf.
  rewrite Hsid, String.eqb_refl in Hf. discriminate.
Qed.

Lemma NoDup_snoc {A} (l : list A) (x : A) :
  NoDup l -> ~ In x l -> NoDup (l ++ [x]).
Proof.
  intros Hl Hx. apply NoDup_app; [exact Hl | repeat constructor; auto |].
  intros a Ha [<- | []]. contradiction.
Qed.

Lemma sessions_unique_upsert existing sid src now count dir preview :
  hoare (fun db => sessions_unique db /\ inactive db = false
                   /\ existing = lookup_session sid (txn db))
        (upsert_conversation existing sid src now count dir preview)
        (fun _ => sessions_unique) sessions_unique.
Proof.
  destruct existing as [row|]; simpl.
  - intros db [[Ht Hc] _]. unfold update_conversation, bind, ret; simpl.
    split; [|exact Hc]. unfold unique_session_ids in *; simpl.
    rewrite map_map.
    erewrite map_ext; [exact Ht|].
    intros c. simpl. now destruct (conv_id c =? conv_id row).
  - table_op; destruct H as [[Ht Hc] [_ Hnone]];
      try (split; assumption);
      (split; [|exact Hc]); unfold unique_session_ids in *; simpl;
      rewrite map_app; simpl;
      apply NoDup_snoc; try exact Ht;
      apply lookup_none_fresh; symmetry; exact Hnone.
Qed.

Lemma sessions_unique_commit : preserves sessions_unique commit.
Proof. table_op; destruct H as [Ht Hc]; split; assumption. Qed.

Lemma sessions_unique_rollback : preserves sessions_unique rollback.
Proof. table_op; destruct H as [Ht Hc]; split; assumption. Qed.

Lemma sessions_unique_store svc cid summary user_queries :
  preserves sessions_unique (store_embeddings svc cid summary user_queries).
Proof.
  unfold store_embeddings.
  apply preserves_bind; [table_op; exact H|]. intros ?.
  apply preserves_bind; [table_op; exact H|]. intros ?.
  apply preserves_bind.
  { destruct (str_truthy summary); [|apply preserves_ret].
    apply preserves_bind; [apply preserves_lift|].
    intros e. table_op. exact H. }
  intros ?.
  apply preserves_bind; [|intros ?; apply sessions_unique_commit].
  destruct user_queries; [apply preserves_ret|].
  apply preserves_bind; [apply preserves_lift|].
  intros es db H. rewrite add_message_embeddings_run. exact H.
Qed.

(** X7: if no two Conversation rows share a session id, in the open
    transaction and in the committed state, then it is so after each sync
    function and after [sync_all]: a session is updated in place or inserted
    once, never duplicated. *)
Theorem one_conversation_per_session (db : DbSession) :
  sessions_unique db ->
  (forall env svc storage_path dir limit github_repo,
     sessions_unique
       (fst (sync_local_sessions env svc storage_path dir limit
                                 github_repo db)))
  /\ (forall env svc storage_path token org limit github_repo,
        sessions_unique
          (fst (sync_web_sessions env svc storage_path token org limit
                                  github_repo db)))
  /\ (forall env svc storage_path token org github_repo,
        sessions_unique
          (fst (sync_all env svc storage_path token org github_repo db))).
Proof.
  intros Hdb.
  split; [|split]; intros; apply preserves_run; try exact Hdb.
  - apply sync_local_keeps; auto using sessions_unique_upsert,
      sessions_unique_commit, sessions_unique_rollback,
      sessions_unique_store.
  - apply sync_web_keeps; auto using sessions_unique_upsert,
      sessions_unique_commit, sessions_unique_rollback,
      sessions_unique_store.
  - apply sync_all_keeps; auto using sessions_unique_upsert,
      sessions_unique_commit, sessions_unique_rollback,
      sessions_unique_store.
Qed.

(** ** The returned counts *)

Lemma hoare_for_each_count {A} (step : Z -> A -> M Z) (items : list A) :
  (forall count item,
     hoare (fun _ => True) (step count item)
           (fun count' _ => count <= count' <= count + 1) (fun _ => False)) ->
  forall count,
    hoare (fun _ => True) (for_each step items count)
          (fun n _ => count <= n <= count + Z.of_nat (length items))
          (fun _ => False).
Proof.
  intros Hstep. induction items as [|item rest IH]; intros count.
  - intros db _. simpl. lia.
  - cbn [for_each]. eapply hoare_bind; [apply Hstep|].
    intros count' db Hc. specialize (IH count' db I).
    destruct (for_each step rest count' db) as [db' [n|e]]; [|exact IH].
    cbn [length]. rewrite Nat2Z.inj_succ. lia.
Qed.

Lemma turn_count (svc : EmbeddingService) (prepare : M (option Prepared))
    (count : Z) :
  hoare (fun _ => True)
    (try_except
       (prepared <- prepare ;;
        match prepared with
        | None => ret count
        | Some p => embed_step svc p ;;; ret (count + 1)
        end)
       (fun _ => rollback ;;; ret count))
    (fun count' _ => count <= count' <= count + 1) (fun _ => False).
Proof.
  intros db _. unfold try_except, bind at 1.
  destruct (prepare db) as [db1 [[p|]|e]]; simpl; try lia.
  unfold bind. rewrite embed_step_run. simpl. lia.
Qed.

Lemma local_iteration_count env svc storage_path github_repo count item :
  hoare (fun _ => True)
        (local_iteration env svc storage_path github_repo count item)
        (fun count' _ => count <= count' <= count + 1) (fun _ => False).
Proof. apply turn_count. Qed.

Lemma web_iteration_count env svc storage_path github_repo token org
    count info :
  hoare (fun _ => True)
        (web_iteration env svc storage_path github_repo token org count info)
        (fun count' _ => count <= count' <= count + 1) (fun _ => False).
Proof.
  unfold web_iteration.
  destruct (info_session_id info) as [[|c sid]|];
    try (intros db _; simpl; lia).
  apply turn_count.
Qed.

Lemma slice_to_length_le {A} (n : Z) (l : list A) :
  (length (slice_to n l) <= length l)%nat.
Proof.
  destruct (slice_to_prefix n l) as [k ->].
  rewrite length_firstn. lia.
Qed.

Lemma sync_local_sessions_count env svc storage_path dir limit github_repo
    db db' n sessions :
  sync_local_sessions env svc storage_path dir limit github_repo db
  = (db', Ok n) ->
  find_local_sessions env
    (match dir with
     | None => expanduser env "~/.claude/projects"
     | Some d => d
     end) limit = Ok sessions ->
  0 <= n <= Z.of_nat (length sessions).
Proof.
  intros Hrun Hfind. unfold sync_local_sessions in Hrun.
  rewrite Hfind in Hrun.
  pose proof (@hoare_run_ok _ _ _ _ _ db db' n
                (hoare_for_each_count
                   (local_iteration env svc storage_path github_repo)
                   sessions
                   (local_iteration_count env svc storage_path github_repo)
                   0) I Hrun) as H.
  simpl in H. lia.
Qed.

Lemma sync_web_sessions_count env svc storage_path token org limit
    github_repo db db' n :
  sync_web_sessions env svc storage_path token org limit github_repo db
  = (db', Ok n) ->
  0 <= n
  /\ (0 <= limit -> n <= limit)
  /\ (forall token' org' sessions,
        resolve_credentials env token org = Ok (token', org') ->
        fetch_sessions env token' org' = Ok sessions ->
        n <= Z.of_nat (length sessions)).
Proof.
  intros Hrun. unfold sync_web_sessions in Hrun.
  destruct (resolve_credentials env token org) as [[token' org']|e]
    eqn:Hcred0.
  2:{ inversion Hrun; subst. repeat split; intros; lia. }
  destruct (fetch_sessions env token' org') as [sessions|e] eqn:Hfetch0.
  2:{ inversion Hrun; subst. repeat split; intros; lia. }
  pose proof (@hoare_run_ok _ _ _ _ _ db db' n
                (hoare_for_each_count
                   (web_iteration env svc storage_path github_repo
                                  token' org')
                   (slice_to limit sessions)
                   (web_iteration_count env svc storage_path github_repo
                                        token' org')
                   0) I Hrun) as H.
  simpl in H.
  split; [lia|]. split.
  - intros Hl. pose proof (@slice_to_length _ limit sessions Hl). lia.
  - intros t o s Hcred Hfetch. inversion Hcred; subst.
    rewrite Hfetch0 in Hfetch. inversion Hfetch; subst.
    pose proof (@slice_to_length_le _ limit s). lia.
Qed.

(** X8: the count a sync function returns is never negative and never more
    than the number of sessions it was given: the sessions found locally,
    respectively the fetched sessions cut at [limit], hence at most [limit]
    for a non-negative limit. *)
Theorem updated_count_bounded (env : Env) (svc : EmbeddingService)
    (storage_path : string) (github_repo : option string) (limit : Z)
    (db db' : DbSession) (n : Z) :
  (forall dir sessions,
     sync_local_sessions env svc storage_path dir limit github_repo db
     = (db', Ok n) ->
     find_local_sessions env
       (match dir with
        | None => expanduser env "~/.claude/projects"
        | Some d => d
        end) limit = Ok sessions ->
     0 <= n <= Z.of_nat (length sessions))
  /\ (forall token org,
        sync_web_sessions env svc storage_path token org limit github_repo db
        = (db', Ok n) ->
        0 <= n
        /\ (0 <= limit -> n <= limit)
        /\ (forall token' org' sessions,
              resolve_credentials env token org = Ok (token', org') ->
              fetch_sessions env token' org' = Ok sessions ->
              n <= Z.of_nat (length sessions))).
Proof.
  split.
  - intros dir sessions. apply sync_local_sessions_count.
  - intros token org. apply sync_web_sessions_count.
Qed.

(** X9: [sync_all] always returns; the total it reports is the sum of the
    two counts, neither count is negative, the web count is at most 100 (the
    default limit) and the local count at most the number of sessions
    found. *)
Theorem sync_all_reports_the_sum (env : Env) (svc : EmbeddingService)
    (storage_path : string) (token org github_repo : option string)
    (db : DbSession) :
  exists db' stats,
    sync_all env svc storage_path token org github_repo db = (db', Ok stats)
    /\ total_updated stats = local_updated stats + web_updated stats
    /\ 0 <= local_updated stats
    /\ 0 <= web_updated stats <= 100
    /\ (forall sessions,
          find_local_sessions env (expanduser env "~/.claude/projects") 100
          = Ok sessions ->
          local_updated stats <= Z.of_nat (length sessions)).
Proof.
  unfold sync_all, bind.
  destruct (sync_local_sessions_total env svc storage_path None 100
              github_repo db) as [db1 [n1 H1]].
  rewrite H1.
  destruct (sync_web_sessions_total env svc storage_path token org 100
              github_repo db1) as [db2 [n2 H2]].
  rewrite H2. exists db2. eexists. split; [reflexivity|]. simpl.
  pose proof (sync_web_sessions_count _ _ _ _ _ _ _ _ H2) as [Hw0 [Hw _]].
  split; [reflexivity|].
  assert (Hn1 : 0 <= n1).
  { pose proof H1 as H1'. unfold sync_local_sessions in H1'.
    destruct (find_local_sessions env _ 100) as [sessions|e] eqn:Hf.
    - apply (sync_local_sessions_count _ _ _ None _ _ _ H1 Hf).
    - inversion H1'. lia. }
  split; [exact Hn1|]. split; [lia|].
  intros sessions Hf.
  apply (sync_local_sessions_count _ _ _ None _ _ _ H1 Hf).
Qed.

(** ** A synced session is skipped on the next pass *)












(** ** search_transcripts: what the results are *)

Lemma merged_from_all (t : Tables) (q : vector) (limit : Z)
    (r : SearchResult) :
  In r (merged_candidates t q limit) -> In r (all_candidates t q).
Proof.
  unfold merged_candidates, all_candidates. intros Hr.
  apply in_or_app.
  apply in_app_or in Hr. destruct Hr as [Hr | Hr];
    apply in_map_iff in Hr; destruct Hr as [row [<- Hrow]]; [left | right].
  - unfold conv_rows in Hrow. apply in_map_iff in Hrow.
    destruct Hrow as [p [<- Hin]]. apply firstn_in, sort_by_in in Hin.
    apply in_map_iff. exists p. auto.
  - unfold msg_rows in Hrow. apply in_map_iff in Hrow.
    destruct Hrow as [p [<- Hin]]. apply firstn_in, sort_by_in in Hin.
    apply in_map_iff. exists p. auto.
Qed.

Lemma candidate_well_formed (t : Tables) (q : vector) (r : SearchResult) :
  In r (all_candidates t q) ->
  of_conversation t r /\ url r = expected_url r.
Proof.
  unfold all_candidates. intros Hr. apply in_app_or in Hr.
  destruct Hr as [Hr | Hr]; apply in_map_iff in Hr.
  - destruct Hr as [[ce c] [<- Hin]].
    unfold join_conversation_embeddings in Hin.
    apply in_flat_map in Hin. destruct Hin as [ce' [_ Hin]].
    apply in_map_iff in Hin. destruct Hin as [c' [Heq Hc]].
    inversion Heq; subst c' ce'. apply filter_In in Hc.
    destruct Hc as [Hc Hid]. apply Z.eqb_eq in Hid.
    split; [|reflexivity].
    exists c. simpl. repeat split; auto.
  - destruct Hr as [[me c] [<- Hin]].
    unfold join_message_embeddings in Hin.
    apply in_flat_map in Hin. destruct Hin as [me' [_ Hin]].
    apply in_map_iff in Hin. destruct Hin as [c' [Heq Hc]].
    inversion Heq; subst c' me'. apply filter_In in Hc.
    destruct Hc as [Hc Hid]. apply Z.eqb_eq in Hid.
    split; [|reflexivity].
    exists c. simpl. repeat split; auto.
Qed.

(** X11: every result belongs to a Conversation row of the database, whose
    id, session id, source and first message it carries (an embedding row
    without its Conversation row is never returned), and its link is the one
    its own fields determine: the page link with anchor for a message with a
    non-zero page, the base page otherwise. *)
Theorem results_belong_to_conversations
    (list_sort : list SearchResult -> list SearchResult)
    (svc : EmbeddingService) (query : pystr) (limit : Z)
    (c c' : Connection) (rs : list SearchResult) :
  python_sort list_sort ->
  search_transcripts list_sort svc query limit c = (c', Ok rs) ->
  Forall (fun r => of_conversation (database c) r /\ url r = expected_url r)
         rs.
Proof.
  intros Hsort Hrun. apply search_transcripts_ok in Hrun.
  destruct Hrun as [q [_ [_ [_ [_ [_ [_ Hrs]]]]]]]. subst rs.
  apply Forall_forall. intros r Hr.
  apply (returned_in_merged _ _ _ Hsort) in Hr.
  apply merged_from_all in Hr.
  now apply candidate_well_formed with (q := q).
Qed.

(** X12: a search changes neither the Session object nor the rows of the
    database, whatever its outcome, and a search that returns leaves the
    connection as it was. An encoder failure is passed on. A statement the
    engine refuses, as for a limit that is negative or not below 2^63,
    raises DataError and leaves the transaction aborted: every further
    search raises InternalError, until a rollback. *)
Theorem search_is_read_only
    (list_sort : list SearchResult -> list SearchResult)
    (svc : EmbeddingService) (query : pystr) (limit : Z) (c : Connection) :
  session (fst (search_transcripts list_sort svc query limit c)) = session c
  /\ database (fst (search_transcripts list_sort svc query limit c))
     = database c
  /\ (forall rs,
        snd (search_transcripts list_sort svc query limit c) = Ok rs ->
        fst (search_transcripts list_sort svc query limit c) = c)
  /\ (forall e, encode_single svc query = Raise e ->
                search_transcripts list_sort svc query limit c
                = (c, Raise e))
  /\ (forall q, encode_single svc query = Ok q ->
                inactive (session c) = true ->
                search_transcripts list_sort svc query limit c
                = (c, Raise PendingRollbackError))
  /\ (forall q, encode_single svc query = Ok q ->
                inactive (session c) = false -> aborted c = true ->
                search_transcripts list_sort svc query limit c
                = (c, Raise InternalError))
  /\ (forall q, encode_single svc query = Ok q ->
                inactive (session c) = false -> aborted c = false ->
                valid_literal q = true ->
                limit < 0 \/ 2 ^ 63 <= limit ->
                search_transcripts list_sort svc query limit c
                = (abort c, Raise DataError)
                /\ (forall limit',
                      search_transcripts list_sort svc query limit' (abort c)
                      = (abort c, Raise InternalError))
                /\ aborted (rollback_connection (abort c)) = false
                /\ inactive (session (rollback_connection (abort c)))
                   = false).
Proof.
  assert (Hexec : forall select q l (k : Connection),
             session (fst (execute select q l k)) = session k
             /\ database (fst (execute select q l k)) = database k
             /\ (forall rows, snd (execute select q l k) = Ok rows ->
                              fst (execute select q l k) = k)).
  { intros select q l k. unfold execute.
    destruct (inactive (session k)); [repeat split; discriminate|].
    destruct (aborted k); [repeat split; discriminate|].
    destruct (negb (valid_literal q)); [repeat split; discriminate|].
    destruct (_ || _); [repeat split; discriminate|].
    destruct (select (database k) q l); repeat split; discriminate. }
  unfold search_transcripts.
  destruct (encode_single svc query) as [q|e] eqn:Hq.
  2:{ cbn [fst snd]. repeat split; try discriminate.
      intros e' H. now inversion H. }
  destruct (Hexec conv_query q limit c) as [Hs1 [Hd1 Hk1]].
  destruct (execute conv_query q limit c) as [c1 [rows1|e1]] eqn:E1.
  - cbn [fst snd] in Hs1, Hd1, Hk1. specialize (Hk1 rows1 eq_refl).
    subst c1.
    destruct (Hexec msg_query q limit c) as [Hs2 [Hd2 Hk2]].
    destruct (execute msg_query q limit c) as [c2 [rows2|e2]] eqn:E2.
    + cbn [fst snd] in *. specialize (Hk2 rows2 eq_refl). subst c2.
      apply execute_ok in E1.
      destruct E1 as [_ [Hact [Hab [Hl _]]]].
      repeat split; try discriminate;
        try (intros; congruence); try (intros; lia).
      all: intros; lia.
    + cbn [fst snd] in *.
      apply execute_ok in E1.
      destruct E1 as [_ [Hact [Hab [Hl _]]]].
      repeat split; auto; try discriminate;
        try (intros; congruence); intros; lia.
  - cbn [fst snd] in *. clear Hk1.
    unfold execute in E1.
    destruct (inactive (session c)) eqn:Hact.
    { inversion E1; subst. repeat split; auto; try discriminate. }
    destruct (aborted c) eqn:Hab.
    { inversion E1; subst. repeat split; auto; try discriminate. }
    destruct (valid_literal q) eqn:Hv; cbn [negb] in E1.
    2:{ inversion E1; subst.
        split; [reflexivity|]. split; [reflexivity|].
        split; [discriminate|]. split; [discriminate|].
        split; [discriminate|]. split; [discriminate|].
        intros q' Hq' _ _ Hv'. inversion Hq'; subst q'. congruence. }
    destruct ((limit <? 0) || (2 ^ 63 <=? limit)) eqn:Hbad.
    + inversion E1; subst.
      split; [reflexivity|]. split; [reflexivity|].
      split; [discriminate|]. split; [discriminate|].
      split; [discriminate|]. split; [discriminate|].
      intros q' _ _ _ _ _.
      split; [reflexivity|].
      split; [|split; reflexivity].
      intros limit'. unfold execute, abort. cbn [session aborted].
      rewrite Hact. reflexivity.
    + apply orb_false_iff in Hbad. destruct Hbad as [Hneg Hbig].
      apply Z.ltb_ge in Hneg. apply Z.leb_gt in Hbig.
      destruct (conv_query (database c) q limit); inversion E1; subst.
      repeat split; auto; try discriminate; intros; lia.
Qed.

(** *** The results are the most similar candidates *)

Lemma strongly_sorted_app {A} (R : A -> A -> Prop) (l1 l2 : list A) :
  StronglySorted R (l1 ++ l2) ->
  forall a b, In a l1 -> In b l2 -> R a b.
Proof.
  induction l1 as [|x l1 IH]; simpl; intros Hs a b Ha Hb; [contradiction|].
  inversion Hs as [|? ? Hs' Hall]; subst.
  destruct Ha as [<- | Ha].
  - rewrite Forall_forall in Hall. apply Hall, in_or_app. now right.
  - now apply IH.
Qed.

(** An element of a sorted list is in the prefix of length [n], or the
    prefix is full and everything in it goes in front of the element. *)
Lemma prefix_or_behind {A} (R : A -> A -> Prop) (n : nat) (l : list A)
    (x : A) :
  StronglySorted R l -> In x l ->
  In x (firstn n l)
  \/ (length (firstn n l) = n /\ Forall (fun y => R y x) (firstn n l)).
Proof.
  intros Hs Hx. rewrite <- (firstn_skipn n l) in Hs, Hx.
  apply in_app_or in Hx. destruct Hx as [Hx | Hx]; [now left | right].
  split.
  - rewrite length_firstn. apply Nat.min_l.
    destruct (Nat.le_gt_cases n (length l)) as [H | H]; [exact H|].
    rewrite skipn_all2 in Hx by lia. contradiction.
  - apply Forall_forall. intros y Hy.
    exact (strongly_sorted_app _ _ Hs y x Hy Hx).
Qed.

Lemma float_le_trans (x y z : pyfloat) :
  float_le x y -> float_le y z -> float_le x z.
Proof.
  destruct x, y, z; simpl; try contradiction. intros; lra.
Qed.

(** If at least [n] elements of a list sorted by non-increasing similarity
    reach [v], the first [n] all do. *)
Lemma top_reaches (v : pyfloat) (l : list SearchResult) :
  StronglySorted by_similarity_desc l ->
  forall n,
    (n <= length (filter (fun r => float_leb v (similarity r)) l))%nat ->
    Forall (fun r => float_le v (similarity r)) (firstn n l).
Proof.
  induction 1 as [|a l Hs IH Hall]; intros [|n] Hn; simpl; try constructor.
  - simpl in Hn.
    destruct (float_leb v (similarity a)) eqn:Hva;
      [now apply float_leb_le|].
    exfalso.
    rewrite (filter_none (fun r => float_leb v (similarity r)) (l := l))
      in Hn; [simpl in Hn; lia|].
    eapply Forall_impl; [|exact Hall].
    intros r Hr. unfold by_similarity_desc in Hr.
    destruct (float_leb v (similarity r)) eqn:Hvr; [|reflexivity].
    apply float_leb_le in Hvr.
    pose proof (float_le_trans _ _ _ Hvr Hr) as Hva'.
    apply float_leb_le in Hva'. congruence.
  - simpl in Hn. apply IH.
    destruct (float_leb v (similarity a)); simpl in Hn; lia.
Qed.

Lemma filter_length_perm {A} (f : A -> bool) (l l' : list A) :
  Permutation l l' -> length (filter f l) = length (filter f l').
Proof.
  induction 1 as [| x l l' _ IH | x y l | l l' l'' _ IH1 _ IH2]; simpl.
  - reflexivity.
  - destruct (f x); simpl; now rewrite IH.
  - destruct (f x), (f y); reflexivity.
  - now rewrite IH1.
Qed.

Section SubQuery.
Variables (B : Type) (dist : B -> pyfloat) (mk : B -> SearchResult).
Hypothesis mk_similarity :
  forall b, similarity (mk b) = one_minus (dist b).
Variables (joined : list B) (n : nat).
Hypothesis joined_numbers : forall b, In b joined -> dist b <> NaN.

(** A joined row either is among the rows the sub-query returns, or the
    sub-query returns [n] rows that are all at least as similar. *)
Lemma subquery_keeps_or_beats (p : B) :
  In p joined ->
  In p (nearest dist n joined)
  \/ (length (nearest dist n joined) = n
      /\ Forall (fun r => float_leb (similarity (mk p)) (similarity r)
                          = true)
                (map mk (nearest dist n joined))).
Proof.
  intros Hp.
  assert (Hsorted : StronglySorted
                      (ordered_by (fun a b => sql_leb (dist a) (dist b)))
                      (sort_by (fun a b => sql_leb (dist a) (dist b))
                               joined)).
  { apply sort_by_sorted.
    - intros x y. apply sql_leb_total.
    - intros x y z Hxy Hyz. eapply sql_leb_trans; eassumption. }
  assert (Hin : In p (sort_by (fun a b => sql_leb (dist a) (dist b))
                              joined)).
  { apply (Permutation_in _ (Permutation_sym (sort_by_perm _ joined)) Hp). }
  destruct (@prefix_or_behind _ _ n _ p Hsorted Hin) as [H | [Hlen Hall]];
    [now left | right].
  split; [exact Hlen|].
  apply Forall_map. apply Forall_forall. intros y Hy.
  rewrite Forall_forall in Hall. pose proof (Hall y Hy) as Hyp.
  unfold ordered_by in Hyp.
  apply firstn_in, sort_by_in in Hy.
  rewrite !mk_similarity.
  pose proof (joined_numbers Hy) as Hny.
  pose proof (joined_numbers Hp) as Hnp.
  destruct (dist y) as [dy|]; [|contradiction].
  destruct (dist p) as [dp|]; [|contradiction].
  simpl in *. apply Rleb_le in Hyp. apply le_Rleb. lra.
Qed.

(** Merged with anything, sorted and cut at [n], a joined row still is
    returned or beaten by everything returned. *)
Lemma merged_keeps_or_beats (p : B) (merged : list SearchResult) :
  In p joined ->
  Forall (fun r => similarity r <> NaN) merged ->
  (forall r, In r (map mk (nearest dist n joined)) -> In r merged) ->
  (forall f, (length (filter f (map mk (nearest dist n joined)))
              <= length (filter f merged))%nat) ->
  let top := firstn n (sort_by_similarity merged) in
  In (mk p) top
  \/ Forall (fun r => float_le (similarity (mk p)) (similarity r)) top.
Proof.
  intros Hp Hnum Hsub Hcount top.
  pose proof (sort_by_similarity_sorted Hnum) as Hsorted.
  destruct (subquery_keeps_or_beats p Hp) as [Hkept | [Hlen Hall]].
  - assert (Hin : In (mk p) (sort_by_similarity merged)).
    { unfold sort_by_similarity.
      apply (Permutation_in _ (Permutation_sym (sort_by_perm _ merged))).
      apply Hsub, in_map, Hkept. }
    destruct (@prefix_or_behind _ _ n _ (mk p) Hsorted Hin)
      as [H | [_ H]]; [now left | right].
    exact H.
  - right. apply top_reaches; [exact Hsorted|].
    unfold sort_by_similarity.
    rewrite (filter_length_perm _ (sort_by_perm _ merged)).
    etransitivity; [|apply Hcount].
    rewrite filter_all by exact Hall.
    rewrite length_map. lia.
Qed.
End SubQuery.

Lemma merged_candidates_nearest (t : Tables) (q : vector) (limit : Z) :
  merged_candidates t q limit
  = map (fun p => conv_result (conv_row q p))
        (nearest (fun p => cosine_distance (ce_embedding (fst p)) q)
                 (Z.to_nat limit) (join_conversation_embeddings t))
    ++ map (fun p => msg_result (msg_row q p))
           (nearest (fun p => cosine_distance (me_embedding (fst p)) q)
                    (Z.to_nat limit) (join_message_embeddings t)).
Proof.
  unfold merged_candidates, conv_rows, msg_rows, nearest.
  now rewrite !map_map.
Qed.

Lemma one_minus_number (d : pyfloat) : one_minus d <> NaN -> d <> NaN.
Proof. destruct d; simpl; congruence. Qed.

(** X13: when no candidate has NaN for its similarity, the results are the
    most similar candidates of both tables: a joined summary or message row
    that is not among the results is at most as similar to the query as
    every result. The cut of each sub-query before the merge loses
    nothing. *)
Theorem search_returns_most_similar
    (list_sort : list SearchResult -> list SearchResult)
    (svc : EmbeddingService) (query : pystr) (limit : Z)
    (c c' : Connection) (rs : list SearchResult) (q : vector)
    (x : SearchResult) :
  python_sort list_sort ->
  search_transcripts list_sort svc query limit c = (c', Ok rs) ->
  encode_single svc query = Ok q ->
  Forall (fun r => similarity r <> NaN) (all_candidates (database c) q) ->
  In x (all_candidates (database c) q) ->
  In x rs \/ Forall (fun r => float_le (similarity x) (similarity r)) rs.
Proof.
  intros Hsort Hrun Hq Hnum Hx. apply search_transcripts_ok in Hrun.
  destruct Hrun as [q' [Hq' [_ [_ [Hl [_ [_ Hrs]]]]]]].
  rewrite Hq in Hq'. inversion Hq'; subst q'. subst rs.
  assert (Hmerged : Forall (fun r => similarity r <> NaN)
                           (merged_candidates (database c) q limit)).
  { rewrite Forall_forall in *. intros r Hr.
    now apply Hnum, merged_from_all with (limit := limit). }
  destruct Hsort as [_ Hstable]. rewrite (Hstable _ Hmerged).
  unfold slice_to. destruct (0 <=? limit) eqn:E;
    [|apply Z.leb_gt in E; lia].
  rewrite merged_candidates_nearest in *.
  rewrite Forall_forall in Hnum.
  unfold all_candidates in Hx, Hnum. apply in_app_or in Hx.
  destruct Hx as [Hx | Hx]; apply in_map_iff in Hx;
    destruct Hx as [p [<- Hp]].
  - assert (Hsim : forall b : ConversationEmbedding * Conversation,
              similarity (conv_result (conv_row q b))
              = one_minus (cosine_distance (ce_embedding (fst b)) q))
      by (intros [ce' c0]; reflexivity).
    apply (@merged_keeps_or_beats _ _ _ Hsim
             (join_conversation_embeddings (database c)) (Z.to_nat limit));
      [ | exact Hp | exact Hmerged | |].
    + intros b Hb. apply one_minus_number. rewrite <- Hsim.
      apply Hnum, in_or_app. left.
      now apply (in_map (fun p => conv_result (conv_row q p))).
    + intros r Hr. apply in_or_app. now left.
    + intros f. rewrite filter_app, length_app. lia.
  - assert (Hsim : forall b : MessageEmbedding * Conversation,
              similarity (msg_result (msg_row q b))
              = one_minus (cosine_distance (me_embedding (fst b)) q))
      by (intros [me' c0]; reflexivity).
    apply (@merged_keeps_or_beats _ _ _ Hsim
             (join_message_embeddings (database c)) (Z.to_nat limit));
      [ | exact Hp | exact Hmerged | |].
    + intros b Hb. apply one_minus_number. rewrite <- Hsim.
      apply Hnum, in_or_app. right.
      now apply (in_map (fun p => msg_result (msg_row q p))).
    + intros r Hr. apply in_or_app. now right.
    + intros f. rewrite filter_app, length_app. lia.
Qed.

(** *** A limit that covers all candidates *)

Lemma firstn_covers {A} (n : nat) (l : list A) :
  (length l <= n)%nat -> firstn n l = l.
Proof. apply firstn_all2. Qed.

Lemma covered_search_is_permutation
    (list_sort : list SearchResult -> list SearchResult)
    (svc : EmbeddingService) (query : pystr) (limit : Z)
    (c c' : Connection) (rs : list SearchResult) (q : vector) :
  python_sort list_sort ->
  search_transcripts list_sort svc query limit c = (c', Ok rs) ->
  encode_single svc query = Ok q ->
  Z.of_nat (length (all_candidates (database c) q)) <= limit ->
  Permutation rs (all_candidates (database c) q).
Proof.
  intros [Hperm _] Hrun Hq Hlen. apply search_transcripts_ok in Hrun.
  destruct Hrun as [q' [Hq' [_ [_ [Hl [_ [_ Hrs]]]]]]].
  rewrite Hq in Hq'. inversion Hq'; subst q'. subst rs.
  unfold all_candidates in *. rewrite length_app, !length_map in Hlen.
  unfold slice_to. destruct (0 <=? limit) eqn:E;
    [|apply Z.leb_gt in E; lia].
  rewrite merged_candidates_nearest. unfold nearest.
  rewrite (@firstn_covers _ (Z.to_nat limit)
             (sort_by _ (join_conversation_embeddings (database c))))
    by (rewrite (Permutation_length (sort_by_perm _ _)); lia).
  rewrite (@firstn_covers _ (Z.to_nat limit)
             (sort_by _ (join_message_embeddings (database c))))
    by (rewrite (Permutation_length (sort_by_perm _ _)); lia).
  rewrite firstn_covers.
  - rewrite Hperm.
    apply Permutation_app; apply Permutation_map, sort_by_perm.
  - rewrite (Permutation_length (Hperm _)), length_app, !length_map.
    rewrite !(Permutation_length (sort_by_perm _ _)). lia.
Qed.

(** X14: with a limit of at least the number of joined rows of both tables
    the search returns every candidate: the result is a permutation of all
    candidates. *)
Theorem search_with_large_limit_returns_all
    (list_sort : list SearchResult -> list SearchResult)
    (svc : EmbeddingService) (query : pystr) (limit : Z)
    (c c' : Connection) (rs : list SearchResult) (q : vector) :
  python_sort list_sort ->
  search_transcripts list_sort svc query limit c = (c', Ok rs) ->
  encode_single svc query = Ok q ->
  Z.of_nat (length (all_candidates (database c) q)) <= limit ->
  Permutation rs (all_candidates (database c) q).
Proof. apply covered_search_is_permutation. Qed.

(** *** What was stored is found *)

Lemma new_message_rows_in (cid : Z) (uq : list UserQuery) (idx : Z)
    (txt : pystr) (page : Z) :
  In (idx, txt, page) uq ->
  forall (es : list vector) next_id,
    length es = length uq ->
    exists id e,
      In {| me_id := id; me_conversation_id := cid;
            me_message_index := idx; message_text := firstn 500 txt;
            me_embedding := e; me_page_number := page |}
         (new_message_rows cid next_id (combine uq es)).
Proof.
  induction uq as [|[[i t] p] uq IH]; intros Hin es next_id Hlen;
    [contradiction|].
  destruct es as [|e es]; [discriminate|].
  cbn [combine new_message_rows].
  destruct Hin as [Heq | Hin].
  - inversion Heq; subst. exists next_id, e. now left.
  - destruct (IH Hin es (next_id + 1)) as [id [e' H]];
      [now inversion Hlen|].
    exists id, e'. now right.
Qed.

Lemma joined_summary_row (t : Tables) (ce : ConversationEmbedding)
    (c : Conversation) :
  In ce (conversation_embeddings t) -> In c (conversations t) ->
  ce_conversation_id ce = conv_id c ->
  In (ce, c) (join_conversation_embeddings t).
Proof.
  intros Hce Hc Hid. unfold join_conversation_embeddings.
  apply in_flat_map. exists ce. split; [exact Hce|].
  apply in_map, filter_In. split; [exact Hc | now apply Z.eqb_eq].
Qed.

Lemma joined_message_row (t : Tables) (me : MessageEmbedding)
    (c : Conversation) :
  In me (message_embeddings t) -> In c (conversations t) ->
  me_conversation_id me = conv_id c ->
  In (me, c) (join_message_embeddings t).
Proof.
  intros Hme Hc Hid. unfold join_message_embeddings.
  apply in_flat_map. exists me. split; [exact Hme|].
  apply in_map, filter_In. split; [exact Hc | now apply Z.eqb_eq].
Qed.

(** X15: what [store_embeddings] stored for a conversation is found by a
    search on the session it committed, whose limit covers all candidates:
    the summary as a "summary" result with the first 500 characters of its
    text, and every input tuple as a "message" result with its index, its
    page and the first 500 characters of its text. *)
Theorem stored_embeddings_are_found
    (list_sort : list SearchResult -> list SearchResult)
    (svc svc' : EmbeddingService)
    (cid : Z) (summary : pystr) (user_queries : list UserQuery)
    (db db1 : DbSession) (c2 : Connection) (c : Conversation)
    (query : pystr) (limit : Z) (rs : list SearchResult) (q : vector) :
  python_sort list_sort ->
  store_embeddings svc cid summary user_queries db = (db1, Ok tt) ->
  batch_aligned svc user_queries ->
  In c (conversations (txn db)) -> conv_id c = cid ->
  search_transcripts list_sort svc' query limit (connection db1)
  = (c2, Ok rs) ->
  encode_single svc' query = Ok q ->
  Z.of_nat (length (all_candidates (txn db1) q)) <= limit ->
  (summary <> [] ->
   exists r, In r rs
             /\ match_type r = "summary"%string
             /\ conversation_id r = cid
             /\ res_session_id r = session_id c
             /\ text r = firstn 500 summary)
  /\ (forall idx txt page,
        In (idx, txt, page) user_queries ->
        exists r, In r rs
                  /\ match_type r = "message"%string
                  /\ conversation_id r = cid
                  /\ res_session_id r = session_id c
                  /\ text r = firstn 500 txt
                  /\ message_index r = Some idx
                  /\ page_number r = Some page).
Proof.
  intros Hsort Hstore Haligned Hc Hcid Hsearch Hq Hlimit.
  pose proof (@covered_search_is_permutation _ _ _ _ (connection db1) _ _ _
                Hsort Hsearch Hq Hlimit) as Hperm.
  cbn [connection database] in Hperm.
  apply store_embeddings_ok in Hstore.
  destruct Hstore as [_ [e [es [_ [Hes [Hcommitted [Htxn _]]]]]]].
  assert (Hlen : length es = length user_queries).
  { destruct user_queries as [|u us]; [now subst es|].
    now apply Haligned. }
  assert (Hconv : In c (conversations (txn db1)))
    by (rewrite Htxn, Hcommitted; exact Hc).
  split.
  - intros Hne.
    set (row := {| ce_id := next_ce_id db; ce_conversation_id := cid;
                   summary_text := firstn 500 summary;
                   ce_embedding := e |}).
    assert (Hrow : In row (conversation_embeddings (txn db1))).
    { rewrite Htxn, Hcommitted. unfold replaced_tables; simpl.
      apply in_or_app. right. unfold new_summary_rows.
      destruct summary; [contradiction|]. now left. }
    exists (conv_result (conv_row q (row, c))).
    split; [|simpl; auto].
    apply (Permutation_in _ (Permutation_sym Hperm)).
    unfold all_candidates. apply in_or_app. left.
    apply (in_map (fun p => conv_result (conv_row q p))).
    apply joined_summary_row; auto.
  - intros idx txt page Hin.
    destruct (new_message_rows_in cid _ _ _ _ Hin es (next_me_id db) Hlen)
      as [id [e' Hnew]].
    match type of Hnew with In ?r _ => set (row := r) in * end.
    assert (Hrow : In row (message_embeddings (txn db1))).
    { rewrite Htxn, Hcommitted. unfold replaced_tables; simpl.
      apply in_or_app. now right. }
    exists (msg_result (msg_row q (row, c))).
    split; [|simpl; repeat split; auto].
    apply (Permutation_in _ (Permutation_sym Hperm)).
    unfold all_candidates. apply in_or_app. right.
    apply (in_map (fun p => msg_result (msg_row q p))).
    apply joined_message_row; auto.
Qed.

(** ** embeddings.py: loading the model *)

Lemma process_eta (lib : SentenceTransformers) (p : Process lib)
    (s : ServiceObject lib) :
  _embedding_service p = Some s ->
  {| _embedding_service := Some s; stdout := stdout p ++ [] |} = p.
Proof. destruct p as [g out]; simpl. intros ->. now rewrite app_nil_r. Qed.

(** A request under the name of a loaded model is served by that model,
    silently. *)
Lemma encode_single_with_loaded (lib : SentenceTransformers)
    (p : Process lib) (name : string) (m : Model lib) (text : pystr) :
  loaded lib p name m ->
  encode_single_with lib p name text = (p, model_encode_text lib m text).
Proof.
  intros [s [Hg [Hname Hm]]].
  unfold encode_single_with, get_embedding_service.
  rewrite Hg, Hname, String.eqb_refl.
  unfold service_encode_single, service_model. rewrite Hm.
  now rewrite (@process_eta lib p s Hg).
Qed.

Lemma encode_all_loaded (lib : SentenceTransformers) (name : string)
    (m : Model lib) (texts : list pystr) :
  forall p, loaded lib p name m ->
    encode_all lib p (map (pair name) texts)
    = (p, map (model_encode_text lib m) texts).
Proof.
  induction texts as [|t ts IH]; intros p Hp; simpl; [reflexivity|].
  rewrite (@encode_single_with_loaded lib p name m t Hp).
  now rewrite (IH p Hp).
Qed.

(** The line printed when the model [name] is loaded. *)
Lemma encode_single_with_unloaded (lib : SentenceTransformers)
    (p : Process lib) (name : string) (text : pystr) :
  (forall m, ~ loaded lib p name m) ->
  let line := ("Loading embedding model: " ++ name)%string in
  exists p',
    stdout p' = stdout p ++ [line]
    /\ match SentenceTransformer lib name with
       | Ok m =>
           encode_single_with lib p name text
           = (p', model_encode_text lib m text)
           /\ loaded lib p' name m
       | Raise e =>
           encode_single_with lib p name text = (p', Raise e)
           /\ (forall m, ~ loaded lib p' name m)
       end.
Proof.
  intros Hnot line.
  assert (Hfresh :
    exists p1,
      stdout p1 = stdout p
      /\ exists self,
           get_embedding_service lib p name = (p1, self)
           /\ model_name self = name /\ _model self = None).
  { unfold get_embedding_service.
    destruct (_embedding_service p) as [s|] eqn:Hg.
    - destruct (String.eqb (model_name s) name) eqn:E.
      + apply String.eqb_eq in E. exists p. split; [reflexivity|].
        exists s. split; [reflexivity|]. split; [exact E|].
        destruct (_model s) as [m|] eqn:Hm; [|reflexivity].
        exfalso. apply (Hnot m). exists s. auto.
      + eexists. split; [|eexists; split; [reflexivity|]]; simpl; auto.
    - eexists. split; [|eexists; split; [reflexivity|]]; simpl; auto. }
  destruct Hfresh as [p1 [Hout [self [Hget [Hname Hm]]]]].
  unfold encode_single_with. rewrite Hget.
  unfold service_encode_single, service_model. rewrite Hm, Hname.
  destruct (SentenceTransformer lib name) as [m|e]; eexists;
    (split; [|split; [reflexivity|]]); simpl; try (now rewrite Hout).
  - eexists. simpl. auto.
  - intros m [s [Hs [_ Hloaded]]]. simpl in Hs. inversion Hs; subst s.
    congruence.
Qed.

(** X16: over any run of requests under one model name whose loading
    succeeds, the model is loaded at most once: not at all when the global
    instance already holds it, and exactly once, at the first request,
    otherwise; every request is answered by that one model. *)
Theorem model_loaded_at_most_once (lib : SentenceTransformers)
    (name : string) (texts : list pystr) (p : Process lib) :
  (forall m, loaded lib p name m ->
     encode_all lib p (map (pair name) texts)
     = (p, map (model_encode_text lib m) texts))
  /\ (forall m,
        (forall m0, ~ loaded lib p name m0) ->
        SentenceTransformer lib name = Ok m ->
        texts <> [] ->
        exists p',
          encode_all lib p (map (pair name) texts)
          = (p', map (model_encode_text lib m) texts)
          /\ stdout p'
             = stdout p ++ [("Loading embedding model: " ++ name)%string]
          /\ loaded lib p' name m).
Proof.
  split.
  - intros m Hp. now apply encode_all_loaded.
  - intros m Hnot Hload Hne.
    destruct texts as [|t ts]; [contradiction|].
    destruct (@encode_single_with_unloaded lib p name t Hnot)
      as [p' [Hout H]].
    rewrite Hload in H. destruct H as [Hrun Hloaded].
    exists p'. cbn [map encode_all]. rewrite Hrun.
    rewrite (@encode_all_loaded lib name m ts p' Hloaded).
    auto.
Qed.

(** X17: a load that fails is not remembered: every request under that name
    prints the loading line again, tries again and raises. *)
Theorem failed_load_is_retried (lib : SentenceTransformers)
    (name : string) (e : exn) (texts : list pystr) :
  SentenceTransformer lib name = Raise e ->
  forall p : Process lib,
    (forall m, ~ loaded lib p name m) ->
    exists p',
      encode_all lib p (map (pair name) texts)
      = (p', map (fun _ => Raise e) texts)
      /\ stdout p'
         = stdout p
           ++ repeat ("Loading embedding model: " ++ name)%string
                     (length texts)
      /\ (forall m, ~ loaded lib p' name m).
Proof.
  intros Hload. induction texts as [|t ts IH]; intros p Hnot.
  - exists p. simpl. rewrite app_nil_r. auto.
  - destruct (@encode_single_with_unloaded lib p name t Hnot)
      as [p1 [Hout H]].
    rewrite Hload in H. destruct H as [Hrun Hnot1].
    destruct (IH p1 Hnot1) as [p' [Hall [Hout' Hnot']]].
    exists p'. cbn [map encode_all length repeat].
    rewrite Hrun, Hall. split; [reflexivity|]. split; [|exact Hnot'].
    rewrite Hout', Hout, <- app_assoc. reflexivity.
Qed.

(** X18: asking for another model name replaces the global instance, so the
    model it held is lost: going to another name and back prints the
    loading line of both names again. *)
Theorem switching_model_reloads (lib : SentenceTransformers)
    (a b : string) (m : Model lib) (text1 text2 : pystr)
    (p : Process lib) :
  loaded lib p a m -> a <> b ->
  stdout (fst (encode_all lib p [(b, text1); (a, text2)]))
  = stdout p ++ [("Loading embedding model: " ++ b)%string;
                 ("Loading embedding model: " ++ a)%string].
Proof.
  intros [s [Hg [Hname Hm]]] Hab.
  assert (Hnotb : forall m0, ~ loaded lib p b m0).
  { intros m0 [s' [Hg' [Hname' _]]]. congruence. }
  destruct (@encode_single_with_unloaded lib p b text1 Hnotb)
    as [p1 [Hout1 H1]].
  assert (Hnota : forall m0, ~ loaded lib p1 a m0).
  { destruct (SentenceTransformer lib b) as [mb|eb].
    - destruct H1 as [_ [s1 [Hg1 [Hname1 _]]]].
      intros m0 [s' [Hg' [Hname' _]]]. congruence.
    - destruct H1 as [Hrun _]. unfold encode_single_with in Hrun.
      unfold get_embedding_service in Hrun. rewrite Hg, Hname in Hrun.
      destruct (String.eqb a b) eqn:E;
        [apply String.eqb_eq in E; contradiction|].
      unfold service_encode_single, service_model in Hrun. simpl in Hrun.
      destruct (SentenceTransformer lib b); inversion Hrun; subst p1;
        intros m0 [s' [Hg' [Hname' _]]]; simpl in Hg';
        inversion Hg'; subst s'; simpl in Hname'; congruence. }
  destruct (@encode_single_with_unloaded lib p1 a text2 Hnota)
    as [p2 [Hout2 H2]].
  assert (Hrun1 : fst (encode_single_with lib p b text1) = p1)
    by (destruct (SentenceTransformer lib b); destruct H1 as [-> _];
        reflexivity).
  assert (Hrun2 : fst (encode_single_with lib p1 a text2) = p2)
    by (destruct (SentenceTransformer lib a); destruct H2 as [-> _];
        reflexivity).
  cbn [encode_all].
  destruct (encode_single_with lib p b text1) as [q1 r1].
  simpl in Hrun1. subst q1.
  destruct (encode_single_with lib p1 a text2) as [q2 r2].
  simpl in Hrun2. subst q2. simpl.
  rewrite Hout2, Hout1, <- app_assoc. reflexivity.
Qed.

(** ** The migration add_vector_embeddings *)

Lemma existsb_false_filter {A} (f : A -> bool) (l : list A) :
  existsb f l = false -> filter (fun x => negb (f x)) l = l.
Proof.
  induction l as [|x l IH]; simpl; [reflexivity|].
  intros H. apply orb_false_iff in H. destruct H as [Hx Hl].
  rewrite Hx. simpl. now rewrite IH.
Qed.

Lemma existsb_false_find {A} (f : A -> bool) (l : list A) :
  existsb f l = false -> find f l = None.
Proof.
  induction l as [|x l IH]; simpl; [reflexivity|].
  intros H. apply orb_false_iff in H. destruct H as [Hx Hl].
  rewrite Hx. now apply IH.
Qed.

Lemma find_some_existsb {A} (f : A -> bool) (l : list A) (x : A) :
  find f l = Some x -> existsb f l = true.
Proof.
  intros H. apply find_some in H. apply existsb_exists. now exists x.
Qed.

Lemma find_app_some {A} (f : A -> bool) (l l' : list A) (x : A) :
  find f l = Some x -> find f (l ++ l') = Some x.
Proof.
  induction l as [|y l IH]; simpl; [discriminate|].
  destruct (f y); [trivial | exact IH].
Qed.

Lemma find_app_none {A} (f : A -> bool) (l l' : list A) :
  find f l = None -> find f (l ++ l') = find f l'.
Proof.
  induction l as [|y l IH]; simpl; [reflexivity|].
  destruct (f y); [discriminate | exact IH].
Qed.

Lemma existsb_false_in {A} (f : A -> bool) (l : list A) (x : A) :
  existsb f l = false -> In x l -> f x = false.
Proof.
  intros H Hin. destruct (f x) eqn:E; [|reflexivity].
  rewrite <- H. symmetry. apply existsb_exists. now exists x.
Qed.

Lemma existsb_all_false {A} (f : A -> bool) (l : list A) :
  (forall x, In x l -> f x = false) -> existsb f l = false.
Proof.
  induction l as [|x l IH]; simpl; [reflexivity|].
  intros H. rewrite (H x (or_introl eq_refl)). simpl.
  apply IH. intros y Hy. apply H. now right.
Qed.

Lemma existsb_filter_false {A} (f g : A -> bool) (l : list A) :
  existsb f l = false -> existsb f (filter g l) = false.
Proof.
  intros H. apply existsb_all_false. intros x Hx.
  apply filter_In in Hx. now apply (existsb_false_in f l).
Qed.

Lemma existsb_filter_self {A} (f : A -> bool) (l : list A) :
  existsb f (filter (fun x => negb (f x)) l) = false.
Proof.
  apply existsb_all_false. intros x Hx. apply filter_In in Hx.
  destruct Hx as [_ Hx]. now apply negb_true_iff in Hx.
Qed.

(** Columns can only be those of a table of the schema. *)
Lemma has_columns_table (s : Schema) (table : string)
    (columns : list string) :
  has_columns s table columns = true -> has_table s table = true.
Proof.
  unfold has_columns, has_table.
  destruct (find (named table) (tables s)) as [t|] eqn:E; [|discriminate].
  intros _. exact (find_some_existsb _ _ E).
Qed.

Section Consistent.
Variable s : Schema.
Hypothesis consistent_s : consistent s = true.

(** No table refers to a table that is not there. *)
Lemma absent_table_not_referred (name : string) :
  has_table s name = false ->
  existsb (fun t => negb (named name t) && refers_to name t) (tables s)
  = false.
Proof.
  intros Habsent. apply existsb_all_false. intros t Ht.
  apply andb_false_iff. right.
  unfold consistent in consistent_s.
  apply andb_true_iff in consistent_s. destruct consistent_s as [Htables _].
  rewrite forallb_forall in Htables. specialize (Htables t Ht).
  apply andb_true_iff in Htables. destruct Htables as [Hrefs _].
  apply andb_true_iff in Hrefs. destruct Hrefs as [Hrefs _].
  unfold references_exist in Hrefs. rewrite forallb_forall in Hrefs.
  unfold refers_to. apply existsb_all_false. intros fk Hfk.
  pose proof (has_columns_table _ _ _ (Hrefs fk Hfk)) as Hthere.
  destruct (String.eqb_spec (fk_reftable fk) name) as [Heq|]; [|reflexivity].
  rewrite Heq in Hthere. congruence.
Qed.

(** No index belongs to a table that is not there. *)
Lemma absent_table_no_index (name : string) :
  has_table s name = false ->
  filter (fun i => negb (String.eqb (ix_table i) name)) (indexes s)
  = indexes s.
Proof.
  intros Habsent.
  apply (existsb_false_filter (fun i => String.eqb (ix_table i) name)).
  apply existsb_all_false. intros i Hi.
  unfold consistent in consistent_s.
  apply andb_true_iff in consistent_s. destruct consistent_s as [_ Hix].
  rewrite forallb_forall in Hix. specialize (Hix i Hi).
  destruct (String.eqb_spec (ix_table i) name) as [Heq|]; [|reflexivity].
  rewrite Heq in Hix. congruence.
Qed.

(** Without the extension no column has its type. *)
Lemma no_extension_no_vector :
  has_extension s "vector" = false ->
  existsb (fun t => uses_vector (tbl_columns t)) (tables s) = false.
Proof.
  intros Hext. apply existsb_all_false. intros t Ht.
  unfold consistent in consistent_s.
  apply andb_true_iff in consistent_s. destruct consistent_s as [Htables _].
  rewrite forallb_forall in Htables. specialize (Htables t Ht).
  apply andb_true_iff in Htables. destruct Htables as [_ Hvec].
  rewrite Hext, orb_false_r in Hvec. now apply negb_true_iff in Hvec.
Qed.

End Consistent.

Lemma create_table_applies (name : string) (columns : list Column)
    (foreign_keys : list ForeignKeyConstraint) (primary_key : list string)
    (s : Schema) :
  has_table s name = false -> has_index s name = false ->
  (uses_vector columns = true -> has_extension s "vector" = true) ->
  references_exist s foreign_keys = true ->
  references_keys s foreign_keys = true ->
  create_table name columns foreign_keys primary_key s
  = Applied {| extensions := extensions s;
               tables := tables s
                         ++ [{| tbl_name := name;
                                tbl_columns := columns;
                                tbl_foreign_keys := foreign_keys;
                                tbl_primary_key := primary_key |}];
               indexes := indexes s |}.
Proof.
  intros Ht Hi Hvec Hrefs Hkeys. unfold create_table, has_relation.
  rewrite Ht, Hi, Hrefs, Hkeys. cbn [orb negb].
  destruct (uses_vector columns); [|reflexivity].
  now rewrite (Hvec eq_refl).
Qed.

Lemma create_index_applies (name table : string) (columns : list string)
    (unique : bool) (s : Schema) :
  has_table s name = false -> has_index s name = false ->
  has_columns s table columns = true ->
  create_index name table columns unique s
  = Applied {| extensions := extensions s;
               tables := tables s;
               indexes := indexes s
                          ++ [{| ix_name := name;
                                 ix_table := table;
                                 ix_columns := columns;
                                 ix_unique := unique |}] |}.
Proof.
  intros Ht Hi Hcols. unfold create_index, has_relation.
  now rewrite Ht, Hi, Hcols.
Qed.

Lemma drop_index_applies (name table_name : string) (s : Schema) :
  has_index s name = true ->
  drop_index name table_name s
  = Applied {| extensions := extensions s;
               tables := tables s;
               indexes := filter (fun i => negb (index_named name i))
                                 (indexes s) |}.
Proof. intros Hi. unfold drop_index. now rewrite Hi. Qed.

Lemma drop_table_applies (name : string) (s : Schema) :
  has_table s name = true ->
  existsb (fun t => negb (named name t) && refers_to name t) (tables s)
  = false ->
  drop_table name s
  = Applied {| extensions := extensions s;
               tables := filter (fun t => negb (named name t)) (tables s);
               indexes := filter (fun i => negb (String.eqb (ix_table i)
                                                            name))
                                 (indexes s) |}.
Proof. intros Ht Hdep. unfold drop_table. now rewrite Ht, Hdep. Qed.

(** Adding one element at the end and filtering it out again. *)
Lemma filter_out_last {A} (f : A -> bool) (l : list A) (x : A) :
  existsb f l = false -> f x = true ->
  filter (fun y => negb (f y)) (l ++ [x]) = l.
Proof.
  intros Hl Hx. rewrite filter_app, (existsb_false_filter f l Hl).
  simpl. rewrite Hx. simpl. apply app_nil_r.
Qed.

Lemma filter_keep_last {A} (f : A -> bool) (l : list A) (x : A) :
  existsb f l = false -> f x = false ->
  filter (fun y => negb (f y)) (l ++ [x]) = l ++ [x].
Proof.
  intros Hl Hx. rewrite filter_app, (existsb_false_filter f l Hl).
  simpl. now rewrite Hx.
Qed.

Lemma existsb_last {A} (f : A -> bool) (l : list A) (x : A) :
  existsb f (l ++ [x]) = existsb f l || f x.
Proof. rewrite existsb_app. simpl. now rewrite orb_false_r. Qed.

(** Both directions of the migration on a schema that is ready for it:
    the upgrade applies, and the downgrade of its result comes down to the
    last statement, the drop of the extension, on the tables and indexes of
    before. *)
Lemma upgrade_then_downgrade (s : Schema) :
  ready_for_upgrade s = true ->
  exists s',
    upgrade s = Applied s'
    /\ extensions s'
       = (if has_extension s "vector" then extensions s
          else extensions s ++ ["vector"%string])
    /\ downgrade s'
       = drop_extension_if_exists "vector"
           {| extensions := extensions s';
              tables := tables s;
              indexes := indexes s |}.
Proof.
  intros Hready. unfold ready_for_upgrade in Hready.
  apply andb_true_iff in Hready. destruct Hready as [Hready Hkey].
  apply andb_true_iff in Hready. destruct Hready as [Hready Hcols].
  apply andb_true_iff in Hready. destruct Hready as [Hc Hfree].
  unfold migration_names in Hfree. cbn [forallb] in Hfree.
  rewrite !andb_true_iff, !negb_true_iff in Hfree.
  destruct Hfree as (Hce & Hixc & Hme & Hixm & _).
  apply orb_false_iff in Hce, Hixc, Hme, Hixm.
  destruct Hce as [Tce Ice], Hixc as [Tixc Iixc],
           Hme as [Tme Ime], Hixm as [Tixm Iixm].
  pose proof (absent_table_not_referred s Hc _ Tce) as Rce.
  pose proof (absent_table_not_referred s Hc _ Tme) as Rme.
  pose proof (absent_table_no_index s Hc _ Tce) as Xce.
  pose proof (absent_table_no_index s Hc _ Tme) as Xme.
  assert (Hconv : exists t,
             find (named "conversations") (tables s) = Some t
             /\ forallb (has_column t) ["id"%string] = true
             /\ same_columns (tbl_primary_key t) ["id"%string] = true).
  { unfold has_columns in Hcols. unfold is_key in Hkey.
    destruct (find (named "conversations") (tables s)) as [t|];
      [now exists t | discriminate]. }
  destruct Hconv as [conv [Hconv [Hid Hpk]]].
  unfold has_table in Tce, Tixc, Tme, Tixm.
  unfold has_index in Ice, Iixc, Ime, Iixm.
  assert (H1 : exists s1,
             create_extension_if_not_exists "vector" s = Applied s1
             /\ tables s1 = tables s /\ indexes s1 = indexes s
             /\ has_extension s1 "vector" = true
             /\ extensions s1
                = (if has_extension s "vector" then extensions s
                   else extensions s ++ ["vector"%string])).
  { unfold create_extension_if_not_exists.
    destruct (has_extension s "vector") eqn:Hext.
    - exists s. now rewrite Hext.
    - eexists. split; [reflexivity|]. cbn [tables indexes extensions].
      repeat split. unfold has_extension. cbn [extensions].
      rewrite existsb_last. cbn. apply orb_true_r. }
  destruct H1 as [s1 [Eq1 [Ts1 [Is1 [Hext1 Es1]]]]].
  eexists. split; [|split].
  - unfold upgrade. rewrite Eq1. cbn [and_then].
    rewrite create_table_applies; cycle 1.
    { unfold has_table. now rewrite Ts1. }
    { unfold has_index. now rewrite Is1. }
    { intros _. exact Hext1. }
    { unfold references_exist. cbn [forallb fk_reftable fk_refcolumns].
      unfold has_columns. rewrite Ts1, Hconv, Hid.
      reflexivity. }
    { unfold references_keys. cbn [forallb fk_reftable fk_refcolumns].
      unfold is_key. rewrite Ts1, Hconv, Hpk.
      reflexivity. }
    cbn [and_then].
    rewrite create_index_applies; cycle 1.
    { unfold has_table. cbn [tables]. rewrite Ts1, existsb_last, Tixc.
      reflexivity. }
    { unfold has_index. cbn [indexes]. now rewrite Is1. }
    { unfold has_columns. cbn [tables]. rewrite Ts1.
      rewrite find_app_none by (now apply existsb_false_find).
      reflexivity. }
    cbn [and_then].
    rewrite create_table_applies; cycle 1.
    { unfold has_table. cbn [tables]. rewrite Ts1, existsb_last, Tme.
      reflexivity. }
    { unfold has_index. cbn [indexes]. rewrite Is1, existsb_last, Ime.
      reflexivity. }
    { intros _. exact Hext1. }
    { unfold references_exist. cbn [forallb fk_reftable fk_refcolumns].
      unfold has_columns. cbn [tables]. rewrite Ts1.
      rewrite (find_app_some _ _ _ Hconv), Hid. reflexivity. }
    { unfold references_keys. cbn [forallb fk_reftable fk_refcolumns].
      unfold is_key. cbn [tables]. rewrite Ts1.
      rewrite (find_app_some _ _ _ Hconv), Hpk. reflexivity. }
    cbn [and_then].
    rewrite create_index_applies; cycle 1.
    { unfold has_table. cbn [tables].
      rewrite Ts1, !existsb_last, Tixm. reflexivity. }
    { unfold has_index. cbn [indexes]. rewrite Is1, existsb_last, Iixm.
      reflexivity. }
    { unfold has_columns. cbn [tables]. rewrite Ts1.
      rewrite find_app_none; [reflexivity|].
      rewrite find_app_none by (now apply existsb_false_find).
      reflexivity. }
    cbn [extensions tables indexes]. rewrite Ts1, Is1. reflexivity.
  - cbn [extensions]. exact Es1.
  - unfold downgrade.
    rewrite drop_index_applies; cycle 1.
    { unfold has_index. cbn [indexes]. rewrite existsb_last.
      apply orb_true_r. }
    cbn [and_then extensions tables indexes].
    rewrite (filter_out_last (index_named _)); cycle 1.
    { rewrite existsb_last, Iixm. reflexivity. }
    { reflexivity. }
    rewrite drop_table_applies; cycle 1.
    { unfold has_table. cbn [tables]. rewrite existsb_last.
      apply orb_true_r. }
    { cbn [tables]. rewrite !existsb_last, Rme. reflexivity. }
    cbn [and_then extensions tables indexes].
    rewrite (filter_out_last (named _)); cycle 1.
    { rewrite existsb_last, Tme. reflexivity. }
    { reflexivity. }
    rewrite filter_app, Xme. cbn [filter ix_table String.eqb Ascii.eqb
                                   Bool.eqb negb].
    rewrite drop_index_applies; cycle 1.
    { unfold has_index. cbn [indexes]. rewrite existsb_last.
      apply orb_true_r. }
    cbn [and_then extensions tables indexes].
    rewrite (filter_out_last (index_named _)); [|exact Iixc|reflexivity].
    rewrite drop_table_applies; cycle 1.
    { unfold has_table. cbn [tables]. rewrite existsb_last.
      apply orb_true_r. }
    { cbn [tables]. rewrite existsb_last, Rce. reflexivity. }
    cbn [and_then extensions tables indexes].
    rewrite (filter_out_last (named _)); [|exact Tce|reflexivity].
    rewrite Xce. reflexivity.
Qed.

(** X19: on a consistent schema without the extension, where the four names
    of the migration are free and conversations.id exists, the upgrade
    applies and the downgrade of its result gives back the schema of before:
    same extensions, tables and indexes. *)
Theorem migration_round_trip (s : Schema) :
  ready_for_upgrade s = true ->
  has_extension s "vector" = false ->
  exists s', upgrade s = Applied s' /\ downgrade s' = Applied s.
Proof.
  intros Hready Hext.
  destruct (upgrade_then_downgrade s Hready) as [s' [Hup [Hexts Hdown]]].
  exists s'. split; [exact Hup|].
  rewrite Hdown, Hexts, Hext.
  assert (Hc : consistent s = true).
  { unfold ready_for_upgrade in Hready.
    apply andb_true_iff in Hready. destruct Hready as [Hready _].
    apply andb_true_iff in Hready. destruct Hready as [Hready _].
    apply andb_true_iff in Hready. now destruct Hready. }
  unfold drop_extension_if_exists, has_extension.
  cbn [extensions tables indexes].
  rewrite existsb_last, !String.eqb_refl, orb_true_r.
  rewrite (no_extension_no_vector s Hc Hext). cbn [andb].
  pose proof (filter_out_last (String.eqb "vector") (extensions s)
                "vector"%string Hext (String.eqb_refl _)) as Hback.
  rewrite Hback. destruct s. reflexivity.
Qed.

(** X20: when the extension was installed before the upgrade, the downgrade
    does not give back the schema of before: it drops the extension it did
    not create, or, when another table has a vector column, it is refused
    at its last statement. *)
Theorem downgrade_drops_earlier_extension (s : Schema) :
  ready_for_upgrade s = true ->
  has_extension s "vector" = true ->
  exists s',
    upgrade s = Applied s'
    /\ downgrade s' <> Applied s
    /\ downgrade s'
       = (if existsb (fun t => uses_vector (tbl_columns t)) (tables s)
          then Refused DependentObjectsStillExist
          else Applied {| extensions :=
                            filter (fun e => negb (String.eqb "vector" e))
                                   (extensions s);
                          tables := tables s;
                          indexes := indexes s |}).
Proof.
  intros Hready Hext.
  destruct (upgrade_then_downgrade s Hready) as [s' [Hup [Hexts Hdown]]].
  exists s'. split; [exact Hup|].
  rewrite Hext in Hexts. rewrite Hexts in Hdown.
  assert (Hshape : downgrade s'
                   = (if existsb (fun t => uses_vector (tbl_columns t))
                                 (tables s)
                      then Refused DependentObjectsStillExist
                      else Applied
                             {| extensions :=
                                  filter (fun e => negb (String.eqb "vector" e))
                                         (extensions s);
                                tables := tables s;
                                indexes := indexes s |})).
  { rewrite Hdown. unfold drop_extension_if_exists.
    unfold has_extension in *. cbn [extensions tables indexes].
    rewrite Hext. reflexivity. }
  split; [|exact Hshape].
  rewrite Hshape.
  destruct (existsb (fun t => uses_vector (tbl_columns t)) (tables s));
    [discriminate|].
  intros Heq.
  assert (HE : filter (fun e => negb (String.eqb "vector" e)) (extensions s)
               = extensions s).
  { exact (f_equal (fun r => match r with
                             | Applied x => extensions x
                             | Refused _ => []
                             end) Heq). }
  pose proof (existsb_filter_self (String.eqb "vector") (extensions s))
    as Hgone.
  rewrite HE in Hgone. unfold has_extension in Hext. congruence.
Qed.

Lemma create_extension_inv (name : string) (s s1 : Schema) :
  create_extension_if_not_exists name s = Applied s1 ->
  tables s1 = tables s /\ indexes s1 = indexes s.
Proof.
  unfold create_extension_if_not_exists.
  destruct (has_extension s name); intros H; inversion H; now split.
Qed.

Lemma create_table_inv (name : string) (columns : list Column)
    (foreign_keys : list ForeignKeyConstraint) (primary_key : list string)
    (s s1 : Schema) :
  create_table name columns foreign_keys primary_key s = Applied s1 ->
  has_table s1 name = true
  /\ forall other, has_table s other = true -> has_table s1 other = true.
Proof.
  unfold create_table.
  destruct (has_relation s name); [discriminate|].
  destruct (uses_vector columns && negb (has_extension s "vector"));
    [discriminate|].
  destruct (negb (references_exist s foreign_keys)); [discriminate|].
  destruct (negb (references_keys s foreign_keys)); [discriminate|].
  intros H. inversion H. unfold has_table. cbn [tables]. split.
  - rewrite existsb_last. unfold named at 2. cbn [tbl_name].
    rewrite String.eqb_refl. apply orb_true_r.
  - intros other Hother. rewrite existsb_last, Hother. reflexivity.
Qed.

Lemma create_index_inv (name table : string) (columns : list string)
    (unique : bool) (s s1 : Schema) :
  create_index name table columns unique s = Applied s1 ->
  tables s1 = tables s.
Proof.
  unfold create_index.
  destruct (has_relation s name); [discriminate|].
  destruct (has_columns s table columns); [|discriminate].
  intros H. now inversion H.
Qed.

(** With the first table of the migration in place the upgrade is refused. *)
Lemma upgrade_duplicate (s : Schema) :
  has_relation s "conversation_embeddings" = true ->
  upgrade s = Refused DuplicateObject.
Proof.
  intros Hthere. unfold upgrade.
  destruct (create_extension_if_not_exists "vector" s) as [s1|e] eqn:E1.
  - destruct (@create_extension_inv _ _ _ E1) as [Ht Hi].
    cbn [and_then]. unfold create_table.
    unfold has_relation, has_table, has_index in *.
    rewrite Ht, Hi, Hthere. reflexivity.
  - unfold create_extension_if_not_exists in E1.
    destruct (has_extension s "vector"); discriminate.
Qed.

Lemma drop_index_inv (name table_name : string) (s s1 : Schema) :
  drop_index name table_name s = Applied s1 ->
  has_index s1 name = false
  /\ forall other, has_index s other = false -> has_index s1 other = false.
Proof.
  unfold drop_index. destruct (has_index s name); [|discriminate].
  intros H. inversion H. unfold has_index. cbn [indexes]. split.
  - apply (existsb_filter_self (index_named name)).
  - intros other. apply existsb_filter_false.
Qed.

Lemma drop_table_inv (name : string) (s s1 : Schema) :
  drop_table name s = Applied s1 ->
  forall other, has_index s other = false -> has_index s1 other = false.
Proof.
  unfold drop_table. destruct (has_table s name); [|discriminate].
  destruct (existsb _ (tables s)); [discriminate|].
  intros H. inversion H. unfold has_index. cbn [indexes].
  intros other. apply existsb_filter_false.
Qed.

Lemma drop_extension_inv (name : string) (s s1 : Schema) :
  drop_extension_if_exists name s = Applied s1 ->
  indexes s1 = indexes s.
Proof.
  unfold drop_extension_if_exists.
  destruct (has_extension s name); [|intros H; now inversion H].
  destruct (_ && _); [discriminate|].
  intros H. now inversion H.
Qed.

(** X21: neither direction can be applied twice in a row: an upgrade of an
    upgraded schema is refused because the first table is already there, a
    downgrade of a downgraded schema because the first index it drops is
    not. Only the two statements on the extension are guarded. *)
Theorem migration_not_repeatable (s s' : Schema) :
  (upgrade s = Applied s' -> upgrade s' = Refused DuplicateObject)
  /\ (downgrade s = Applied s' -> downgrade s' = Refused UndefinedObject).
Proof.
  split.
  - intros Hup. apply upgrade_duplicate.
    unfold upgrade in Hup.
    destruct (create_extension_if_not_exists "vector" s) as [s1|] eqn:E1;
      [|discriminate].
    cbn [and_then] in Hup.
    destruct (create_table "conversation_embeddings" _ _ _ s1)
      as [s2|] eqn:E2; [|discriminate].
    cbn [and_then] in Hup.
    destruct (create_index "ix_conversation_embeddings_conversation_id"
                           _ _ _ s2) as [s3|] eqn:E3; [|discriminate].
    cbn [and_then] in Hup.
    destruct (create_table "message_embeddings" _ _ _ s3)
      as [s4|] eqn:E4; [|discriminate].
    cbn [and_then] in Hup.
    destruct (@create_table_inv _ _ _ _ _ _ E2) as [H2 _].
    destruct (@create_table_inv _ _ _ _ _ _ E4) as [_ H4].
    pose proof (@create_index_inv _ _ _ _ _ _ E3) as H3.
    pose proof (@create_index_inv _ _ _ _ _ _ Hup) as H5.
    unfold has_relation. apply orb_true_iff. left.
    unfold has_table. rewrite H5. apply H4.
    unfold has_table. rewrite H3. exact H2.
  - intros Hdown. unfold downgrade in Hdown.
    destruct (drop_index "ix_message_embeddings_conversation_id" _ s)
      as [s1|] eqn:E1; [|discriminate].
    cbn [and_then] in Hdown.
    destruct (drop_table "message_embeddings" s1) as [s2|] eqn:E2;
      [|discriminate].
    cbn [and_then] in Hdown.
    destruct (drop_index "ix_conversation_embeddings_conversation_id" _ s2)
      as [s3|] eqn:E3; [|discriminate].
    cbn [and_then] in Hdown.
    destruct (drop_table "conversation_embeddings" s3) as [s4|] eqn:E4;
      [|discriminate].
    cbn [and_then] in Hdown.
    destruct (@drop_index_inv _ _ _ _ E1) as [H1 _].
    pose proof (@drop_table_inv _ _ _ E2 _ H1) as H2.
    destruct (@drop_index_inv _ _ _ _ E3) as [_ H3]. specialize (H3 _ H2).
    pose proof (@drop_table_inv _ _ _ E4 _ H3) as H4.
    pose proof (@drop_extension_inv _ _ _ Hdown) as H5.
    unfold downgrade, drop_index, has_index. rewrite H5.
    unfold has_index in H4. rewrite H4. reflexivity.
Qed.

(** X22: the upgrade is refused when the name conversation_embeddings is
    taken by a table or an index, and, when it is free, for want of a column
    conversations.id for the foreign key to refer to. *)
Theorem upgrade_refused (s : Schema) :
  (has_relation s "conversation_embeddings" = true ->
   upgrade s = Refused DuplicateObject)
  /\ (has_relation s "conversation_embeddings" = false ->
      has_columns s "conversations" ["id"%string] = false ->
      upgrade s = Refused UndefinedObject).
Proof.
  split; [apply upgrade_duplicate|].
  intros Hfree Hcols.
  assert (Hstart : exists s1,
             create_extension_if_not_exists "vector" s = Applied s1
             /\ tables s1 = tables s /\ indexes s1 = indexes s
             /\ has_extension s1 "vector" = true).
  { unfold create_extension_if_not_exists.
    destruct (has_extension s "vector") eqn:Hext.
    - exists s. now rewrite Hext.
    - eexists. split; [reflexivity|]. cbn [tables indexes].
      repeat split. unfold has_extension. cbn [extensions].
      rewrite existsb_last, String.eqb_refl. apply orb_true_r. }
  destruct Hstart as [s1 [E1 [Ht [Hi Hext1]]]].
  unfold upgrade. rewrite E1. cbn [and_then].
  unfold create_table, has_relation, has_table, has_index in *.
  rewrite Ht, Hi, Hfree, Hext1.
  unfold references_exist. cbn [forallb fk_reftable fk_refcolumns].
  unfold has_columns in *. rewrite Ht, Hcols. reflexivity.
Qed.

(* ================================================================= *)
(** * The further properties on the sample data *)

Lemma at_most_page_size_per_page_witness :
  let result := [(0, py "fix the parser", 1); (3, py "now deploy", 2)] in
  0 < 1
  /\ extract_user_queries mixed_session 1 = Ok result
  /\ Forall (fun q : UserQuery => 1 <= snd q) result
  /\ Z.of_nat (length (filter (fun q : UserQuery => snd q =? 2) result)) <= 1.
Proof.
  intros result.
  assert (Hp : 0 < 1) by lia.
  assert (Hrun : extract_user_queries mixed_session 1 = Ok result)
    by (vm_compute; reflexivity).
  split; [exact Hp|]. split; [exact Hrun|].
  exact (@at_most_page_size_per_page mixed_session 1 2 result Hp Hrun).
Defined.

Lemma extracted_tuples_well_formed_witness :
  let result := [(0, py "fix the parser", 1); (3, py "now deploy", 1)] in
  extract_user_queries mixed_session 5 = Ok result
  /\ Forall (fun q : UserQuery =>
               snd (fst q) <> []
               /\ (length (snd (fst q)) <= 1000)%nat
               /\ 0 <= fst (fst q)
                  < Z.of_nat (length (get_loglines mixed_session)))
            result.
Proof.
  intros result.
  assert (Hrun : extract_user_queries mixed_session 5 = Ok result)
    by (vm_compute; reflexivity).
  split; [exact Hrun|].
  exact (@extracted_tuples_well_formed mixed_session 5 result Hrun).
Defined.

Lemma store_embeddings_replaces_one_conversation_witness :
  let queries := [(0, py "old question", 1); (1, py "new question", 1)] in
  let db := open_session stale_tables 2 in
  let run := store_embeddings steady_service 1 (py "new summary") queries db in
  run = (fst run, Ok tt)
  /\ stored_summaries (committed (fst run)) 1
     = (if str_truthy (py "new summary")
        then [firstn 500 (py "new summary")] else [])
  /\ conversations (committed (fst run)) = conversations (txn db).
Proof.
  intros queries db run.
  assert (Hrun : run = (fst run, Ok tt)) by (vm_compute; reflexivity).
  split; [exact Hrun|].
  destruct (@store_embeddings_replaces_one_conversation steady_service 1
              (py "new summary") queries db (fst run) Hrun)
    as [Hs [_ [_ [Hc _]]]].
  split; [exact Hs | exact Hc].
Defined.

Lemma store_embeddings_raise_commits_nothing_witness :
  let queries := [(0, py "old question", 1); (1, py "new question", 1)] in
  let db := open_session stale_tables 2 in
  let run := store_embeddings batch_failing_service 1 (py "new summary")
                              queries db in
  run = (fst run, Raise EncoderError)
  /\ committed (fst run) = committed db
  /\ txn (rollback_session (fst run)) = committed db.
Proof.
  intros queries db run.
  assert (Hrun : run = (fst run, Raise EncoderError))
    by (vm_compute; reflexivity).
  split; [exact Hrun|].
  destruct (@store_embeddings_raise_commits_nothing batch_failing_service 1
              (py "new summary") queries db (fst run) EncoderError Hrun)
    as [Hc [_ [Ht _]]].
  split; [exact Hc | exact Ht].
Defined.

Lemma one_summary_row_per_conversation_witness :
  let db := open_session stale_tables 2 in
  summaries_unique db
  /\ summaries_unique
       (fst (sync_local_sessions (two_sessions_env "none") steady_service
                                 "/out" None 100 None db))
  /\ summaries_unique
       (fst (sync_all (two_sessions_env "s2") batch_failing_service
                      "/out" None None None db)).
Proof.
  intros db.
  assert (Hone : one_summary_each stale_tables).
  { intros cid. unfold summary_rows, stale_tables.
    cbn [conversation_embeddings filter ce_conversation_id].
    destruct (1 =? cid); cbn [length]; lia. }
  assert (Hdb : summaries_unique db) by (split; exact Hone).
  destruct (one_summary_row_per_conversation Hdb) as [_ [Hlocal [_ Hall]]].
  split; [exact Hdb|]. split; [apply Hlocal | apply Hall].
Defined.

Lemma one_conversation_per_session_witness :
  let db := open_session stale_tables 2 in
  sessions_unique db
  /\ sessions_unique
       (fst (sync_web_sessions (two_sessions_env "none") steady_service
                               "/out" None None 100 None db))
  /\ sessions_unique
       (fst (sync_all (two_sessions_env "s2") batch_failing_service
                      "/out" None None None db)).
Proof.
  intros db.
  assert (Hone : unique_session_ids stale_tables).
  { unfold unique_session_ids. cbn.
    constructor; [intros [] | constructor]. }
  assert (Hdb : sessions_unique db) by (split; exact Hone).
  destruct (one_conversation_per_session Hdb) as [_ [Hweb Hall]].
  split; [exact Hdb|]. split; [apply Hweb | apply Hall].
Defined.

Lemma updated_count_bounded_witness :
  let env := two_sessions_env "s2" in
  let db := open_session stale_tables 2 in
  let sessions := [("s1"%string, Some (py "new summary"));
                   ("s2"%string, Some (py "second summary"))] in
  let run := sync_local_sessions env steady_service "/out" None 100 None db in
  run = (fst run, Ok 1)
  /\ find_local_sessions env (expanduser env "~/.claude/projects") 100
     = Ok sessions
  /\ 0 <= 1 <= Z.of_nat (length sessions).
Proof.
  intros env db sessions run.
  assert (Hrun : run = (fst run, Ok 1)) by (vm_compute; reflexivity).
  assert (Hfind : find_local_sessions env
                    (expanduser env "~/.claude/projects") 100 = Ok sessions)
    by reflexivity.
  split; [exact Hrun|]. split; [exact Hfind|].
  destruct (@updated_count_bounded env steady_service "/out" None 100 db
              (fst run) 1) as [Hlocal _].
  exact (Hlocal None sessions Hrun Hfind).
Defined.

Lemma sync_all_reports_the_sum_witness :
  let env := two_sessions_env "none" in
  exists db' stats,
    sync_all env steady_service "/out" None None None
             (open_session stale_tables 2)
    = (db', Ok stats)
    /\ total_updated stats = local_updated stats + web_updated stats
    /\ local_updated stats <= 2.
Proof.
  intros env.
  destruct (sync_all_reports_the_sum env steady_service "/out" None None None
              (open_session stale_tables 2))
    as [db' [stats [Hrun [Hsum [_ [_ Hbound]]]]]].
  exists db', stats. split; [exact Hrun|]. split; [exact Hsum|].
  exact (Hbound [("s1"%string, Some (py "new summary"));
                 ("s2"%string, Some (py "second summary"))] eq_refl).
Defined.


Lemma results_belong_to_conversations_witness :
  let c := connection (open_session summary_only_tables 2) in
  python_sort sort_by_similarity
  /\ search_transcripts sort_by_similarity opposite_service
                        (py "deploy") 1 c
     = (c, Ok [opposite_result])
  /\ Forall (fun r => of_conversation (database c) r
                      /\ url r = expected_url r)
            [opposite_result].
Proof.
  intros c.
  pose proof stable_sort_is_python_sort as Hsort.
  assert (Hrun : search_transcripts sort_by_similarity opposite_service
                                    (py "deploy") 1 c
                 = (c, Ok [opposite_result])) by reflexivity.
  split; [exact Hsort|]. split; [exact Hrun|].
  exact (@results_belong_to_conversations sort_by_similarity
           opposite_service (py "deploy") 1 c c [opposite_result]
           Hsort Hrun).
Defined.

Lemma search_is_read_only_witness :
  let c := connection (open_session stale_tables 2) in
  -1 < 0
  /\ search_transcripts sort_by_similarity steady_service
                        (py "deploy") (-1) c
     = (abort c, Raise DataError)
  /\ search_transcripts sort_by_similarity steady_service
                        (py "deploy") 5 (abort c)
     = (abort c, Raise InternalError)
  /\ aborted (rollback_connection (abort c)) = false.
Proof.
  intros c.
  assert (Hneg : -1 < 0) by lia.
  destruct (@search_is_read_only sort_by_similarity steady_service
              (py "deploy") (-1) c)
    as [_ [_ [_ [_ [_ [_ Hrefused]]]]]].
  destruct (Hrefused [1%R; 0%R] eq_refl eq_refl eq_refl eq_refl
                     (or_introl Hneg))
    as [Hnow [Hlater [Hback _]]].
  split; [exact Hneg|]. split; [exact Hnow|].
  split; [|exact Hback].
  destruct (@search_is_read_only sort_by_similarity steady_service
              (py "deploy") 5 (abort c))
    as [_ [_ [_ [_ [_ [Haborted _]]]]]].
  exact (Haborted [1%R; 0%R] eq_refl eq_refl eq_refl).
Defined.

Lemma search_returns_most_similar_witness :
  let c := connection (open_session two_candidate_tables 2) in
  python_sort sort_by_similarity
  /\ search_transcripts sort_by_similarity steady_service
                        (py "parser bug") 1 c
     = (c, Ok [near_result])
  /\ Forall (fun r => similarity r <> NaN)
            (all_candidates (database c) [1%R; 0%R])
  /\ In far_result (all_candidates (database c) [1%R; 0%R])
  /\ far_result <> near_result
  /\ (In far_result [near_result]
      \/ Forall (fun r => float_le (similarity far_result) (similarity r))
                [near_result]).
Proof.
  intros c.
  pose proof stable_sort_is_python_sort as Hsort.
  pose proof (@search_transcripts_runs sort_by_similarity steady_service
                (py "parser bug") 1 c [1%R; 0%R] eq_refl eq_refl eq_refl
                ltac:(lia) eq_refl eq_refl eq_refl) as Hrun.
  change (merged_candidates (database c) [1%R; 0%R] 1)
    with [near_result; far_result] in Hrun.
  rewrite sample_candidates_sorted in Hrun.
  change (slice_to 1 [near_result; far_result]) with [near_result] in Hrun.
  assert (Hnum : Forall (fun r => similarity r <> NaN)
                        (all_candidates (database c) [1%R; 0%R])).
  { change (all_candidates (database c) [1%R; 0%R])
      with [near_result; far_result].
    constructor; [rewrite near_similarity; discriminate|].
    constructor; [rewrite far_similarity; discriminate | constructor]. }
  assert (Hin : In far_result (all_candidates (database c) [1%R; 0%R]))
    by (right; left; reflexivity).
  split; [exact Hsort|]. split; [exact Hrun|]. split; [exact Hnum|].
  split; [exact Hin|]. split; [discriminate|].
  exact (@search_returns_most_similar sort_by_similarity steady_service
           (py "parser bug") 1 c c [near_result] [1%R; 0%R] far_result
           Hsort Hrun eq_refl Hnum Hin).
Defined.

Lemma search_with_large_limit_returns_all_witness :
  let c := connection (open_session two_candidate_tables 2) in
  python_sort sort_by_similarity
  /\ exists rs,
       search_transcripts sort_by_similarity steady_service
                          (py "parser bug") 2 c
       = (c, Ok rs)
       /\ Z.of_nat (length (all_candidates (database c) [1%R; 0%R])) <= 2
       /\ Permutation rs (all_candidates (database c) [1%R; 0%R]).
Proof.
  intros c.
  pose proof stable_sort_is_python_sort as Hsort.
  pose proof (@search_transcripts_runs sort_by_similarity steady_service
                (py "parser bug") 2 c [1%R; 0%R] eq_refl eq_refl eq_refl
                ltac:(lia) eq_refl eq_refl eq_refl) as Hrun.
  assert (Hlen : Z.of_nat (length (all_candidates (database c)
                                                  [1%R; 0%R])) <= 2).
  { change (Z.of_nat 2 <= 2). lia. }
  split; [exact Hsort|]. eexists.
  split; [exact Hrun|]. split; [exact Hlen|].
  exact (@search_with_large_limit_returns_all sort_by_similarity
           steady_service (py "parser bug") 2 c c _ [1%R; 0%R]
           Hsort Hrun eq_refl Hlen).
Defined.

Lemma stored_embeddings_are_found_witness :
  let db := open_session summary_only_tables 2 in
  let queries := [(0, py "old question", 1)] in
  let stored := store_embeddings steady_service 1 (py "new summary")
                                 queries db in
  python_sort sort_by_similarity
  /\ exists rs,
       stored = (fst stored, Ok tt)
       /\ search_transcripts sort_by_similarity steady_service
                             (py "question") 10 (connection (fst stored))
          = (connection (fst stored), Ok rs)
       /\ (exists r, In r rs
                     /\ match_type r = "summary"%string
                     /\ conversation_id r = 1
                     /\ res_session_id r = "s1"%string
                     /\ text r = firstn 500 (py "new summary"))
       /\ (exists r, In r rs
                     /\ match_type r = "message"%string
                     /\ conversation_id r = 1
                     /\ res_session_id r = "s1"%string
                     /\ text r = firstn 500 (py "old question")
                     /\ message_index r = Some 0
                     /\ page_number r = Some 1).
Proof.
  intros db queries stored.
  pose proof stable_sort_is_python_sort as Hsort.
  assert (Hstore : stored = (fst stored, Ok tt)) by (vm_compute; reflexivity).
  assert (Hal : batch_aligned steady_service queries).
  { intros es Hes. inversion Hes. reflexivity. }
  assert (Hin : In (sample_conversation 1 "s1" 1) (conversations (txn db)))
    by (left; reflexivity).
  assert (Hact : inactive (fst stored) = false) by (vm_compute; reflexivity).
  assert (Hlimit : 0 <= 10 < 2 ^ 63) by lia.
  assert (Hce : forallb (fun p => same_dimension (ce_embedding (fst p))
                                                 [1%R; 0%R])
                        (join_conversation_embeddings (txn (fst stored)))
                = true) by reflexivity.
  assert (Hme : forallb (fun p => same_dimension (me_embedding (fst p))
                                                 [1%R; 0%R])
                        (join_message_embeddings (txn (fst stored)))
                = true) by reflexivity.
  pose proof (@search_transcripts_runs sort_by_similarity steady_service
                (py "question") 10 (connection (fst stored)) [1%R; 0%R]
                eq_refl Hact eq_refl Hlimit eq_refl Hce Hme) as Hsearch.
  assert (Hlen : Z.of_nat (length (all_candidates (txn (fst stored))
                                                  [1%R; 0%R])) <= 10).
  { unfold all_candidates. rewrite length_app, !length_map.
    assert (H1 : length (join_conversation_embeddings (txn (fst stored)))
                 = 1%nat) by reflexivity.
    assert (H2 : length (join_message_embeddings (txn (fst stored)))
                 = 1%nat) by reflexivity.
    rewrite H1, H2. cbn. lia. }
  destruct (@stored_embeddings_are_found sort_by_similarity
              steady_service steady_service 1
              (py "new summary") queries db (fst stored) _
              (sample_conversation 1 "s1" 1) (py "question") 10 _
              [1%R; 0%R] Hsort Hstore Hal Hin eq_refl Hsearch eq_refl Hlen)
    as [Hsummary Hmessages].
  split; [exact Hsort|]. eexists.
  split; [exact Hstore|]. split; [exact Hsearch|].
  split.
  - apply Hsummary. discriminate.
  - apply (Hmessages 0 (py "old question") 1). left. reflexivity.
Defined.

Lemma model_loaded_at_most_once_witness :
  let name := "all-MiniLM-L6-v2"%string in
  let texts := [py "fix the parser"; py "now deploy"] in
  encode_all sample_library warm_process (map (pair name) texts)
  = (warm_process, map (model_encode_text sample_library name) texts)
  /\ exists p',
       encode_all sample_library fresh_process (map (pair name) texts)
       = (p', map (model_encode_text sample_library name) texts)
       /\ stdout p' = ["Loading embedding model: all-MiniLM-L6-v2"%string].
Proof.
  intros name texts.
  destruct (@model_loaded_at_most_once sample_library name texts warm_process)
    as [Hwarm _].
  destruct (@model_loaded_at_most_once sample_library name texts fresh_process)
    as [_ Hcold].
  split.
  - apply Hwarm.
    exact (ex_intro _ _ (conj eq_refl (conj eq_refl eq_refl))).
  - destruct (Hcold name) as [p' [Hrun [Hout _]]].
    + intros m0 [s [Hs _]]. discriminate Hs.
    + reflexivity.
    + discriminate.
    + exists p'. split; [exact Hrun | exact Hout].
Defined.

Lemma failed_load_is_retried_witness :
  let texts := [py "fix the parser"; py "now deploy"] in
  SentenceTransformer sample_library "missing" = Raise EncoderError
  /\ exists p',
       encode_all sample_library fresh_process
                  (map (pair "missing"%string) texts)
       = (p', [Raise EncoderError; Raise EncoderError])
       /\ stdout p' = ["Loading embedding model: missing"%string;
                       "Loading embedding model: missing"%string].
Proof.
  intros texts.
  assert (Hload : SentenceTransformer sample_library "missing"
                  = Raise EncoderError) by reflexivity.
  split; [exact Hload|].
  destruct (@failed_load_is_retried sample_library "missing" EncoderError
              texts Hload fresh_process) as [p' [Hrun [Hout _]]].
  - intros m [s [Hs _]]. discriminate Hs.
  - exists p'. split; [exact Hrun | exact Hout].
Defined.

Lemma switching_model_reloads_witness :
  loaded sample_library warm_process "all-MiniLM-L6-v2"%string
         "all-MiniLM-L6-v2"%string
  /\ stdout (fst (encode_all sample_library warm_process
                    [("other"%string, py "fix the parser");
                     ("all-MiniLM-L6-v2"%string, py "now deploy")]))
     = ["Loading embedding model: all-MiniLM-L6-v2"%string;
        "Loading embedding model: other"%string;
        "Loading embedding model: all-MiniLM-L6-v2"%string].
Proof.
  assert (Hloaded : loaded sample_library warm_process
                           "all-MiniLM-L6-v2"%string
                           "all-MiniLM-L6-v2"%string)
    by exact (ex_intro _ _ (conj eq_refl (conj eq_refl eq_refl))).
  split; [exact Hloaded|].
  apply (@switching_model_reloads sample_library "all-MiniLM-L6-v2"%string
           "other"%string "all-MiniLM-L6-v2"%string (py "fix the parser") (py "now deploy")
           warm_process Hloaded).
  discriminate.
Defined.

Lemma migration_round_trip_witness :
  ready_for_upgrade conversations_only = true
  /\ has_extension conversations_only "vector" = false
  /\ exists s', upgrade conversations_only = Applied s'
                /\ downgrade s' = Applied conversations_only.
Proof.
  assert (Hready : ready_for_upgrade conversations_only = true)
    by (vm_compute; reflexivity).
  assert (Hext : has_extension conversations_only "vector" = false)
    by reflexivity.
  split; [exact Hready|]. split; [exact Hext|].
  exact (@migration_round_trip conversations_only Hready Hext).
Defined.

Lemma downgrade_drops_earlier_extension_witness :
  ready_for_upgrade with_vector_installed = true
  /\ has_extension with_vector_installed "vector" = true
  /\ exists s', upgrade with_vector_installed = Applied s'
                /\ downgrade s' = Applied conversations_only.
Proof.
  assert (Hready : ready_for_upgrade with_vector_installed = true)
    by (vm_compute; reflexivity).
  assert (Hext : has_extension with_vector_installed "vector" = true)
    by reflexivity.
  split; [exact Hready|]. split; [exact Hext|].
  destruct (@downgrade_drops_earlier_extension with_vector_installed
              Hready Hext) as [s' [Hup [_ Hdown]]].
  exists s'. split; [exact Hup | exact Hdown].
Defined.

Lemma migration_not_repeatable_witness :
  upgrade conversations_only = Applied upgraded_sample
  /\ upgrade upgraded_sample = Refused DuplicateObject
  /\ downgrade upgraded_sample = Applied conversations_only
  /\ downgrade conversations_only = Refused UndefinedObject.
Proof.
  assert (Hup : upgrade conversations_only = Applied upgraded_sample)
    by (vm_compute; reflexivity).
  assert (Hdown : downgrade upgraded_sample = Applied conversations_only)
    by (vm_compute; reflexivity).
  split; [exact Hup|].
  split;
    [exact (proj1 (@migration_not_repeatable conversations_only
                     upgraded_sample) Hup)|].
  split; [exact Hdown|].
  exact (proj2 (@migration_not_repeatable upgraded_sample
                  conversations_only) Hdown).
Defined.

Lemma upgrade_refused_witness :
  has_relation empty_schema "conversation_embeddings" = false
  /\ has_columns empty_schema "conversations" ["id"%string] = false
  /\ upgrade empty_schema = Refused UndefinedObject.
Proof.
  assert (Hfree : has_relation empty_schema "conversation_embeddings" = false)
    by reflexivity.
  assert (Hcols : has_columns empty_schema "conversations" ["id"%string]
                  = false) by reflexivity.
  split; [exact Hfree|]. split; [exact Hcols|].
  exact (proj2 (@upgrade_refused empty_schema) Hfree Hcols).
Defined.
